(** * Smart document search: the query-time ranking pipeline

    A shallow embedding of the search route of the backend
    ([routes/search.ts], the [router.post('/')] handler and its helpers) and
    of [utils/vectorStore.ts], with the properties the specification states
    about them.

    Conventions of the embedding.
    - A JavaScript string is a [jstring], a list of 8-bit characters.  Character
      classes and case mapping are the ASCII ones ([\w], [\b] and the [i] flag
      are ASCII-only in JavaScript as well); characters above 127 have no case
      and are neither word characters nor white space.
    - Numbers of the ranking pipeline are rationals ([Q]); the numbers of
      [cosineSimilarity] are the IEEE 754 double-precision numbers of
      JavaScript ([float], with their rounding, infinities and NaN).
    - Regular expressions are kept as the source writes them: a pattern is a
      string, parsed by [Regex.parse] and run by a backtracking matcher with
      the priorities of the JavaScript one (greedy and lazy quantifiers,
      left-to-right alternation, capture groups).
    - The embedding provider, the similarity of two stored vectors, the
      locale-aware string comparison and the snippet extractor are
      collaborators of the handler, gathered in the record [Env]. *)

From Stdlib Require Floats.
Import PrimFloat.
From Stdlib Require Import String Ascii List Bool Arith Lia ZArith QArith Qround.
From Stdlib Require Import Reals Lra.
Import ListNotations.

Set Implicit Arguments.

#[local] Close Scope R_scope.
#[local] Close Scope Q_scope.
#[local] Open Scope nat_scope.
#[local] Open Scope bool_scope.
#[local] Open Scope list_scope.

(* ===================================================================== *)
(** * JavaScript strings *)
(* ===================================================================== *)

Definition jstring := list ascii.

Definition str (s : string) : jstring := list_ascii_of_string s.
Coercion str : string >-> jstring.

Module JS.

Definition code (c : ascii) : nat := nat_of_ascii c.

Definition between (lo hi : nat) (c : ascii) : bool :=
  (lo <=? code c) && (code c <=? hi).

Definition isUpper (c : ascii) : bool := between 65 90 c.
Definition isLower (c : ascii) : bool := between 97 122 c.
Definition isDigit (c : ascii) : bool := between 48 57 c.

(** [\w] *)
Definition isWord (c : ascii) : bool :=
  isUpper c || isLower c || isDigit c || (code c =? 95).

(** [\s]: tab, line feed, vertical tab, form feed, carriage return, space. *)
Definition isSpace (c : ascii) : bool :=
  between 9 13 c || (code c =? 32).

(** Line terminators, the characters [.] does not match. *)
Definition isLineTerminator (c : ascii) : bool :=
  (code c =? 10) || (code c =? 13).

Definition toLower (c : ascii) : ascii :=
  if isUpper c then ascii_of_nat (code c + 32) else c.

Definition toUpper (c : ascii) : ascii :=
  if isLower c then ascii_of_nat (code c - 32) else c.

Definition toLowerCase (t : jstring) : jstring := map toLower t.
Definition toUpperCase (t : jstring) : jstring := map toUpper t.

Definition eqc (a b : ascii) : bool := Ascii.eqb a b.

Fixpoint eqt (a b : jstring) : bool :=
  match a, b with
  | [], [] => true
  | x :: a', y :: b' => eqc x y && eqt a' b'
  | _, _ => false
  end.

Fixpoint startsWith (t p : jstring) {struct p} : bool :=
  match p, t with
  | [], _ => true
  | x :: p', y :: t' => eqc x y && startsWith t' p'
  | _ :: _, [] => false
  end.

(** [t.includes(p)] *)
Fixpoint includes (t p : jstring) : bool :=
  startsWith t p ||
  match t with
  | [] => false
  | _ :: t' => includes t' p
  end.

(** [t.indexOf(p)], [None] for -1. *)
Fixpoint indexOf (t p : jstring) : option nat :=
  if startsWith t p then Some 0
  else match t with
       | [] => None
       | _ :: t' => option_map S (indexOf t' p)
       end.

Fixpoint dropWhile (f : ascii -> bool) (t : jstring) : jstring :=
  match t with
  | [] => []
  | c :: t' => if f c then dropWhile f t' else t
  end.

Definition trimStart (t : jstring) : jstring := dropWhile isSpace t.

Fixpoint trimEnd (t : jstring) : jstring :=
  match t with
  | [] => []
  | c :: t' =>
      match trimEnd t' with
      | [] => if isSpace c then [] else [c]
      | r => c :: r
      end
  end.

Definition trim (t : jstring) : jstring := trimEnd (trimStart t).

(** [t.substring(a, b)] for [a <= b]. *)
Definition substring (a b : nat) (t : jstring) : jstring :=
  firstn (b - a) (skipn a t).

(** [t.split(sep)] on a one-character separator: the pieces between the
    separators, empty pieces included. *)
Fixpoint splitOn (sep : ascii) (t : jstring) : list jstring :=
  match t with
  | [] => [[]]
  | c :: t' =>
      if eqc c sep then [] :: splitOn sep t'
      else match splitOn sep t' with
           | [] => [[c]]
           | w :: ws => (c :: w) :: ws
           end
  end.

(** The non-empty pieces of [t.split(/\s+/)].  Every caller either filters
    the empty pieces out or rejects them by a length test. *)
Fixpoint words (t : jstring) : list jstring :=
  match t with
  | [] => []
  | c :: t' =>
      if isSpace c then words t'
      else match t' with
           | [] => [[c]]
           | c' :: _ =>
               if isSpace c' then [c] :: words t'
               else match words t' with
                    | [] => [[c]]
                    | w :: ws => (c :: w) :: ws
                    end
           end
  end.

(** [ws.join(sep)] *)
Fixpoint join (sep : jstring) (ws : list jstring) : jstring :=
  match ws with
  | [] => []
  | [w] => w
  | w :: ws' => w ++ sep ++ join sep ws'
  end.

(** [t.replace(/\s+/g, ' ')]: every maximal run of white space becomes one
    space (the space is written when the last character of the run is read). *)
Fixpoint collapseSpaces (t : jstring) : jstring :=
  match t with
  | [] => []
  | c :: t' =>
      if isSpace c then
        match t' with
        | [] => [" "%char]
        | c' :: _ => if isSpace c' then collapseSpaces t'
                     else " "%char :: collapseSpaces t'
        end
      else c :: collapseSpaces t'
  end.

(** [t.replace(/[^\w\s]/g, ' ')] *)
Definition blankPunctuation (t : jstring) : jstring :=
  map (fun c => if isWord c || isSpace c then c else " "%char) t.

(** [t.replace(/[^\w]/g, '')] *)
Definition keepWordChars (t : jstring) : jstring := filter isWord t.

(** A character the normalizer leaves in place: a lower-case word character
    or the space. *)
Definition kept (c : ascii) : bool :=
  (isWord c && negb (isUpper c)) || eqc c " "%char.

(** The same, before white space is collapsed. *)
Definition keptOrSpace (c : ascii) : bool :=
  (isWord c && negb (isUpper c)) || isSpace c.

(** No two white-space characters follow each other. *)
Fixpoint single (s : jstring) : bool :=
  match s with
  | c :: s' =>
      match s' with
      | c' :: _ => negb (isSpace c && isSpace c') && single s'
      | [] => true
      end
  | [] => true
  end.

(** A string that does not start with white space. *)
Definition noLeadingSpace (s : jstring) : bool :=
  match s with c :: _ => negb (isSpace c) | [] => true end.

(** [ws.includes(w)] on an array of strings. *)
Definition member (w : jstring) (ws : list jstring) : bool := existsb (eqt w) ws.

End JS.

(* ===================================================================== *)
(** * Text normalizer *)
(* ===================================================================== *)

(** [normalizeTextForMatching] *)
Definition normalizeTextForMatching (t : jstring) : jstring :=
  JS.trim (JS.collapseSpaces (JS.blankPunctuation (JS.toLowerCase t))).


(* ===================================================================== *)
(** * Regular expressions *)
(* ===================================================================== *)

Module Regex.

(** Members of a character class. *)
Inductive cset :=
| CNone
| CDot                       (* [.]: any character but a line terminator *)
| CSpace                     (* [\s] *)
| CWord                      (* [\w] *)
| CDigit                     (* [\d] *)
| CChar (c : ascii)
| CRange (lo hi : ascii)
| CUnion (a b : cset).

Inductive regex :=
| RFail
| REmpty
| RLit (s : jstring)                                   (* literal characters *)
| RSet (neg : bool) (s : cset)                      (* one character of a class *)
| RSeq (a b : regex)
| RAlt (a b : regex)
| RRep (greedy : bool) (lo : nat) (hi : option nat) (r : regex)
| RGroup (n : nat) (r : regex)                      (* n-th capture group *)
| RWordB                                            (* [\b] *)
| RBol                                              (* [^] *)
| REol.                                             (* [$] *)

(** ** Parser of the pattern syntax *)

Definition classEscape (c : ascii) : cset :=
  match c with
  | "s"%char => CSpace
  | "w"%char => CWord
  | "d"%char => CDigit
  | "n"%char => CChar "010"%char
  | "r"%char => CChar "013"%char
  | "t"%char => CChar "009"%char
  | _ => CChar c
  end.

Definition atomEscape (c : ascii) : regex :=
  match c with
  | "s"%char => RSet false CSpace
  | "S"%char => RSet true CSpace
  | "w"%char => RSet false CWord
  | "W"%char => RSet true CWord
  | "d"%char => RSet false CDigit
  | "D"%char => RSet true CDigit
  | "n"%char => RLit ["010"%char]
  | "r"%char => RLit ["013"%char]
  | "t"%char => RLit ["009"%char]
  | _ => RLit [c]
  end.

(** The members of a class, up to the closing bracket. *)
Fixpoint pClassItems (s : jstring) (acc : cset) : option (cset * jstring) :=
  match s with
  | [] => None
  | "]"%char :: s' => Some (acc, s')
  | "\"%char :: c :: s' => pClassItems s' (CUnion acc (classEscape c))
  | "\"%char :: [] => None
  | c :: s1 =>
      match s1 with
      | "-"%char :: d :: s' =>
          if JS.eqc d "]"%char
          then Some (CUnion acc (CUnion (CChar c) (CChar "-"%char)), s')
          else pClassItems s' (CUnion acc (CRange c d))
      | _ => pClassItems s1 (CUnion acc (CChar c))
      end
  end.

Definition pClass (s : jstring) : option (bool * cset * jstring) :=
  match s with
  | "^"%char :: s' =>
      match pClassItems s' CNone with
      | Some (cs, r) => Some (true, cs, r)
      | None => None
      end
  | _ =>
      match pClassItems s CNone with
      | Some (cs, r) => Some (false, cs, r)
      | None => None
      end
  end.

Fixpoint pNumber (s : jstring) (acc : option nat) : option nat * jstring :=
  match s with
  | c :: s' =>
      if JS.isDigit c
      then pNumber s' (Some (10 * match acc with Some a => a | None => 0 end
                             + (JS.code c - 48)))
      else (acc, s)
  | [] => (acc, s)
  end.

Definition pLazy (lo : nat) (hi : option nat) (r : regex) (s : jstring)
  : regex * jstring :=
  match s with
  | "?"%char :: s' => (RRep false lo hi r, s')
  | _ => (RRep true lo hi r, s)
  end.

(** The quantifier that may follow an atom. *)
Definition pQuant (r : regex) (s : jstring) : option (regex * jstring) :=
  match s with
  | "*"%char :: s' => Some (pLazy 0 None r s')
  | "+"%char :: s' => Some (pLazy 1 None r s')
  | "?"%char :: s' => Some (pLazy 0 (Some 1) r s')
  | "{"%char :: s' =>
      match pNumber s' None with
      | (Some lo, "}"%char :: s2) => Some (pLazy lo (Some lo) r s2)
      | (Some lo, ","%char :: s2) =>
          match pNumber s2 None with
          | (hi, "}"%char :: s3) => Some (pLazy lo hi r s3)
          | _ => None
          end
      | _ => None
      end
  | _ => Some (r, s)
  end.

(** Sequencing; neighbouring literals are kept as one literal. *)
Definition mkSeq (a b : regex) : regex :=
  match a, b with
  | _, REmpty => a
  | RLit x, RLit y => RLit (x ++ y)
  | RLit x, RSeq (RLit y) c => RSeq (RLit (x ++ y)) c
  | _, _ => RSeq a b
  end.

Definition withQuant (n : nat) (r : regex) (s : jstring)
  : option (regex * jstring * nat) :=
  match pQuant r s with
  | Some (r', s') => Some (r', s', n)
  | None => None
  end.

(** Disjunction, alternative and term of the pattern grammar; [n] is the
    number of capture groups opened so far. *)
Fixpoint pDisj (fuel : nat) (s : jstring) (n : nat) {struct fuel}
  : option (regex * jstring * nat) :=
  match fuel with
  | 0 => None
  | S f =>
      match pSeq f s n with
      | Some (a, "|"%char :: s', n') =>
          match pDisj f s' n' with
          | Some (b, s2, n2) => Some (RAlt a b, s2, n2)
          | None => None
          end
      | other => other
      end
  end
with pSeq (fuel : nat) (s : jstring) (n : nat) {struct fuel}
  : option (regex * jstring * nat) :=
  match fuel with
  | 0 => None
  | S f =>
      match s with
      | [] => Some (REmpty, s, n)
      | "|"%char :: _ => Some (REmpty, s, n)
      | ")"%char :: _ => Some (REmpty, s, n)
      | _ =>
          match pTerm f s n with
          | Some (a, s', n') =>
              match pSeq f s' n' with
              | Some (b, s2, n2) => Some (mkSeq a b, s2, n2)
              | None => None
              end
          | None => None
          end
      end
  end
with pTerm (fuel : nat) (s : jstring) (n : nat) {struct fuel}
  : option (regex * jstring * nat) :=
  match fuel with
  | 0 => None
  | S f =>
      match s with
      | [] => None
      | "^"%char :: s' => Some (RBol, s', n)
      | "$"%char :: s' => Some (REol, s', n)
      | "\"%char :: "b"%char :: s' => Some (RWordB, s', n)
      | "\"%char :: c :: s' => withQuant n (atomEscape c) s'
      | "\"%char :: [] => None
      | "."%char :: s' => withQuant n (RSet false CDot) s'
      | "["%char :: s' =>
          match pClass s' with
          | Some (neg, cs, s2) => withQuant n (RSet neg cs) s2
          | None => None
          end
      | "("%char :: "?"%char :: ":"%char :: s' =>
          match pDisj f s' n with
          | Some (r, ")"%char :: s2, n') => withQuant n' r s2
          | _ => None
          end
      | "("%char :: s' =>
          match pDisj f s' (S n) with
          | Some (r, ")"%char :: s2, n') => withQuant n' (RGroup (S n) r) s2
          | _ => None
          end
      | c :: s' => withQuant n (RLit [c]) s'
      end
  end.

(** The pattern as a whole; [None] when it is not well formed. *)
Definition parse (p : jstring) : option regex :=
  match pDisj (2 * length p + 2) p 0 with
  | Some (r, [], _) => Some r
  | _ => None
  end.

(** A [RegExp] object: the parsed pattern and the flags [i] and [m]. *)
Record RegExp := {
  node : regex;
  ignoreCase : bool;
  multiline : bool
}.

(** [new RegExp(p, flags)].  The patterns of this program are well formed;
    a pattern that is not matches nothing. *)
Definition RegExpNew (p : jstring) (i m : bool) : RegExp :=
  {| node := match parse p with Some r => r | None => RFail end;
     ignoreCase := i; multiline := m |}.

(** The literals [/p/], [/p/i] and [/p/im]. *)
Definition rx (p : string) : RegExp := RegExpNew (str p) false false.
Definition rxi (p : string) : RegExp := RegExpNew (str p) true false.
Definition rxim (p : string) : RegExp := RegExpNew (str p) true true.

(** [s.replace(/[.*+?^${}()|[\]\\]/g, '\\$&')] *)
Definition isSpecial (c : ascii) : bool :=
  JS.member [c] (map (fun x => [x]) (str ".*+?^${}()|[]\")).

Definition escapeRegExp (t : jstring) : jstring :=
  flat_map (fun c => if isSpecial c then ["\"%char; c] else [c]) t.

(** ** Matcher *)

Record mstate := {
  pos : nat;                       (* index of the next character *)
  prev : option ascii;             (* the character before it *)
  rest : jstring;                     (* the characters from [pos] on *)
  caps : list (nat * (nat * nat))  (* capture groups: number, start, end *)
}.

Definition advance (st : mstate) (c : ascii) (t : jstring) : mstate :=
  {| pos := S (pos st); prev := Some c; rest := t; caps := caps st |}.

Definition setCap (n a b : nat) (st : mstate) : mstate :=
  {| pos := pos st; prev := prev st; rest := rest st;
     caps := (n, (a, b)) :: caps st |}.

Fixpoint inBase (s : cset) (c : ascii) : bool :=
  match s with
  | CNone => false
  | CDot => negb (JS.isLineTerminator c)
  | CSpace => JS.isSpace c
  | CWord => JS.isWord c
  | CDigit => JS.isDigit c
  | CChar d => JS.eqc c d
  | CRange lo hi => JS.between (JS.code lo) (JS.code hi) c
  | CUnion a b => inBase a c || inBase b c
  end.

Definition inSet (ic : bool) (s : cset) (c : ascii) : bool :=
  inBase s c || (ic && (inBase s (JS.toLower c) || inBase s (JS.toUpper c))).

Definition sameChar (ic : bool) (a b : ascii) : bool :=
  if ic then JS.eqc (JS.toLower a) (JS.toLower b) else JS.eqc a b.

Fixpoint eatLit (ic : bool) (l : jstring) (st : mstate) : option mstate :=
  match l with
  | [] => Some st
  | a :: l' =>
      match rest st with
      | c :: t => if sameChar ic a c then eatLit ic l' (advance st c t) else None
      | [] => None
      end
  end.

Definition isWordOpt (o : option ascii) : bool :=
  match o with Some c => JS.isWord c | None => false end.

Definition atWordBoundary (st : mstate) : bool :=
  xorb (isWordOpt (prev st)) (isWordOpt (hd_error (rest st))).

Definition atBol (ml : bool) (st : mstate) : bool :=
  match prev st with
  | None => true
  | Some c => ml && JS.isLineTerminator c
  end.

Definition atEol (ml : bool) (st : mstate) : bool :=
  match rest st with
  | [] => true
  | c :: _ => ml && JS.isLineTerminator c
  end.

Definition K := mstate -> option mstate.
Definition step := mstate -> K -> option mstate.

(** [n] mandatory iterations. *)
Fixpoint times (f : step) (n : nat) (st : mstate) (k : K) : option mstate :=
  match n with
  | 0 => k st
  | S n' => f st (fun st' => times f n' st' k)
  end.

(** At most [fuel] further iterations; an iteration that consumes nothing is
    rejected, as in JavaScript. *)
Fixpoint upto (greedy : bool) (f : step) (fuel : nat) (st : mstate) (k : K)
  : option mstate :=
  match fuel with
  | 0 => k st
  | S fuel' =>
      if greedy then
        match f st (fun st' =>
                      if length (rest st') <? length (rest st)
                      then upto greedy f fuel' st' k else None) with
        | Some r => Some r
        | None => k st
        end
      else
        match k st with
        | Some r => Some r
        | None =>
            f st (fun st' =>
                    if length (rest st') <? length (rest st)
                    then upto greedy f fuel' st' k else None)
        end
  end.

Section Run.
Variables ic ml : bool.

(** Backtracking matcher in continuation-passing style: [run r st k] is the
    first success, in the priority order of JavaScript, of [r] at [st]
    followed by [k]. *)
Fixpoint run (r : regex) (st : mstate) (k : K) {struct r} : option mstate :=
  match r with
  | RFail => None
  | REmpty => k st
  | RLit l =>
      match eatLit ic l st with
      | Some st' => k st'
      | None => None
      end
  | RSet neg s =>
      match rest st with
      | c :: t => if xorb neg (inSet ic s c) then k (advance st c t) else None
      | [] => None
      end
  | RSeq a b => run a st (fun st' => run b st' k)
  | RAlt a b =>
      match run a st k with
      | Some x => Some x
      | None => run b st k
      end
  | RRep g lo hi r' =>
      times (run r') lo st
        (fun st1 =>
           upto g (run r')
             (match hi with Some h => h - lo | None => length (rest st1) end)
             st1 k)
  | RGroup n r' => run r' st (fun st' => k (setCap n (pos st) (pos st') st'))
  | RWordB => if atWordBoundary st then k st else None
  | RBol => if atBol ml st then k st else None
  | REol => if atEol ml st then k st else None
  end.

(** The leftmost match at or after the current position. *)
Fixpoint searchFrom (r : regex) (p : nat) (pv : option ascii) (t : jstring)
  : option (nat * mstate) :=
  match run r {| pos := p; prev := pv; rest := t; caps := [] |} Some with
  | Some st => Some (p, st)
  | None =>
      match t with
      | [] => None
      | c :: t' => searchFrom r (S p) (Some c) t'
      end
  end.

End Run.

(** The result of [re.exec(t)] / [t.match(re)]. *)
Record rmatch := {
  index : nat;                       (* start of the match *)
  lastIndex : nat;                   (* end of the match *)
  groups : list (nat * (nat * nat))
}.

Definition exec (re : RegExp) (t : jstring) : option rmatch :=
  match searchFrom (ignoreCase re) (multiline re) (node re) 0 None t with
  | Some (i, st) => Some {| index := i; lastIndex := pos st; groups := caps st |}
  | None => None
  end.

(** [re.test(t)] *)
Definition test (re : RegExp) (t : jstring) : bool :=
  match exec re t with Some _ => true | None => false end.

(** [t.search(re)] *)
Definition search (re : RegExp) (t : jstring) : option nat :=
  option_map index (exec re t).

(** [m[0]] *)
Definition matched (m : rmatch) (t : jstring) : jstring :=
  JS.substring (index m) (lastIndex m) t.

Fixpoint lookupCap (n : nat) (l : list (nat * (nat * nat)))
  : option (nat * nat) :=
  match l with
  | [] => None
  | (k, ab) :: l' => if k =? n then Some ab else lookupCap n l'
  end.

(** [m[n]], [None] when the group took no part in the match. *)
Definition group (n : nat) (m : rmatch) (t : jstring) : option jstring :=
  match lookupCap n (groups m) with
  | Some (a, b) => Some (JS.substring a b t)
  | None => None
  end.

(** [t.replace(re, by)] for a regular expression without the [g] flag. *)
Definition replace (re : RegExp) (by_ : jstring) (t : jstring) : jstring :=
  match exec re t with
  | Some m => firstn (index m) t ++ by_ ++ skipn (lastIndex m) t
  | None => t
  end.

(** [res.some(re => re.test(t))] *)
Definition anyTest (res : list RegExp) (t : jstring) : bool :=
  existsb (fun re => test re t) res.

(** [later st st']: the matcher has moved from [st] to [st'], reading a
    prefix of what was left. *)
Definition later (st st' : mstate) : Prop :=
  exists pre, rest st = pre ++ rest st'.

(** A step that only succeeds through its continuation, at a later state. *)
Definition forward (f : step) : Prop :=
  forall st k res, f st k = Some res ->
  exists st', later st st' /\ k st' = Some res.

(** [requires w r]: every match of [r] reads the lower-case word [w],
    whatever the case of its letters in the text. *)
Fixpoint requires (w : jstring) (r : regex) : bool :=
  match r with
  | RFail => true
  | RLit l => JS.includes (JS.toLowerCase l) w
  | RSeq a b => requires w a || requires w b
  | RAlt a b => requires w a && requires w b
  | RRep _ lo _ r' => (0 <? lo) && requires w r'
  | RGroup _ r' => requires w r'
  | _ => false
  end.

End Regex.

Import Regex.


(* ===================================================================== *)
(** * Arrays and numbers *)
(* ===================================================================== *)

(** [Array.prototype.sort] is stable.  [before x y] says that the comparator
    does not order [y] strictly before [x]. *)
Section Sort.
Variable A : Type.
Variable before : A -> A -> bool.

Fixpoint insertSorted (x : A) (l : list A) : list A :=
  match l with
  | [] => [x]
  | y :: l' => if before x y then x :: l else y :: insertSorted x l'
  end.

Definition sortBy (l : list A) : list A := fold_right insertSorted [] l.

(** The head of the list is put before every later element, and so on. *)
Fixpoint headFirst (l : list A) : Prop :=
  match l with
  | [] => True
  | x :: l' => (forall y, In y l' -> before x y = true) /\ headFirst l'
  end.

End Sort.

(** [a.slice(i, j)] *)
Definition slice (A : Type) (i j : nat) (l : list A) : list A :=
  firstn (j - i) (skipn i l).

Definition Qlt_bool (a b : Q) : bool := negb (Qle_bool b a).

(** The quotient of two array lengths or indexes. *)
Definition ratio (a b : nat) : Q :=
  (inject_Z (Z.of_nat a) / inject_Z (Z.of_nat b))%Q.

(** [Math.round(x)] *)
Definition mathRound (x : Q) : Z := Qfloor (x + (1 # 2))%Q.

(** [Math.max(1, Math.ceil(n * 0.15))] *)
Definition ceil15 (n : nat) : nat :=
  Nat.max 1 (Z.to_nat (Qceiling (inject_Z (Z.of_nat n) * (15 # 100))%Q)).

(* ===================================================================== *)
(** * The vector store ([utils/vectorStore.ts]) *)
(* ===================================================================== *)

Record DocumentChunk := {
  text : jstring;
  sourceFile : jstring;
  chunkIndex : nat;
  startIndex : nat;
  endIndex : nat;
  fileSize : option nat
}.

(** ** The chunker ([utils/documentProcessor.ts]) *)

Definition CHUNK_SIZE : nat := 1000.
Definition CHUNK_OVERLAP : nat := 200.

(** The loop of [chunkText]; [fuel] is what is left of [maxChunks]. *)
Fixpoint chunkLoop (fuel : nat) (t file : jstring) (size : option nat)
  (start index : nat) : list DocumentChunk :=
  match fuel with
  | 0 => []
  | S fuel' =>
      if start <? length t then
        let stop := Nat.min (start + CHUNK_SIZE) (length t) in
        let nextStart := stop - CHUNK_OVERLAP in
        {| text := JS.substring start stop t;
           sourceFile := file;
           chunkIndex := index;
           startIndex := start;
           endIndex := stop;
           fileSize := size |}
        :: chunkLoop fuel' t file size
             (if nextStart <=? start then stop else nextStart) (S index)
      else []
  end.

(** The safety limit of 10000 chunks. *)
Definition maxChunks : nat := 100 * 100.

(** [chunkText(text, sourceFile, fileSize)] *)
Definition chunkText (t file : jstring) (size : option nat)
  : list DocumentChunk :=
  chunkLoop maxChunks t file size 0 0.

Module VectorStore.

Import PrimFloat.
#[local] Open Scope float_scope.

(** The loop of [cosineSimilarity]: the three running sums. *)
Fixpoint sums (vecA vecB : list float) (acc : float * float * float)
  : float * float * float :=
  match vecA, vecB with
  | a :: vecA', b :: vecB' =>
      let '(dotProduct, normA, normB) := acc in
      sums vecA' vecB' (dotProduct + a * b, normA + a * a, normB + b * b)
  | _, _ => acc
  end.

(** [VectorStore.cosineSimilarity]; [None] is the thrown
    ['Vectors must have the same length'].  [=?] is the equality of
    numbers: NaN is equal to nothing, and -0 is equal to 0. *)
Definition cosineSimilarity (vecA vecB : list float) : option float :=
  if negb (length vecA =? length vecB)%nat then None
  else
    let '(dotProduct, normA, normB) := sums vecA vecB (0, 0, 0) in
    let denominator := sqrt normA * sqrt normB in
    Some (if denominator =? 0 then 0 else dotProduct / denominator).

End VectorStore.

(** A stored vector; the pipeline computes with rational numbers. *)
Record DocumentVector := {
  chunk : DocumentChunk;
  embedding : list Q
}.

(* ===================================================================== *)
(** * The search route ([routes/search.ts]) *)
(* ===================================================================== *)

(** The collaborators of the handler. *)
Record Env := {
  (** [getEmbedding(query)]; [None] when the provider fails. *)
  getEmbedding : jstring -> option (list Q);
  (** [vectorStore.calculateSimilarity]; [None] when it throws. *)
  calculateSimilarity : list Q -> list Q -> option Q;
  (** [a.localeCompare(b)] *)
  localeCompare : jstring -> jstring -> comparison;
  (** The snippet extractors of Step 10. *)
  extractFocusedSnippet : jstring -> list jstring -> jstring;
  extractSnippetFromPhraseIndex : jstring -> nat -> jstring -> jstring
}.

(** The JSON body of a reply. *)
Record SearchResponse := {
  answer : jstring;
  source : jstring;
  confidence : Q;
  explanation : option jstring
}.

Inductive HttpResult :=
| Json (r : SearchResponse)        (* res.json(...) *)
| BadRequest                       (* res.status(400) *)
| ServerError.                     (* res.status(500), from the catch block *)

(** A stage of the handler either replies at once or hands its result on. *)
Inductive Flow (A : Type) :=
| Reply (r : HttpResult)
| Next (a : A).
Arguments Reply {A} r.
Arguments Next {A} a.

Definition bind (A B : Type) (m : Flow A) (f : A -> Flow B) : Flow B :=
  match m with
  | Reply r => Reply r
  | Next a => f a
  end.

Notation "x <- m ;; f" := (bind m (fun x => f))
  (at level 61, m at next level, right associativity).

Module Search.

Definition q (n : Z) (d : positive) : Q := Qmake n d.

Definition truthy (s : jstring) : option jstring :=
  match s with [] => None | _ => Some s end.

(** A [Map] from document name to its vectors, in insertion order. *)
Definition DocGroups := list (jstring * list DocumentVector).

Fixpoint addToGroup (v : DocumentVector) (g : DocGroups) : DocGroups :=
  match g with
  | [] => [(sourceFile (chunk v), [v])]
  | (name, vs) :: g' =>
      if JS.eqt name (sourceFile (chunk v)) then (name, vs ++ [v]) :: g'
      else (name, vs) :: addToGroup v g'
  end.

Definition groupByDocument (vs : list DocumentVector) : DocGroups :=
  fold_left (fun g v => addToGroup v g) vs [].

Fixpoint getGroup (name : jstring) (g : DocGroups) : list DocumentVector :=
  match g with
  | [] => []
  | (k, vs) :: g' => if JS.eqt k name then vs else getGroup name g'
  end.

(** [[...docVectors].sort((a, b) => a.chunk.chunkIndex - b.chunk.chunkIndex)] *)
Definition sortByChunkIndex (vs : list DocumentVector) : list DocumentVector :=
  sortBy (fun a b => chunkIndex (chunk a) <=? chunkIndex (chunk b)) vs.

(** [new RegExp(`\\b${escape(e)}\\b`, 'i')] *)
Definition wordPattern (e : jstring) : RegExp :=
  RegExpNew (str "\b" ++ escapeRegExp e ++ str "\b") true false.

(** ** Step 2.5: strict document-level filter of comparison queries *)

Definition comparisonKeywordsEarly : list RegExp :=
  [ rxi "\bdifference\b"; rxi "\bvs\.?\b"; rxi "\bversus\b";
    rxi "\bcompare\b"; rxi "\bcomparison\b" ].

Definition isComparisonQueryEarly (query : jstring) : bool :=
  anyTest comparisonKeywordsEarly query.

Definition stopWordsEarly : list jstring :=
  map str
    [ "what"; "how"; "does"; "do"; "is"; "are"; "the"; "a"; "an"; "and"; "or";
      "but"; "in"; "on"; "at"; "to"; "for"; "of"; "with"; "by"; "from"; "as";
      "use"; "uses"; "using"; "used"; "data"; "ai"; "artificial";
      "intelligence"; "machine"; "learning"; "difference"; "between";
      "compare"; "comparison"; "vs"; "versus"; "different"; "platforms";
      "agentic" ]%string.

(** [w[0] === w[0].toUpperCase()] *)
Definition firstIsItsUpper (w : jstring) : bool :=
  match w with c :: _ => JS.eqc c (JS.toUpper c) | [] => false end.

(** [w[0] !== w[0].toLowerCase()] *)
Definition firstIsNotItsLower (w : jstring) : bool :=
  match w with c :: _ => negb (JS.eqc c (JS.toLower c)) | [] => false end.

(** The first capitalized token that is not a stop word. *)
Definition firstCapitalized (stopWords : list jstring) (queryText : jstring)
  : option jstring :=
  find (fun cleanWord =>
          (2 <? length cleanWord) && firstIsItsUpper cleanWord &&
          firstIsNotItsLower cleanWord &&
          negb (JS.member (JS.toLowerCase cleanWord) stopWords))
       (map JS.keepWordChars (JS.words queryText)).

Definition extractEntityEarly (queryText : jstring) : option jstring :=
  firstCapitalized stopWordsEarly queryText.

Definition isDefinitionQueryEarly (query : jstring) : bool :=
  test (rxi "^what\s+is\b") (JS.trim query) ||
  test (rxi "^define\b") (JS.trim query).

(** The documents one of whose chunks mentions the entity. *)
Definition eligibleDocs (entity : jstring) (allVectors : list DocumentVector)
  : list jstring :=
  map fst
    (filter (fun g => existsb (fun v => test (wordPattern entity) (text (chunk v)))
                        (snd g))
            (groupByDocument allVectors)).

Definition strictDocumentFilter (entity : jstring)
  (allVectors : list DocumentVector) : list DocumentVector :=
  filter (fun v => JS.member (sourceFile (chunk v)) (eligibleDocs entity allVectors))
         allVectors.

(** ** Step 2.6: section-aware retrieval of comparison queries *)

Definition comparisonSectionKeywords : list RegExp :=
  [ rxi "\bdifference\b"; rxi "\bcompare\b"; rxi "\bcomparison\b";
    rxi "\bvs\.?\b"; rxi "\bversus\b" ].

(** The title of a line that is a section header: a numbered section, or a
    line of 2 to 15 words at least half of them capitalized. *)
Definition sectionTitle (trimmedLine : jstring) : option jstring :=
  match exec (rx "^(\d+\.[\d.]*)\s+(.+)$") trimmedLine with
  | Some numberedMatch => group 2 numberedMatch trimmedLine
  | None =>
      let words := JS.words trimmedLine in
      let capitalizedWords :=
        filter (fun w => firstIsItsUpper w && firstIsNotItsLower w) words in
      if (2 <=? length words) && (length words <=? 15) &&
         (length words <=? 2 * length capitalizedWords)
      then Some trimmedLine else None
  end.

(** One line of a chunk: the flags [currentSectionIsMatch] and
    [foundMatchingSection] after it. *)
Definition scanLine (entity : jstring) (st : bool * bool) (line : jstring)
  : bool * bool :=
  let '(currentSectionIsMatch, foundMatchingSection) := st in
  let trimmedLine := JS.trim line in
  if (length trimmedLine =? 0) || (120 <? length trimmedLine) then st
  else
    match sectionTitle trimmedLine with
    | Some title =>
        if test (wordPattern entity) title && anyTest comparisonSectionKeywords title
        then (true, true)
        else (false, foundMatchingSection)
    | None => st
    end.

(** The chunks of one document, in index order. *)
Fixpoint scanChunks (entity : jstring) (sortedChunks : list DocumentVector)
  (st : bool * bool) (acc : list DocumentVector)
  : bool * list DocumentVector :=
  match sortedChunks with
  | [] => (snd st, acc)
  | c :: cs =>
      let st' := fold_left (scanLine entity) (JS.splitOn "010"%char (text (chunk c))) st in
      scanChunks entity cs st' (if fst st' then acc ++ [c] else acc)
  end.

Fixpoint scanDocuments (entity : jstring) (docs : DocGroups)
  (found : bool) (acc : list DocumentVector) : bool * list DocumentVector :=
  match docs with
  | [] => (found, acc)
  | (_, docVectors) :: docs' =>
      let '(found', acc') :=
        scanChunks entity (sortByChunkIndex docVectors) (false, found) acc in
      scanDocuments entity docs' found' acc'
  end.

Definition sectionAwareRetrieval (entity : jstring)
  (allVectors : list DocumentVector) : list DocumentVector :=
  let '(foundMatchingSection, matchingSectionChunks) :=
    scanDocuments entity (groupByDocument allVectors) false [] in
  if foundMatchingSection && (0 <? length matchingSectionChunks)
  then matchingSectionChunks else allVectors.

(** ** Step 2.7: comparison sections and chunk categories *)

Definition celonis : RegExp := rxi "\bcelonis\b".

(** [entity1Pattern] *)
Definition entity1Pattern (earlyEntity : option jstring) : RegExp :=
  match earlyEntity with
  | Some e => wordPattern e
  | None => celonis
  end.

Definition comparisonSectionHeaderPattern : RegExp :=
  rxi "\b(difference|compare|comparison|vs\.?|versus)\b".

Definition anySectionHeaderPattern : RegExp := rx "^\d+\.\s+".

Definition overviewScopePatterns : list RegExp :=
  [ rxi "\bprovides\s+a\s+detailed\s+understanding\b";
    rxi "\bcovers\s+its\s+purpose\b";
    rxi "\bthis\s+document\s+provides\b";
    rxi "\bplatform\s+overview\b";
    rxi "\bthis\s+document\s+covers\b";
    rxi "\bthis\s+document\s+explains\b";
    rxi "\boverview\s+of\s+";
    rxi "\bintroduction\s+to\s+";
    rxi "\bcovering\s+(its|the)\s+";
    rxi "\bdetailed\s+understanding\s+of\b" ].

Definition topicListingPatterns : list RegExp :=
  [ rxi "purpose.*architecture.*ai.*differentiation";
    rxi "covering.*purpose.*architecture";
    rxi "\bpurpose\b.*\barchitecture\b.*\bai\b" ].

Definition isOverviewOrScope (t : jstring) : bool :=
  if anyTest overviewScopePatterns t then true
  else if anyTest topicListingPatterns t then true
  else false.

Definition hasComparisonSectionHeader (t : jstring) : bool :=
  existsb (fun line =>
             let trimmed := JS.trim line in
             test anySectionHeaderPattern trimmed &&
             test comparisonSectionHeaderPattern trimmed)
          (JS.splitOn "010"%char t).

(** Only the first non-empty line is looked at. *)
Definition startsWithNewSectionHeader (t : jstring) : bool :=
  match find (fun trimmed => 0 <? length trimmed)
             (map JS.trim (JS.splitOn "010"%char t)) with
  | Some trimmed =>
      test anySectionHeaderPattern trimmed &&
      negb (test comparisonSectionHeaderPattern trimmed)
  | None => false
  end.

(** The index of the first element that satisfies [f]. *)
Fixpoint findIndex (A : Type) (f : A -> bool) (l : list A) : option nat :=
  match l with
  | [] => None
  | x :: l' => if f x then Some 0 else option_map S (findIndex f l')
  end.

(** [comparisonSectionStartIndex] and [comparisonSectionEndIndex] of a
    document; [None] for the initial -1. *)
Definition comparisonSectionRange (sortedChunks : list DocumentVector)
  : option (nat * nat) :=
  match findIndex (fun c => hasComparisonSectionHeader (text (chunk c)))
                  sortedChunks with
  | Some i =>
      match findIndex (fun c => startsWithNewSectionHeader (text (chunk c)))
                      (skipn (S i) sortedChunks) with
      | Some d => Some (i, S i + d)
      | None => Some (i, length sortedChunks)
      end
  | None => None
  end.

Inductive Category :=
| InComparisonSection          (* valid, from the comparison section *)
| OtherValid                   (* valid, kept as fallback *)
| Excluded (reason : jstring).

(** The categorization of the chunk at position [i] of its sorted document. *)
Definition categorize (earlyEntity : option jstring)
  (range : option (nat * nat)) (i : nat) (vector : DocumentVector) : Category :=
  let chunkText := text (chunk vector) in
  let hasEntity1 := test (entity1Pattern earlyEntity) chunkText in
  let isFirstChunk := chunkIndex (chunk vector) =? 0 in
  let isOverviewChunk := isOverviewOrScope chunkText in
  let isInComparisonSection :=
    match range with
    | Some (s, e) => (s <=? i) && (i <? e)
    | None => false
    end in
  if isFirstChunk then Excluded (str "first chunk (intro/title)")
  else if isOverviewChunk && negb isInComparisonSection
  then Excluded (str "overview/scope summary (not in comparison section)")
  else if negb hasEntity1 && negb isInComparisonSection
  then Excluded (str "missing entity 1 (" ++
                 match earlyEntity with Some e => e | None => str "Celonis" end
                 ++ str ")")
  else if isInComparisonSection then InComparisonSection
  else if hasEntity1 then OtherValid
  else Excluded (str "not in comparison section and missing entity").

Fixpoint categorizeFrom (earlyEntity : option jstring)
  (range : option (nat * nat)) (i : nat) (l : list DocumentVector)
  : list (DocumentVector * Category) :=
  match l with
  | [] => []
  | v :: l' =>
      (v, categorize earlyEntity range i v)
        :: categorizeFrom earlyEntity range (S i) l'
  end.

Definition categorizeDocument (earlyEntity : option jstring)
  (docVectors : list DocumentVector) : list (DocumentVector * Category) :=
  let sortedChunks := sortByChunkIndex docVectors in
  categorizeFrom earlyEntity (comparisonSectionRange sortedChunks) 0 sortedChunks.

Definition categorizeAll (earlyEntity : option jstring)
  (allVectors : list DocumentVector) : list (DocumentVector * Category) :=
  flat_map (fun g => categorizeDocument earlyEntity (snd g))
           (groupByDocument allVectors).

Definition isInSection (c : Category) : bool :=
  match c with InComparisonSection => true | _ => false end.

Definition isOther (c : Category) : bool :=
  match c with OtherValid => true | _ => false end.

Definition comparisonSectionChunks (earlyEntity : option jstring)
  (allVectors : list DocumentVector) : list DocumentVector :=
  map fst (filter (fun vc => isInSection (snd vc))
                  (categorizeAll earlyEntity allVectors)).

Definition otherChunks (earlyEntity : option jstring)
  (allVectors : list DocumentVector) : list DocumentVector :=
  map fst (filter (fun vc => isOther (snd vc))
                  (categorizeAll earlyEntity allVectors)).

Definition noComparisonResponse : SearchResponse :=
  {| answer := str "No clear comparison found in the provided documents.";
     source := [];
     confidence := 0;
     explanation := None |}.

(** The gate of Steps 2.5 to 2.7:
    [isComparisonQueryEarly && !isDefinitionQueryEarly]. *)
Definition comparisonFiltersApply (query : jstring) : bool :=
  isComparisonQueryEarly query && negb (isDefinitionQueryEarly query).

(** Steps 2.5 to 2.7 on the contents of the store. *)
Definition comparisonFilters (query : jstring)
  (allVectors : list DocumentVector) : Flow (list DocumentVector) :=
  let earlyEntity := extractEntityEarly query in
  let allVectors1 :=
    match earlyEntity with
    | Some e =>
        if comparisonFiltersApply query
        then strictDocumentFilter e allVectors else allVectors
    | None => allVectors
    end in
  let allVectors2 :=
    match earlyEntity with
    | Some e =>
        if comparisonFiltersApply query && (0 <? length allVectors1)
        then sectionAwareRetrieval e allVectors1 else allVectors1
    | None => allVectors1
    end in
  if comparisonFiltersApply query && (0 <? length allVectors2) then
    match comparisonSectionChunks earlyEntity allVectors2,
          otherChunks earlyEntity allVectors2 with
    | (_ :: _) as section, _ => Next section
    | [], (_ :: _) as others => Next others
    | [], [] => Reply (Json noComparisonResponse)
    end
  else Next allVectors2.

(** ** Steps 3 to 3.7: the words and the intent of the query *)

(** [normalizedQuery.split(' ').filter(w => w.length > 0)] *)
Definition queryWordsOf (normalizedQuery : jstring) : list jstring :=
  filter (fun w => 0 <? length w) (JS.splitOn " "%char normalizedQuery).

(** [detectIntentKeywords] *)
Definition detectIntentKeywords (query normalizedQuery : jstring)
  : list jstring :=
  let queryLower := JS.toLowerCase query in
  let normalizedQueryLower := JS.toLowerCase normalizedQuery in
  (if test (rxi "\bdata\b") queryLower ||
      test (rxi "\bdata\b") normalizedQueryLower ||
      test (rxi "\buses?\s+data\b") queryLower ||
      test (rxi "\bdata\s+does\b") queryLower ||
      test (rxi "\bwhat\s+data\b") queryLower
   then [str "data"] else [])
  ++
  (if test (rxi "\bai\b") queryLower ||
      test (rxi "\bai\b") normalizedQueryLower ||
      test (rxi "\bartificial\s+intelligence\b") queryLower ||
      test (rxi "\bmachine\s+learning\b") queryLower ||
      test (rxi "\bml\b") queryLower ||
      test (rxi "\buses?\s+ai\b") queryLower ||
      test (rxi "\bhow\s+.*\s+uses?\s+ai\b") queryLower
   then [str "ai"; str "artificial intelligence"; str "machine learning"]
   else []).

Definition stopWordsEntity : list jstring :=
  map str
    [ "what"; "how"; "does"; "do"; "is"; "are"; "the"; "a"; "an"; "and"; "or";
      "but"; "in"; "on"; "at"; "to"; "for"; "of"; "with"; "by"; "from"; "as";
      "use"; "uses"; "using"; "used"; "data"; "ai"; "artificial";
      "intelligence"; "machine"; "learning" ]%string.

(** [extractPrimaryEntity]: the first capitalized token, then the first
    token whose first character is its own upper case. *)
Definition extractPrimaryEntity (query : jstring) : option jstring :=
  match firstCapitalized stopWordsEntity query with
  | Some w => Some w
  | None =>
      find (fun cleanWord =>
              (2 <? length cleanWord) && firstIsItsUpper cleanWord &&
              negb (JS.member (JS.toLowerCase cleanWord) stopWordsEntity))
           (map JS.keepWordChars (JS.words query))
  end.

Record DefinitionQuery := {
  isDefinition : bool;
  subject : option jstring
}.

(** The first capture of a match, trimmed; [None] when there is no match or
    the capture is empty. *)
Definition capturedSubject (re : RegExp) (query : jstring) : option jstring :=
  match exec re query with
  | Some m =>
      match group 1 m query with
      | Some g => truthy (JS.trim g)
      | None => None
      end
  | None => None
  end.

Definition skipWords : list jstring :=
  map str [ "what"; "is"; "define"; "a"; "an"; "the" ]%string.

(** [detectDefinitionQuery] *)
Definition detectDefinitionQuery (query normalizedQuery : jstring)
  (queryWords : list jstring) (primaryEntity : option jstring)
  : DefinitionQuery :=
  let queryLower := JS.trim (JS.toLowerCase query) in
  let normalizedQueryLower := JS.trim (JS.toLowerCase normalizedQuery) in
  if negb (test (rxi "^what\s+is\b") queryLower ||
           test (rxi "^define\b") queryLower ||
           test (rxi "^what\s+is\b") normalizedQueryLower ||
           test (rxi "^define\b") normalizedQueryLower)
  then {| isDefinition := false; subject := None |}
  else
    let subject1 := capturedSubject (rxi "^what\s+is\s+([^?]+)") query in
    let subject2 :=
      match subject1 with
      | Some s => Some s
      | None => capturedSubject (rxi "^define\s+([^:?]+)") query
      end in
    let subject3 :=
      match subject2 with
      | Some s => Some s
      | None => match primaryEntity with
                | Some e => truthy e
                | None => None
                end
      end in
    let subject4 :=
      match subject3 with
      | Some s =>
          let cleaned := JS.trim (replace (rxi "^(a|an|the)\s+") [] s) in
          if (length cleaned =? 0) && (2 <? length queryWords) then
            let remainingWords :=
              filter (fun w => negb (JS.member (JS.toLowerCase w) skipWords))
                     queryWords in
            if 0 <? length remainingWords
            then JS.join (str " ") remainingWords else cleaned
          else cleaned
      | None => []
      end in
    {| isDefinition := true; subject := truthy subject4 |}.

(** ** Step 5.5: document-level relevance filter *)

Definition mentionsEntity (primaryEntity : jstring) (t : jstring) : bool :=
  let entityLower := JS.toLowerCase primaryEntity in
  JS.includes (JS.toLowerCase t) entityLower ||
  test (wordPattern primaryEntity) t ||
  JS.includes (normalizeTextForMatching t) entityLower.

Definition isRelevantDocument (primaryEntity : jstring)
  (fileName : jstring) (documentChunks : list DocumentVector) : bool :=
  let entityLower := JS.toLowerCase primaryEntity in
  (* Check 1: the file name *)
  (JS.includes (JS.toLowerCase fileName) entityLower ||
   test (wordPattern primaryEntity) fileName)
  ||
  (* Check 2: the title chunk *)
  match find (fun v => chunkIndex (chunk v) =? 0) documentChunks with
  | Some titleChunk => mentionsEntity primaryEntity (text (chunk titleChunk))
  | None => false
  end
  ||
  (* Check 3: the first 15% of the chunks *)
  existsb (fun v => mentionsEntity primaryEntity (text (chunk v)))
          (firstn (ceil15 (length documentChunks)) documentChunks).

Definition relevantDocumentNames (primaryEntity : jstring)
  (chunksByDocument : DocGroups) : list jstring :=
  map fst (filter (fun g => isRelevantDocument primaryEntity (fst g) (snd g))
                  chunksByDocument).

Definition vectorsToSearchOf (primaryEntity : option jstring)
  (chunksByDocument : DocGroups) (allVectors : list DocumentVector)
  : list DocumentVector :=
  match primaryEntity with
  | Some e =>
      match truthy e with
      | Some _ =>
          let names := relevantDocumentNames e chunksByDocument in
          if 0 <? length names
          then filter (fun v => JS.member (sourceFile (chunk v)) names) allVectors
          else allVectors
      | None => allVectors
      end
  | None => allVectors
  end.

(** ** Step 6: candidate selection and scoring *)

(** What the handler knows about the query once Steps 1 to 3.7 are done. *)
Record QueryInfo := {
  query : jstring;
  normalizedQuery : jstring;
  queryWords : list jstring;
  intentKeywords : list jstring;
  primaryEntity : option jstring;
  definitionQuery : DefinitionQuery
}.

Record Candidate := {
  vector : DocumentVector;
  semanticSimilarity : Q;
  hasQueryKeywords : bool;
  keywordCoverage : Q;
  positionBonus : Q;
  explicitTermBonus : Q;
  definitionBonus : Q;
  comparisonBonus : Q;
  comparisonIntroPenalty : Q;
  finalScore : Q
}.

(** [w.replace(/s$/, '').replace(/es$/, '').replace(/ies$/, 'y')] *)
Definition stem (w : jstring) : jstring :=
  replace (rx "ies$") (str "y")
    (replace (rx "es$") [] (replace (rx "s$") [] w)).

(** One query word against the normalized text of a chunk: whole-word match,
    then stem match. *)
Definition wordFound (normalizedChunkText queryWord : jstring) : bool :=
  test (wordPattern queryWord) normalizedChunkText ||
  let wordStem := stem queryWord in
  existsb (fun chunkWord =>
             JS.eqt chunkWord queryWord ||
             (JS.eqt (stem chunkWord) wordStem && (3 <? length wordStem)))
          (JS.words normalizedChunkText).

Definition foundWords (qi : QueryInfo) (v : DocumentVector) : nat :=
  length (filter (wordFound (normalizeTextForMatching (text (chunk v))))
                 (queryWords qi)).

(** [chunk.chunkIndex / totalChunks], the total being the number of chunks
    of the document among [allVectors]. *)
Definition chunkPosition (chunksByDocument : DocGroups) (v : DocumentVector) : Q :=
  ratio (chunkIndex (chunk v))
        (length (getGroup (sourceFile (chunk v)) chunksByDocument)).

Definition introPatternsForPosition : list RegExp :=
  [ rxi "this\s+document\s+provides";
    rxi "detailed\s+understanding";
    rxi "covering\s+(its|the)";
    rxi "this\s+(document|guide|manual)\s+(provides|covers|explains)" ].

Definition positionBonusOf (qi : QueryInfo) (chunksByDocument : DocGroups)
  (v : DocumentVector) : Q :=
  let isIntroChunkForPosition :=
    anyTest introPatternsForPosition (text (chunk v)) in
  if chunkIndex (chunk v) =? 0 then
    if isDefinition (definitionQuery qi) && isIntroChunkForPosition
    then q 1 10 else q 5 10
  else if Qle_bool (chunkPosition chunksByDocument v) (q 15 100) then
    if isDefinition (definitionQuery qi) && isIntroChunkForPosition
    then q 5 100 else q 2 10
  else 0.

Definition explicitTermBonusOf (qi : QueryInfo) (v : DocumentVector) : Q :=
  let chunkTextLower := JS.toLowerCase (text (chunk v)) in
  let normalizedChunkTextLower :=
    JS.toLowerCase (normalizeTextForMatching (text (chunk v))) in
  if existsb
       (fun intentKeyword =>
          if JS.includes intentKeyword (str " ")
          then JS.includes chunkTextLower intentKeyword ||
               JS.includes normalizedChunkTextLower intentKeyword
          else test (wordPattern intentKeyword) chunkTextLower ||
               test (wordPattern intentKeyword) normalizedChunkTextLower)
       (intentKeywords qi)
  then q 3 10 else 0.

(** *** Definition bonus and penalty *)

Definition introPatterns : list RegExp :=
  [ rxi "this\s+document\s+provides";
    rxi "detailed\s+understanding";
    rxi "covering\s+(its|the)";
    rxi "this\s+(document|guide|manual)\s+(provides|covers|explains)";
    rxi "overview\s+of";
    rxi "^this\s+(document|guide|manual)" ].

Definition definitionPatterns (subject : jstring) : list RegExp :=
  let escapedSubject := escapeRegExp subject in
  let escapedSubjectLower := JS.toLowerCase escapedSubject in
  [ RegExpNew (str "\b" ++ escapedSubject ++ str "\s+is\s+(a|an|the)\s+") true false;
    RegExpNew (str "\b" ++ escapedSubject ++ str "\s+is\s+(a|an|the)\b") true false;
    RegExpNew (str "\b" ++ escapedSubject ++ str "[,\s-]+(a|an|the)\s+") true false;
    RegExpNew (escapedSubjectLower ++ str "\s+is\s+(a|an|the)\s+") true false ].

(** The bonus one definition pattern earns, [None] when the loop goes on to
    the next pattern. *)
Definition definitionBonusFor (chunkText : jstring) (position : Q)
  (pattern : RegExp) : option Q :=
  let chunkTextLower := JS.toLowerCase chunkText in
  if test pattern chunkText || test pattern chunkTextLower then
    match search pattern chunkTextLower with
    | Some matchIndex =>
        let beforeMatch := JS.trim (JS.substring 0 matchIndex chunkText) in
        let afterMatch :=
          JS.toLowerCase (firstn 100 (skipn matchIndex chunkText)) in
        let isQuestionOnly :=
          test (rxi "what\s+is\s+[^?]*\?$") beforeMatch &&
          (length afterMatch <? 30) in
        if negb isQuestionOnly && test pattern chunkText then
          let hasQuestion := test (rxi "what\s+is\s+[^?]*\?") chunkText in
          let base :=
            if Qle_bool position (q 30 100) then 1%Q
            else if Qle_bool position (q 70 100) then q 8 10
            else q 6 10 in
          Some (if hasQuestion then base + q 2 10 else base)%Q
        else None
    | None => None
    end
  else None.

Fixpoint firstBonus (chunkText : jstring) (position : Q)
  (patterns : list RegExp) : Q :=
  match patterns with
  | [] => 0
  | p :: ps =>
      match definitionBonusFor chunkText position p with
      | Some b => b
      | None => firstBonus chunkText position ps
      end
  end.

(** [definitionBonus] and [definitionPenalty] of a chunk. *)
Definition definitionTerms (qi : QueryInfo) (chunksByDocument : DocGroups)
  (v : DocumentVector) : Q * Q :=
  match isDefinition (definitionQuery qi), subject (definitionQuery qi) with
  | true, Some subject =>
      let position := chunkPosition chunksByDocument v in
      let chunkText := text (chunk v) in
      let chunkTextLower := JS.toLowerCase chunkText in
      let escapedSubjectLower := JS.toLowerCase (escapeRegExp subject) in
      let isIntroChunk := anyTest introPatterns chunkText in
      let hasDefinitionPattern :=
        test (RegExpNew (escapedSubjectLower ++ str "\s+is\s+(a|an|the)")
                        true false) chunkText in
      let penalty1 :=
        if isIntroChunk && negb hasDefinitionPattern then (-1)%Q else 0%Q in
      if Qle_bool position (q 30 100) || Qle_bool position (q 70 100) then
        let bonus := firstBonus chunkText position (definitionPatterns subject) in
        if Qeq_bool bonus 0 then
          let hasQuestion :=
            test (RegExpNew (str "what\s+is\s+" ++ escapedSubjectLower ++
                             str "[^?]*\?") true false) chunkText in
          let hasPattern :=
            existsb (fun p => test p chunkText || test p chunkTextLower)
                    (definitionPatterns subject) in
          let penalty2 :=
            if hasQuestion && negb hasPattern then q (-7) 10 else penalty1 in
          let penalty3 :=
            if isIntroChunk && hasQuestion && negb hasPattern
            then q (-15) 10 else penalty2 in
          (bonus, penalty3)
        else (bonus, penalty1)
      else (0%Q, penalty1)
  | _, _ => (0%Q, 0%Q)
  end.

(** *** Comparison bonus and penalties *)

Definition contrastLanguagePatterns : list RegExp :=
  [ rxi "\bwhile\b"; rxi "\bwhereas\b"; rxi "\bin\s+contrast\b";
    rxi "\bcompared\s+to\b"; rxi "\bunlike\b"; rxi "\brather\s+than\b";
    rxi "\bon\s+the\s+other\s+hand\b"; rxi "\bhowever\b"; rxi "\bbut\b";
    rxi "\binstead\s+of\b" ].

Definition dualFramingPatterns : list RegExp :=
  [ rxi "celonis\s+.*\s+(while|whereas|but)\s+.*\s+agentic";
    rxi "celonis\s+.*\s+(while|whereas|but)\s+.*\s+platform";
    rxi "what\s+should\s+.*\s+vs\.?\s+how\s+to";
    rxi "problem\s+.*\s+(while|whereas|vs\.?)\s+.*\s+(solution|execution|task)";
    rxi "discover.*\s+(while|whereas|vs\.?)\s+.*\s+execut";
    rxi "identify.*\s+(while|whereas|vs\.?)\s+.*\s+automat" ].

Definition explicitDualEntityPatterns : list RegExp :=
  [ rxi "celonis\s+.{5,80}\s+(while|whereas)\s+.{0,20}agentic\s+platform";
    rxi "celonis\s+(answers|focuses|discovers|finds|identifies).{5,60}(while|whereas).{0,30}agentic";
    rxi "agentic\s+platform.{5,60}(while|whereas).{0,30}celonis";
    rxi "celonis.{10,80}in\s+contrast.{0,30}agentic";
    rxi "unlike\s+agentic\s+platform.{0,30}celonis";
    rxi "discovers?\s+and\s+prioritiz.{0,30}(while|whereas).{0,30}automat";
    rxi "finds?\s+problems?.{0,30}(while|whereas).{0,30}execut";
    rxi "what\s+should\s+.{0,30}(while|whereas|vs\.?).{0,30}how\s+to";
    rxi "problem\s+discovery.{0,30}(while|whereas|vs\.?).{0,30}task\s+execution";
    rxi "prioritiz.{0,30}problem.{0,30}(while|whereas).{0,30}automat" ].

Definition isComparisonQueryForScoring (query : jstring) : bool :=
  anyTest [ rxi "\bdifference\b"; rxi "\bvs\.?\b"; rxi "\bversus\b";
            rxi "\bcompare\b"; rxi "\bcomparison\b" ] query.

Definition isDataQueryForComparison (query : jstring) : bool :=
  test (rxi "\bwhat\s+data\b") query || test (rxi "\bdata\s+does\b") query ||
  test (rxi "\buses?\s+data\b") query.

Definition isAIQueryForComparison (query : jstring) : bool :=
  test (rxi "\buses?\s+ai\b") query ||
  test (rxi "\bartificial\s+intelligence\b") query ||
  test (rxi "\bmachine\s+learning\b") query.

(** The gate of the comparison scoring. *)
Definition comparisonScoringApplies (qi : QueryInfo) : bool :=
  isComparisonQueryForScoring (query qi) &&
  negb (isDefinition (definitionQuery qi)) &&
  negb (isDataQueryForComparison (query qi)) &&
  negb (isAIQueryForComparison (query qi)).

Definition hasExplicitDualEntity (chunkText : jstring) : bool :=
  anyTest explicitDualEntityPatterns chunkText.

Definition hasContrastLanguage (chunkText : jstring) : bool :=
  anyTest contrastLanguagePatterns chunkText.

Definition hasDualFraming (chunkText : jstring) : bool :=
  anyTest dualFramingPatterns chunkText.

Definition mentionsBothEntities (chunkText : jstring) : bool :=
  let chunkTextLower := JS.toLowerCase chunkText in
  test (rxi "\bcelonis\b") chunkTextLower &&
  test (rxi "\bagentic\b") chunkTextLower.

(** The tiers of the comparison bonus. *)
Definition comparisonBonusOf (chunkText : jstring) : Q :=
  if hasExplicitDualEntity chunkText then q 6 10
  else if (hasContrastLanguage chunkText || hasDualFraming chunkText) &&
          mentionsBothEntities chunkText then q 4 10
  else if hasContrastLanguage chunkText || hasDualFraming chunkText then q 2 10
  else q (-4) 10.

Definition headerPatterns : list RegExp :=
  [ rxi "\d+\.\s*Difference\s+Between";
    rxi "\d+\.\s*Difference\s+";
    rxi "\d+\.\s*Compare";
    rxi "\d+\.\s*Comparison";
    rxi "\d+\.\s*[^\n]*\s+vs\.?\s+" ].

(** The penalty for a comparison header that comes late in the chunk; only
    the first header pattern that matches counts. *)
Fixpoint headerLatePenalty (chunkText : jstring) (patterns : list RegExp) : Q :=
  match patterns with
  | [] => 0
  | p :: ps =>
      match exec p chunkText with
      | Some headerMatch =>
          let headerPosition :=
            match JS.indexOf chunkText (matched headerMatch chunkText) with
            | Some i => i
            | None => 0
            end in
          let headerPositionRatio := ratio headerPosition (length chunkText) in
          if Qlt_bool (q 5 10) headerPositionRatio then q (-12) 10
          else if Qlt_bool (q 3 10) headerPositionRatio then q (-6) 10
          else 0
      | None => headerLatePenalty chunkText ps
      end
  end.

Definition comparisonIntroPenaltyOf (chunksByDocument : DocGroups)
  (v : DocumentVector) : Q :=
  let chunkText := text (chunk v) in
  let chunkTextLower := JS.toLowerCase chunkText in
  let isInIntroRange := Qle_bool (chunkPosition chunksByDocument v) (q 15 100) in
  let hasAnyComparisonTerms :=
    hasContrastLanguage chunkText || hasDualFraming chunkText ||
    hasExplicitDualEntity chunkText ||
    test (rxi "\bdifference\b") chunkTextLower ||
    test (rxi "\bcompare") chunkTextLower ||
    test (rxi "\bvs\.?\b") chunkTextLower in
  ((if isInIntroRange && negb hasAnyComparisonTerms then q (-3) 10 else 0)
   + headerLatePenalty chunkText headerPatterns)%Q.

(** [comparisonBonus] and [comparisonIntroPenalty] of a chunk. *)
Definition comparisonTerms (qi : QueryInfo) (chunksByDocument : DocGroups)
  (v : DocumentVector) : Q * Q :=
  if comparisonScoringApplies qi
  then (comparisonBonusOf (text (chunk v)),
        comparisonIntroPenaltyOf chunksByDocument v)
  else (0%Q, 0%Q).

(** *** One pass of the scoring loop *)

(** Candidate selection: query keywords, or semantic similarity of at
    least 0.80. *)
Definition admitted (hasKeywords : bool) (similarity : Q) : bool :=
  negb (negb hasKeywords && Qlt_bool similarity (q 80 100)).

(** The candidate of a vector, [None] when the vector is skipped. *)
Definition scoreVector (qi : QueryInfo) (chunksByDocument : DocGroups)
  (v : DocumentVector) (similarity : Q) : option Candidate :=
  let found := foundWords qi v in
  let hasKeywords := 0 <? found in
  let coverage :=
    if 0 <? length (queryWords qi)
    then ratio found (length (queryWords qi)) else 0%Q in
  if negb (admitted hasKeywords similarity) then None
  else
    let position := positionBonusOf qi chunksByDocument v in
    let explicitTerm := explicitTermBonusOf qi v in
    let '(defBonus, defPenalty) := definitionTerms qi chunksByDocument v in
    let '(cmpBonus, cmpPenalty) := comparisonTerms qi chunksByDocument v in
    Some {| vector := v;
            semanticSimilarity := similarity;
            hasQueryKeywords := hasKeywords;
            keywordCoverage := coverage;
            positionBonus := position;
            explicitTermBonus := explicitTerm;
            definitionBonus := defBonus;
            comparisonBonus := cmpBonus;
            comparisonIntroPenalty := cmpPenalty;
            finalScore :=
              (similarity + coverage * q 3 10 + position + explicitTerm +
               defBonus + defPenalty + cmpBonus + cmpPenalty)%Q |}.

Section Handler.
Variable env : Env.

(** The scoring loop over [vectorsToSearch]; [None] when
    [calculateSimilarity] throws. *)
Fixpoint scoreAll (qi : QueryInfo) (chunksByDocument : DocGroups)
  (queryEmbedding : list Q) (vs : list DocumentVector)
  : option (list Candidate) :=
  match vs with
  | [] => Some []
  | v :: vs' =>
      match calculateSimilarity env queryEmbedding (embedding v) with
      | None => None
      | Some similarity =>
          match scoreAll qi chunksByDocument queryEmbedding vs' with
          | None => None
          | Some cs =>
              Some (match scoreVector qi chunksByDocument v similarity with
                    | Some c => c :: cs
                    | None => cs
                    end)
          end
      end
  end.

(** ** Step 7: the two definition tiers *)

Definition architectureIndicators : list RegExp :=
  [ rxi "\bnot\s+embedded\b";
    rxi "\bsits\s+on\s+top\b";
    rxi "\bconnects\s+to\b";
    rxi "\bintegrates\s+with\b";
    rxi "\bstandalone\s+platform\s+that\b";
    rxi "\bstandalone\s+that\b";
    rxi "\bsits\s+on\s+top\s+of\b";
    rxi "\bpositioned\s+(on|above|over)\b";
    rxi "\blayer\s+(on|above|over)\b";
    rxi "\barchitecture\s+(of|for)\b";
    rxi "\bhow\s+.*\s+works\b";
    rxi "\bhow\s+.*\s+integrates\b";
    rxi "\bintegration\s+(with|to|into)\b";
    rxi "\bdeployed\s+(on|to|in)\b";
    rxi "\bruns\s+on\s+top\s+of\b";
    rxi "\bbuilt\s+on\s+top\s+of\b" ].

Definition comparisonExplanationIndicators : list RegExp :=
  [ rxi "\bdifference\s+between\b";
    rxi "\bdifferences\s+between\b";
    rxi "\bvs\.?\b";
    rxi "\bversus\b";
    rxi "\bin\s+simple\s+terms\b";
    rxi "\bcompared\s+to\b";
    rxi "\bcomparison\s+(of|between|with)\b";
    rxi "\bagentic\b";
    rxi "\bhow\s+it\s+works\b";
    rxi "\bhow\s+.*\s+works\b";
    rxi "\bcapabilities\b";
    rxi "\buse\s+cases?\b";
    rxi "\bwhat\s+.*\s+does\b";
    rxi "\bwhat\s+.*\s+can\s+do\b";
    rxi "\bfeatures?\s+(of|include)\b";
    rxi "\bbenefits?\s+(of|include)\b";
    rxi "\badvantages?\s+(of|over)\b";
    rxi "\bdisadvantages?\s+(of)\b";
    rxi "\bpros\s+and\s+cons\b";
    rxi "\bwhy\s+(use|choose)\b";
    rxi "\bwhen\s+to\s+use\b";
    rxi "\bexample\s+of\b";
    rxi "\bexamples?\s+(include|are)\b" ].

(** [isBlockedForDefinition(chunkText).isBlocked] *)
Definition isBlockedForDefinition (chunkText : jstring) : bool :=
  if anyTest architectureIndicators chunkText then true
  else if anyTest comparisonExplanationIndicators chunkText then true
  else false.

(** [totalChunks > 0 ? chunk.chunkIndex / totalChunks : 0] *)
Definition tierPosition (chunksByDocument : DocGroups) (c : DocumentChunk) : Q :=
  let totalChunks := length (getGroup (sourceFile c) chunksByDocument) in
  if 0 <? totalChunks then ratio (chunkIndex c) totalChunks else 0.

Definition tier1Pattern (subject : jstring) : RegExp :=
  RegExpNew (str "\b" ++ escapeRegExp subject ++ str "\s+is\s+(a|an|the)\s+")
            true false.

(** Tier-1 acceptance of a chunk. *)
Definition isTier1Chunk (subject : jstring) (chunksByDocument : DocGroups)
  (c : DocumentChunk) : bool :=
  let isInTier1Range := Qle_bool (tierPosition chunksByDocument c) (q 40 100) in
  let hasTier1Pattern := test (tier1Pattern subject) (text c) in
  isInTier1Range && hasTier1Pattern && negb (isBlockedForDefinition (text c)).

Definition tier1Candidates (subject : jstring) (chunksByDocument : DocGroups)
  (candidates : list Candidate) : list Candidate :=
  filter (fun c => isTier1Chunk subject chunksByDocument (chunk (vector c)))
         candidates.

Definition tier2Patterns (subject : jstring) : list RegExp :=
  let e := escapeRegExp subject in
  let mk p := RegExpNew p true false in
  [ mk (str "\b" ++ e ++ str "\s+is\s+a\s+platform\s+that\b");
    mk (str "\b" ++ e ++ str "\s+is\s+a\s+solution\s+that\b");
    mk (str "\b" ++ e ++ str "\s+is\s+a\s+tool\s+that\b");
    mk (str "\b" ++ e ++ str "\s+is\s+a\s+system\s+that\b");
    mk (str "\b" ++ e ++ str "\s+is\s+a\s+software\s+that\b");
    mk (str "\boverview\s+of\s+" ++ e ++ str "\b");
    mk (str "\bintroduction\s+to\s+" ++ e ++ str "\b");
    mk (str "\bintroducing\s+" ++ e ++ str "\b");
    mk (str "this\s+document\s+provides[^.]*" ++ e);
    mk (str "this\s+guide\s+(provides|covers|explains)[^.]*" ++ e);
    mk (str "\babout\s+" ++ e ++ str "\b");
    mk (str "\bwhat\s+is\s+" ++ e ++ str "[^?]*\?[^]*" ++ e ++ str "\s+is\s+") ].

(** A Tier-2 pattern whose match starts in the first 30% of the chunk. *)
Definition matchesEarly (chunkText : jstring) (pattern : RegExp) : bool :=
  match exec pattern chunkText with
  | Some tier2Match =>
      Qle_bool (ratio (index tier2Match) (length chunkText)) (q 30 100)
  | None => false
  end.

Definition isTier2Chunk (subject : jstring) (chunksByDocument : DocGroups)
  (c : DocumentChunk) : bool :=
  Qle_bool (tierPosition chunksByDocument c) (q 25 100) &&
  negb (isBlockedForDefinition (text c)) &&
  existsb (matchesEarly (text c)) (tier2Patterns subject).

Definition sameChunk (a b : Candidate) : bool :=
  (chunkIndex (chunk (vector a)) =? chunkIndex (chunk (vector b))) &&
  JS.eqt (sourceFile (chunk (vector a))) (sourceFile (chunk (vector b))).

(** The first candidate of every (chunk index, source file). *)
Fixpoint dedupe (l seen : list Candidate) : list Candidate :=
  match l with
  | [] => []
  | c :: l' =>
      if existsb (sameChunk c) seen then dedupe l' seen
      else c :: dedupe l' (c :: seen)
  end.

Definition tier2Candidates (subject : jstring) (chunksByDocument : DocGroups)
  (candidates : list Candidate) : list Candidate :=
  dedupe (filter (fun c => isTier2Chunk subject chunksByDocument (chunk (vector c)))
                 candidates) [].

(** ** Definition synthesis fallback *)

(** The comparator of [sortedByPosition]. *)
Definition beforeByPosition (a b : DocumentVector) : bool :=
  if negb (JS.eqt (sourceFile (chunk a)) (sourceFile (chunk b))) then
    match localeCompare env (sourceFile (chunk a)) (sourceFile (chunk b)) with
    | Gt => false
    | _ => true
    end
  else chunkIndex (chunk a) <=? chunkIndex (chunk b).

Definition archIndicatorCount (chunkText : jstring) : nat :=
  length (filter (fun p => test p chunkText) architectureIndicators).

(** The loop that selects [bestIntroChunk]. *)
Fixpoint pickIntroChunk (subject : jstring) (chunksByDocument : DocGroups)
  (sorted : list DocumentVector) (best : option DocumentVector)
  : option DocumentVector :=
  match sorted with
  | [] => best
  | v :: rest =>
      if Qlt_bool (q 30 100) (tierPosition chunksByDocument (chunk v))
      then pickIntroChunk subject chunksByDocument rest best
      else if negb (test (wordPattern subject) (text (chunk v)))
      then pickIntroChunk subject chunksByDocument rest best
      else if chunkIndex (chunk v) =? 0 then Some v
      else if archIndicatorCount (text (chunk v)) <=? 2
      then pickIntroChunk subject chunksByDocument rest
             (match best with None => Some v | Some _ => best end)
      else pickIntroChunk subject chunksByDocument rest best
  end.

Definition bestIntroChunk (subject : jstring) (chunksByDocument : DocGroups)
  (vectorsToSearch : list DocumentVector) : option DocumentVector :=
  pickIntroChunk subject chunksByDocument
    (sortBy beforeByPosition vectorsToSearch) None.

Definition categoryPatterns : list RegExp :=
  [ rxi "\b(process\s+intelligence)\b";
    rxi "\b(process\s+mining)\b";
    rxi "\b(execution\s+management)\b";
    rxi "\b(business\s+process)\s+(management|automation|optimization)\b";
    rxi "\b(enterprise)\s+(platform|software|solution)\b";
    rxi "\b(analytics)\s+(platform|software|solution)\b";
    rxi "\b(data)\s+(platform|analytics)\b";
    rxi "\b(automation)\s+(platform|software|solution)\b";
    rxi "\b(intelligence)\s+(platform|software|solution)\b";
    rxi "\bplatform\b";
    rxi "\bsoftware\b";
    rxi "\bsolution\b";
    rxi "\btool\b";
    rxi "\bsystem\b" ].

(** [foundCategories], before it is sorted. *)
Fixpoint collectMatches (f : rmatch -> jstring -> option jstring)
  (chunkText : jstring) (patterns : list RegExp) (acc : list jstring)
  : list jstring :=
  match patterns with
  | [] => acc
  | p :: ps =>
      match exec p chunkText with
      | Some m =>
          match f m chunkText with
          | Some w =>
              collectMatches f chunkText ps
                (if JS.member w acc then acc else acc ++ [w])
          | None => collectMatches f chunkText ps acc
          end
      | None => collectMatches f chunkText ps acc
      end
  end.

Definition categoryOf (chunkText : jstring) : jstring :=
  let foundCategories :=
    sortBy (fun a b : jstring => length b <=? length a)
      (collectMatches
         (fun m t => Some (JS.trim (JS.toLowerCase (matched m t))))
         chunkText categoryPatterns []) in
  match foundCategories with
  | [] => []
  | primaryCategory :: _ =>
      let secondaryCategories :=
        filter (fun c => negb (JS.includes primaryCategory c) &&
                         negb (JS.includes c primaryCategory))
               (slice 1 3 foundCategories) in
      match secondaryCategories with
      | secondary :: _ =>
          if length primaryCategory <? 25
          then primaryCategory ++ str " and " ++ secondary
          else primaryCategory
      | [] => primaryCategory
      end
  end.

Definition purposePatterns : list RegExp :=
  [ rxi "helps?\s+(organizations?|companies?|businesses?|enterprises?)\s+([^.]+)";
    rxi "enables?\s+(organizations?|companies?|businesses?|enterprises?)\s+to\s+([^.]+)";
    rxi "allows?\s+(organizations?|companies?|businesses?|enterprises?)\s+to\s+([^.]+)";
    rxi "used\s+to\s+([^.]+)";
    rxi "designed\s+to\s+([^.]+)";
    rxi "provides?\s+([^.]+?)\s+(for|to)\s+(organizations?|companies?|businesses?)";
    rxi "analyzes?\s+([^.]+)";
    rxi "understand\s+and\s+([^.]+)";
    rxi "improve\s+([^.]+)";
    rxi "optimize\s+([^.]+)";
    rxi "covering\s+its\s+([^.]+)" ].

(** The number of capture groups of a pattern. *)
Fixpoint groupCount (r : regex) : nat :=
  match r with
  | RSeq a b | RAlt a b => groupCount a + groupCount b
  | RRep _ _ _ r' => groupCount r'
  | RGroup _ r' => S (groupCount r')
  | _ => 0
  end.

(** [match[match.length > 2 ? 2 : 1] || match[1]] *)
Definition purposeCapture (p : RegExp) (m : rmatch) (t : jstring)
  : option jstring :=
  let pick := if 2 <? S (groupCount (node p)) then 2 else 1 in
  match group pick m t with
  | Some ((_ :: _) as g) => Some g
  | _ =>
      match group 1 m t with
      | Some ((_ :: _) as g) => Some g
      | _ => None
      end
  end.

Definition cleanPurpose (purposeText : jstring) : jstring :=
  JS.trim (replace (rx "\.\s*$") []
             (replace (rx ",\s*$") [] (JS.collapseSpaces purposeText))).

Fixpoint purposeOf (chunkText : jstring) (patterns : list RegExp) : jstring :=
  match patterns with
  | [] => []
  | p :: ps =>
      match exec p chunkText with
      | Some m =>
          match purposeCapture p m chunkText with
          | Some purposeText =>
              let cleaned := cleanPurpose purposeText in
              if (10 <=? length cleaned) && (length cleaned <=? 150)
              then cleaned else purposeOf chunkText ps
          | None => purposeOf chunkText ps
          end
      | None => purposeOf chunkText ps
      end
  end.

Definition domainPatterns : list RegExp :=
  [ rxi "\b(process\s+mining)\b";
    rxi "\b(process\s+intelligence)\b";
    rxi "\b(execution\s+management)\b";
    rxi "\b(operational\s+data)\b";
    rxi "\b(enterprise\s+data)\b";
    rxi "\b(business\s+process(?:es)?)\b";
    rxi "\b(event\s+logs?)\b";
    rxi "\b(ERP)\b";
    rxi "\b(CRM)\b";
    rxi "\b(SAP)\b";
    rxi "\b(Salesforce)\b";
    rxi "\b(workflow)\b";
    rxi "\b(automation)\b";
    rxi "\b(optimization)\b";
    rxi "\b(analytics)\b";
    rxi "\b(AI)\b";
    rxi "\b(machine\s+learning)\b" ].

Definition domainKeywordsOf (chunkText : jstring) : list jstring :=
  collectMatches (fun m t => option_map JS.toLowerCase (group 1 m t))
                 chunkText domainPatterns [].

Definition includesAny (k : jstring) (ws : list string) : bool :=
  existsb (fun w => JS.includes k (str w)) ws.

Definition categoryPartOf (chunkText : jstring) : jstring :=
  let category := categoryOf chunkText in
  let domainKeywords := domainKeywordsOf chunkText in
  match category with
  | _ :: _ => category
  | [] =>
      let relevantKeywords :=
        filter (fun k => includesAny k
                  ["process"; "intelligence"; "mining"; "analytics"]%string)
               domainKeywords in
      if (0 <? length domainKeywords) && (0 <? length relevantKeywords)
      then JS.join (str " and ") (slice 0 2 relevantKeywords) ++ str " platform"
      else str "platform"
  end.

Definition purposePartOf (chunkText : jstring) : jstring :=
  let purpose := purposeOf chunkText purposePatterns in
  let domainKeywords := domainKeywordsOf chunkText in
  match purpose with
  | _ :: _ =>
      let purposePart := JS.toLowerCase purpose in
      if test (rxi "^(helps?|enables?|allows?|provides?|analyzes?|understand|improve|optimize)")
              purposePart
      then purposePart
      else str "helps organizations " ++ purposePart
  | [] =>
      let processKeywords :=
        filter (fun k => includesAny k ["process"; "business"]%string)
               domainKeywords in
      let dataKeywords :=
        filter (fun k => includesAny k ["data"; "event"]%string)
               domainKeywords in
      if (0 <? length processKeywords) || (0 <? length dataKeywords) then
        let dataSource := hd (str "enterprise data") dataKeywords in
        let processTarget := hd (str "business processes") processKeywords in
        str "analyzes " ++ dataSource ++
        str " to help organizations understand and improve " ++ processTarget
      else str "helps organizations analyze and optimize their operations"
  end.

(** [`${subject} is a ${categoryPart} that ${purposePart}.`] *)
Definition synthesizedAnswer (subject chunkText : jstring) : jstring :=
  subject ++ str " is a " ++ categoryPartOf chunkText ++ str " that " ++
  purposePartOf chunkText ++ str ".".

Definition synthesizedDefinition (subject : jstring) (best : DocumentVector)
  : SearchResponse :=
  {| answer := synthesizedAnswer subject (text (chunk best));
     source := sourceFile (chunk best);
     confidence := q 70 100;
     explanation :=
       Some (str "Definition synthesized due to absence of explicit definition sentence") |}.

Definition noDefinitionResponse (candidates : list Candidate) : SearchResponse :=
  {| answer := str "No clear definition found in the provided documents.";
     source := match candidates with
               | c :: _ => sourceFile (chunk (vector c))
               | [] => []
               end;
     confidence := 0;
     explanation :=
       Some (str "Definition query could not be answered - no explicit definition, soft definition, or synthesizable intro content found") |}.

(** Step 7 as a whole: the candidates to rank, or the reply of the
    synthesis fallback. *)
Definition definitionStage (qi : QueryInfo) (chunksByDocument : DocGroups)
  (vectorsToSearch : list DocumentVector) (candidates : list Candidate)
  : Flow (list Candidate) :=
  match isDefinition (definitionQuery qi), subject (definitionQuery qi) with
  | true, Some subject =>
      match tier1Candidates subject chunksByDocument candidates with
      | (_ :: _) as tier1 => Next tier1
      | [] =>
          match tier2Candidates subject chunksByDocument candidates with
          | (_ :: _) as tier2 => Next tier2
          | [] =>
              match bestIntroChunk subject chunksByDocument vectorsToSearch with
              | Some best => Reply (Json (synthesizedDefinition subject best))
              | None => Reply (Json (noDefinitionResponse candidates))
              end
          end
      end
  | _, _ => Next candidates
  end.

End Handler.

(** ** Steps 7.5 and 7.6: data-usage and AI-usage filters *)

Definition dataUsagePatterns : list RegExp :=
  [ rxi "\bwhat\s+data\b"; rxi "\bdata\s+does\b"; rxi "\buses?\s+data\b";
    rxi "\bdata\s+used\s+by\b"; rxi "\bwhat\s+kind\s+of\s+data\b";
    rxi "\btype\s+of\s+data\b"; rxi "\bdata\s+sources?\b";
    rxi "\bdata\s+inputs?\b" ].

Definition isDataUsageQuery (qi : QueryInfo) : bool :=
  negb (isDefinition (definitionQuery qi)) &&
  anyTest dataUsagePatterns (query qi).

Definition dataRelatedTerms : list RegExp :=
  [ rxi "\bevent\s+logs?\b"; rxi "\bevent\s+data\b";
    rxi "\bcase\s+identifiers?\b"; rxi "\bcase\s+id\b";
    rxi "\bactivit(?:y|ies)\b"; rxi "\btimestamps?\b";
    rxi "\benterprise\s+data\b"; rxi "\boperational\s+data\b";
    rxi "\btransaction\s+data\b"; rxi "\bprocess\s+data\b";
    rxi "\bdata\s+extracts?\b"; rxi "\bdata\s+connectors?\b" ].

Definition introChunkIndicators : list RegExp :=
  [ rxi "\bthis\s+document\s+provides\b"; rxi "\bplatform\s+overview\b";
    rxi "\bdetailed\s+understanding\b"; rxi "\bcovering\s+its\s+purpose\b";
    rxim "\bwhat\s+is\s+\w+\?\s*$" ].

Definition aiUsagePatterns : list RegExp :=
  [ rxi "\buses?\s+ai\b"; rxi "\bai\s+usage\b";
    rxi "\bartificial\s+intelligence\b"; rxi "\bmachine\s+learning\b";
    rxi "\bml\s+capabilit"; rxi "\bai\s+capabilit";
    rxi "\bhow\s+.*\s+ai\b"; rxi "\bwhat\s+ai\b" ].

Definition isAIUsageQuery (qi : QueryInfo) : bool :=
  negb (isDefinition (definitionQuery qi)) && negb (isDataUsageQuery qi) &&
  anyTest aiUsagePatterns (query qi).

Definition aiRelatedTerms : list RegExp :=
  [ rxi "\bai\b"; rxi "\bartificial\s+intelligence\b";
    rxi "\bmachine\s+learning\b"; rxi "\bml\b";
    rxi "\bpredict(?:s|ion|ive|ing)?\b"; rxi "\bpatterns?\b";
    rxi "\broot\s+cause\b"; rxi "\banomal(?:y|ies)\b"; rxi "\bautomation\b";
    rxi "\balgorithm"; rxi "\bmodel(?:s|ing)?\b"; rxi "\binsights?\b" ].

(** The last pattern is [/^celonis\s+[–-]\s+platform\s+overview/im]; on the
    bytes of a UTF-8 text the class of the dash and the hyphen is the
    alternation of the two. *)
Definition introChunkIndicatorsAI : list RegExp :=
  [ rxi "\bthis\s+document\s+provides\b"; rxi "\bplatform\s+overview\b";
    rxi "\bdetailed\s+understanding\b"; rxi "\bcovering\s+its\s+purpose\b";
    rxim "\bwhat\s+is\s+\w+\?\s*$";
    rxim "^celonis\s+(?:–|-)\s+platform\s+overview" ].

(** Keep the chunks with a related term that are no intro chunks; leave the
    list as it is when none is left. *)
Definition usageFilter (terms intro : list RegExp)
  (candidatesToRank : list Candidate) : list Candidate :=
  match filter (fun c =>
                  let chunkText := text (chunk (vector c)) in
                  if negb (anyTest terms chunkText) then false
                  else if anyTest intro chunkText then false
                  else true)
               candidatesToRank with
  | (_ :: _) as related => related
  | [] => candidatesToRank
  end.

Definition usageFilters (qi : QueryInfo) (candidatesToRank : list Candidate)
  : list Candidate :=
  let afterData :=
    if isDataUsageQuery qi
    then usageFilter dataRelatedTerms introChunkIndicators candidatesToRank
    else candidatesToRank in
  if isAIUsageQuery qi
  then usageFilter aiRelatedTerms introChunkIndicatorsAI afterData
  else afterData.

(** ** Step 8: ranking *)

(** [candidatesToRank.sort((a, b) => b.finalScore - a.finalScore)] *)
Definition rank (candidatesToRank : list Candidate) : list Candidate :=
  sortBy (fun a b => Qle_bool (finalScore b) (finalScore a)) candidatesToRank.

Definition noRelevantResponse : SearchResponse :=
  {| answer := str "No relevant information found in the uploaded documents.";
     source := [];
     confidence := 0;
     explanation := None |}.

(** ** Topic coverage check *)

Definition topicStopWords : list jstring :=
  map str
    [ "what"; "how"; "where"; "when"; "why"; "who"; "which"; "whom";
      "is"; "are"; "was"; "were"; "be"; "been"; "being";
      "have"; "has"; "had"; "do"; "does"; "did"; "done";
      "the"; "a"; "an"; "and"; "or"; "but"; "in"; "on"; "at"; "to"; "for";
      "of"; "with"; "by"; "from"; "as"; "into"; "through"; "during";
      "can"; "could"; "will"; "would"; "shall"; "should"; "may"; "might";
      "must";
      "this"; "that"; "these"; "those"; "it"; "its";
      "i"; "you"; "he"; "she"; "we"; "they"; "me"; "him"; "her"; "us"; "them";
      "my"; "your"; "his"; "her"; "our"; "their";
      "about"; "after"; "before"; "between"; "under"; "over"; "above";
      "below";
      "all"; "any"; "both"; "each"; "few"; "more"; "most"; "other"; "some";
      "such"; "no"; "not"; "only"; "same"; "so"; "than"; "too"; "very";
      "just"; "also"; "now"; "here"; "there"; "then"; "once";
      "explain"; "tell"; "show"; "give"; "find"; "get"; "make"; "know";
      "actually"; "really"; "please"; "help" ]%string.

Definition topicWordsOf (qi : QueryInfo) : list jstring :=
  let entityLower :=
    match primaryEntity qi with
    | Some e => JS.toLowerCase e
    | None => []
    end in
  filter (fun word =>
            let wordLower := JS.toLowerCase word in
            if JS.member wordLower topicStopWords then false
            else if (0 <? length entityLower) &&
                    JS.eqt wordLower (JS.toLowerCase entityLower) then false
            else if length wordLower <? 3 then false
            else true)
         (queryWords qi).

(** [w.replace(/s$/, '').replace(/es$/, '').replace(/ing$/, '').replace(/ed$/, '')] *)
Definition topicStem (w : jstring) : jstring :=
  replace (rx "ed$") []
    (replace (rx "ing$") [] (replace (rx "es$") [] (replace (rx "s$") [] w))).

Definition topicWordFound (allChunksText topicWord : jstring) : bool :=
  let wordStem := topicStem topicWord in
  test (wordPattern topicWord) allChunksText ||
  ((3 <? length wordStem) &&
   test (RegExpNew (str "\b" ++ escapeRegExp wordStem) true false) allChunksText).

(** The normalized text of all the chunks of a document, joined by spaces. *)
Definition allChunksTextOf (vectorsToSearch : list DocumentVector)
  (file : jstring) : jstring :=
  JS.join (str " ")
    (map (fun v => normalizeTextForMatching (text (chunk v)))
         (filter (fun v => JS.eqt (sourceFile (chunk v)) file) vectorsToSearch)).

Definition dquote : ascii := "034"%char.

Definition topicFailureResponse (qi : QueryInfo) (bestChunk : DocumentChunk)
  (missingTopicWords : list jstring) : SearchResponse :=
  let missing := JS.join (str ", ") missingTopicWords in
  {| answer :=
       str "No information about " ++ [dquote] ++ missing ++ [dquote] ++
       str " found in the documents" ++
       match primaryEntity qi with
       | Some ((_ :: _) as e) => str " about " ++ e
       | _ => []
       end ++ str ".";
     source := sourceFile bestChunk;
     confidence := 0;
     explanation :=
       Some (str "The document contains information about " ++
             match primaryEntity qi with
             | Some ((_ :: _) as e) => e
             | _ => str "the subject"
             end ++ str " but not about the specific topic: " ++ missing) |}.

(** The reply of the topic coverage check, [None] when the check passes or
    does not apply. *)
Definition topicCoverageCheck (qi : QueryInfo)
  (vectorsToSearch : list DocumentVector) (bestCandidate : Candidate)
  : option SearchResponse :=
  let bestChunk := chunk (vector bestCandidate) in
  if negb (isDefinition (definitionQuery qi)) && (2 <=? length (queryWords qi))
  then
    let topicWords := topicWordsOf qi in
    if 0 <? length topicWords then
      let allChunksText := allChunksTextOf vectorsToSearch (sourceFile bestChunk) in
      let missingTopicWords :=
        filter (fun w => negb (topicWordFound allChunksText w)) topicWords in
      let topicWordsFound := length topicWords - length missingTopicWords in
      let hasHighKeywordCoverage :=
        Qle_bool (q 66 100) (keywordCoverage bestCandidate) in
      let hasVeryHighSemantic :=
        Qle_bool (q 85 100) (semanticSimilarity bestCandidate) in
      if (topicWordsFound =? 0) && negb hasHighKeywordCoverage &&
         negb hasVeryHighSemantic
      then Some (topicFailureResponse qi bestChunk missingTopicWords)
      else None
    else None
  else None.

(** ** Steps 10 to 12: snippet and confidence *)

Definition snippetOf (env : Env) (qi : QueryInfo) (bestChunk : DocumentChunk)
  : jstring :=
  if length (queryWords qi) =? 1
  then extractFocusedSnippet env (text bestChunk) (queryWords qi)
  else
    let phrasePattern := JS.join (str " ") (queryWords qi) in
    match JS.indexOf (normalizeTextForMatching (text bestChunk)) phrasePattern with
    | Some phraseIndex =>
        extractSnippetFromPhraseIndex env (text bestChunk) phraseIndex phrasePattern
    | None => extractFocusedSnippet env (text bestChunk) (queryWords qi)
    end.

(** [Math.min(1.0, bestCandidate.finalScore / 3.1)] *)
Definition confidenceOf (finalScore : Q) : Q :=
  let scaled := (finalScore / q 31 10)%Q in
  if Qle_bool 1 scaled then 1%Q else scaled.

(** [Math.round(confidence * 100) / 100] *)
Definition roundedConfidence (finalScore : Q) : Q :=
  (inject_Z (mathRound (confidenceOf finalScore * 100)) / 100)%Q.

Definition bestMatchResponse (env : Env) (qi : QueryInfo)
  (bestCandidate : Candidate) : SearchResponse :=
  {| answer := snippetOf env qi (chunk (vector bestCandidate));
     source := sourceFile (chunk (vector bestCandidate));
     confidence := roundedConfidence (finalScore bestCandidate);
     explanation := None |}.

(** Steps 7.5 to 12, from the candidates the definition stage hands on. *)
Definition rankedCandidates (qi : QueryInfo) (candidatesToRank : list Candidate)
  : list Candidate :=
  rank (usageFilters qi candidatesToRank).

Definition respond (env : Env) (qi : QueryInfo)
  (vectorsToSearch : list DocumentVector) (candidatesToRank : list Candidate)
  : SearchResponse :=
  match rankedCandidates qi candidatesToRank with
  | [] => noRelevantResponse
  | bestCandidate :: _ =>
      match topicCoverageCheck qi vectorsToSearch bestCandidate with
      | Some r => r
      | None => bestMatchResponse env qi bestCandidate
      end
  end.

(** ** The handler of [POST /api/search] *)

Definition noDocumentsResponse : SearchResponse :=
  {| answer := str "No documents have been uploaded yet. Please upload documents first before searching.";
     source := [];
     confidence := 0;
     explanation := None |}.

Definition queryInfoOf (query : jstring) : QueryInfo :=
  let normalizedQuery := normalizeTextForMatching query in
  let queryWords := queryWordsOf normalizedQuery in
  let primaryEntity := extractPrimaryEntity query in
  {| query := query;
     normalizedQuery := normalizedQuery;
     queryWords := queryWords;
     intentKeywords := detectIntentKeywords query normalizedQuery;
     primaryEntity := primaryEntity;
     definitionQuery :=
       detectDefinitionQuery query normalizedQuery queryWords primaryEntity |}.

(** What Step 6 leaves for the later steps. *)
Record Scored := {
  info : QueryInfo;
  allVectors : list DocumentVector;
  chunksByDocument : DocGroups;
  vectorsToSearch : list DocumentVector;
  candidates : list Candidate
}.

Definition orThrow (A : Type) (o : option A) : Flow A :=
  match o with
  | Some a => Next a
  | None => Reply ServerError
  end.

(** Steps 1 to 6. *)
Definition score (env : Env) (store : list DocumentVector) (query : jstring)
  : Flow Scored :=
  if length (JS.trim query) =? 0 then Reply BadRequest
  else if length store =? 0 then Reply (Json noDocumentsResponse)
  else
    allVectors <- comparisonFilters query store ;;
    let qi := queryInfoOf query in
    queryEmbedding <- orThrow (getEmbedding env query) ;;
    let chunksByDocument := groupByDocument allVectors in
    let vectorsToSearch :=
      vectorsToSearchOf (primaryEntity qi) chunksByDocument allVectors in
    candidates <- orThrow (scoreAll env qi chunksByDocument queryEmbedding
                                    vectorsToSearch) ;;
    Next {| info := qi;
            allVectors := allVectors;
            chunksByDocument := chunksByDocument;
            vectorsToSearch := vectorsToSearch;
            candidates := candidates |}.

(** Steps 1 to 7: the candidates that Step 8 ranks. *)
Definition candidatesToRank (env : Env) (store : list DocumentVector)
  (query : jstring) : Flow (Scored * list Candidate) :=
  s <- score env store query ;;
  toRank <- definitionStage env (info s) (chunksByDocument s)
                            (vectorsToSearch s) (candidates s) ;;
  Next (s, toRank).

Definition handler (env : Env) (store : list DocumentVector) (query : jstring)
  : HttpResult :=
  match candidatesToRank env store query with
  | Reply r => r
  | Next (s, toRank) =>
      Json (respond env (info s) (vectorsToSearch s) toRank)
  end.

(** ** The intent classes of a query *)

(** The four intent classes, as the handler applies them: the definition
    tiers, the comparison filters or the comparison scoring, the data-usage
    filter and the AI-usage filter. *)
Record Intents := {
  definitionIntent : bool;
  comparisonIntent : bool;
  dataUsageIntent : bool;
  aiUsageIntent : bool
}.

Definition intentsOf (query : jstring) : Intents :=
  let qi := queryInfoOf query in
  {| definitionIntent := isDefinition (definitionQuery qi);
     comparisonIntent :=
       comparisonFiltersApply query || comparisonScoringApplies qi;
     dataUsageIntent := isDataUsageQuery qi;
     aiUsageIntent := isAIUsageQuery qi |}.

(** How many of the flags are set. *)
Definition countTrue (bs : list bool) : nat :=
  length (filter (fun b => b) bs).

(** ** The chunks the synthesis fallback accepts *)

(** Within the first 30% of its document, with the subject, and the first
    chunk of the document or a chunk of at most two architecture
    indicators. *)
Definition qualifiesForSynthesis (subject : jstring)
  (chunksByDocument : DocGroups) (v : DocumentVector) : bool :=
  negb (Qlt_bool (q 30 100) (tierPosition chunksByDocument (chunk v))) &&
  test (wordPattern subject) (text (chunk v)) &&
  ((chunkIndex (chunk v) =? 0) || (archIndicatorCount (text (chunk v)) <=? 2)).

End Search.

(* ===================================================================== *)
(** * The operations of the vector store ([utils/vectorStore.ts]) *)
(* ===================================================================== *)

Module Store.

(** The field [vectors] of the store. *)
Definition Vectors := list DocumentVector.

(** The vectors [addDocument] pushes: the chunk of index [i] with
    [embeddings[i]].  A chunk beyond the last embedding would be stored with
    [undefined] for its embedding, which is no [DocumentVector]: [None]
    stands for that store.  Embeddings beyond the last chunk are not read. *)
Fixpoint pushed (chunks : list DocumentChunk) (embeddings : list (list Q))
  : option Vectors :=
  match chunks, embeddings with
  | [], _ => Some []
  | c :: chunks', e :: embeddings' =>
      match pushed chunks' embeddings' with
      | Some vs => Some ({| chunk := c; embedding := e |} :: vs)
      | None => None
      end
  | _ :: _, [] => None
  end.

(** [addDocument(chunks, embeddings)] *)
Definition addDocument (chunks : list DocumentChunk)
  (embeddings : list (list Q)) (vectors : Vectors) : option Vectors :=
  match pushed chunks embeddings with
  | Some vs => Some (vectors ++ vs)
  | None => None
  end.

(** [removeDocument(fileName)] *)
Definition removeDocument (fileName : jstring) (vectors : Vectors) : Vectors :=
  filter (fun v => negb (JS.eqt (sourceFile (chunk v)) fileName)) vectors.

(** [getAllVectors()] *)
Definition getAllVectors (vectors : Vectors) : Vectors := vectors.

(** [clear()] *)
Definition clear (vectors : Vectors) : Vectors := [].


(** The loop of [cosineSimilarity] on real numbers. *)
Fixpoint sums (vecA vecB : list R) (acc : R * R * R) : R * R * R :=
  match vecA, vecB with
  | a :: vecA', b :: vecB' =>
      let '(dotProduct, normA, normB) := acc in
      sums vecA' vecB' (dotProduct + a * b, normA + a * a, normB + b * b)%R
  | _, _ => acc
  end.

(** [cosineSimilarity] on stored numbers, read as reals: the computation
    of [VectorStore.cosineSimilarity] without the rounding of the doubles. *)
Definition cosineSimilarity (vecA vecB : list Q) : option R :=
  if negb (length vecA =? length vecB) then None
  else
    let '(dotProduct, normA, normB) :=
      sums (map Q2R vecA) (map Q2R vecB) (0, 0, 0)%R in
    let denominator := (sqrt normA * sqrt normB)%R in
    Some (if Req_dec_T denominator 0 then 0%R
          else (dotProduct / denominator)%R).

(** [calculateSimilarity(queryEmbedding, vectorEmbedding)] *)
Definition calculateSimilarity (queryEmbedding vectorEmbedding : list Q)
  : option R :=
  cosineSimilarity queryEmbedding vectorEmbedding.



End Store.

(* ===================================================================== *)
(** * The documents route ([routes/documents.ts]) *)
(* ===================================================================== *)

Module Documents.

(** A [Map<string, number>] from file name to file size, in insertion
    order. *)
Definition DocumentMap := list (jstring * nat).

(** [documentMap.has(fileName)] *)
Definition has (documentMap : DocumentMap) (fileName : jstring) : bool :=
  existsb (fun e => JS.eqt (fst e) fileName) documentMap.

(** [documentMap.set(fileName, fileSize)]: a key that is present keeps its
    place. *)
Fixpoint set (documentMap : DocumentMap) (fileName : jstring) (size : nat)
  : DocumentMap :=
  match documentMap with
  | [] => [(fileName, size)]
  | (k, s) :: m' =>
      if JS.eqt k fileName then (k, size) :: m'
      else (k, s) :: set m' fileName size
  end.

(** [documentMap.get(fileName)] *)
Definition get (documentMap : DocumentMap) (fileName : jstring) : option nat :=
  option_map snd (find (fun e => JS.eqt (fst e) fileName) documentMap).

(** [chunk.fileSize || 0] *)
Definition sizeOf (vector : DocumentVector) : nat :=
  match fileSize (chunk vector) with Some n => n | None => 0 end.

(** The body of [vectors.forEach] in [GET /]. *)
Definition record (documentMap : DocumentMap) (vector : DocumentVector)
  : DocumentMap :=
  match Search.truthy (sourceFile (chunk vector)) with
  | Some fileName =>
      let size := sizeOf vector in
      if negb (has documentMap fileName) || (0 <? size)
      then set documentMap fileName size
      else documentMap
  | None => documentMap
  end.

(** The JSON body of [GET /]. *)
Record Listing := {
  documents : list jstring;
  documentsWithSize : list (jstring * nat);
  count : nat;
  totalChunks : nat
}.

(** [router.get('/')] *)
Definition getDocuments (vectors : Store.Vectors) : Listing :=
  let documentMap := fold_left record vectors [] in
  {| documents := map fst documentMap;
     documentsWithSize := documentMap;
     count := length documentMap;
     totalChunks := length vectors |}.

(** The JSON body of [DELETE /clear]. *)
Record Cleared := {
  clearedMessage : jstring;
  cleared : nat;
  clearedRemaining : nat
}.

(** [router.delete('/clear')]: the reply and the store it leaves. *)
Definition clearDocuments (vectors : Store.Vectors) : Cleared * Store.Vectors :=
  let countBefore := length (Store.getAllVectors vectors) in
  let vectorsAfter := Store.clear vectors in
  let countAfter := length (Store.getAllVectors vectorsAfter) in
  ({| clearedMessage := str "All documents cleared successfully";
      cleared := countBefore;
      clearedRemaining := countAfter |}, vectorsAfter).

(** The JSON body of [DELETE /:fileName]. *)
Record Deleted := {
  message : jstring;
  fileName : jstring;
  chunksRemoved : nat;
  remaining : nat
}.

(** [router.delete('/:fileName')]: the reply and the store it leaves.
    [decodeURIComponent] is the decoder of the request parameter, [None]
    when it throws; the reply is then the status 500 of the catch block,
    [None] here. *)
Definition deleteDocument (decodeURIComponent : jstring -> option jstring)
  (param : jstring) (vectors : Store.Vectors)
  : option Deleted * Store.Vectors :=
  match decodeURIComponent param with
  | Some fileName =>
      let countBefore := length (Store.getAllVectors vectors) in
      let vectorsAfter := Store.removeDocument fileName vectors in
      let countAfter := length (Store.getAllVectors vectorsAfter) in
      (Some {| message :=
                 str "Document " ++ [Search.dquote] ++ fileName ++
                 [Search.dquote] ++ str " deleted successfully";
               fileName := fileName;
               chunksRemoved := countBefore - countAfter;
               remaining := countAfter |}, vectorsAfter)
  | None => (None, vectors)
  end.

End Documents.

(* ===================================================================== *)
(** * Batched embeddings ([utils/openaiService.ts]) *)
(* ===================================================================== *)

Module OpenAI.

(** The errors [getEmbeddings] throws. *)
Inductive Failure :=
| NoTexts                        (* 'No texts provided for embedding' *)
| AllEmpty                       (* 'All texts are empty' *)
| NoApiKey                       (* 'OPENAI_API_KEY is not set ...' *)
| BatchFailed (batchNum : nat).  (* 'Failed to get embeddings for batch N: ...' *)

(** What a call has done: the inputs of the requests it has sent, in order,
    and what it returns or throws. *)
Record Outcome (E : Type) := {
  requests : list (list jstring);
  result : Failure + list E
}.

Section Client.

(** An embedding. *)
Variable E : Type.

(** Whether [getOpenAIClient()] returns a client: one exists already, or the
    API key is set. *)
Variable clientReady : bool.

(** [client.embeddings.create({model, input})] for the batch of the given
    number: the embeddings of [response.data], [None] when the call throws
    or the response has no [data]. *)
Variable create : nat -> list jstring -> option (list E).

Definition BATCH_SIZE : nat := 100.

(** [t && t.trim().length > 0] *)
Definition isValid (t : jstring) : bool := 0 <? length (JS.trim t).

(** The input sent for a text: trimmed, and cut at 8000 characters. *)
Definition prepare (t : jstring) : jstring :=
  let trimmed := JS.trim t in
  if 8 * 1000 <? length trimmed
  then JS.substring 0 (8 * 1000) trimmed else trimmed.

(** The [for] loop over the batches; [fuel] bounds the number of
    iterations. *)
Fixpoint batchLoop (fuel i : nat) (validTexts : list jstring)
  (allEmbeddings : list E) (sent : list (list jstring)) : Outcome E :=
  match fuel with
  | 0 => {| requests := sent; result := inr allEmbeddings |}
  | S fuel' =>
      if i <? length validTexts then
        let batch := slice i (i + BATCH_SIZE) validTexts in
        let batchNum := i / BATCH_SIZE + 1 in
        let trimmedBatch := map prepare batch in
        match create batchNum trimmedBatch with
        | Some data =>
            if negb (length data =? length trimmedBatch)
            then {| requests := sent ++ [trimmedBatch];
                    result := inl (BatchFailed batchNum) |}
            else batchLoop fuel' (i + BATCH_SIZE) validTexts
                   (allEmbeddings ++ data) (sent ++ [trimmedBatch])
        | None => {| requests := sent ++ [trimmedBatch];
                     result := inl (BatchFailed batchNum) |}
        end
      else {| requests := sent; result := inr allEmbeddings |}
  end.

(** [getEmbeddings(texts)].  The loop runs once for every 100 valid texts,
    so as many iterations as there are valid texts are enough. *)
Definition getEmbeddings (texts : list jstring) : Outcome E :=
  if length texts =? 0 then {| requests := []; result := inl NoTexts |}
  else
    let validTexts := filter isValid texts in
    if length validTexts =? 0
    then {| requests := []; result := inl AllEmpty |}
    else if negb clientReady
    then {| requests := []; result := inl NoApiKey |}
    else batchLoop (length validTexts) 0 validTexts [] [].

End Client.

End OpenAI.

(* ===================================================================== *)
(** * The snippet extractors ([routes/search.ts]) *)
(* ===================================================================== *)

Module Snippet.

(** ** String operations with indexes *)

(** [t.substring(a, b)]: both indexes are cut at the length of the text,
    and they are swapped when the first is the greater. *)
Definition substring (a b : nat) (t : jstring) : jstring :=
  let a := Nat.min a (length t) in
  let b := Nat.min b (length t) in
  JS.substring (Nat.min a b) (Nat.max a b) t.

(** [t.substring(a)] *)
Definition substringFrom (a : nat) (t : jstring) : jstring := skipn a t.

(** [t.indexOf(p, from)], [None] for -1. *)
Definition indexOfFrom (t p : jstring) (from : nat) : option nat :=
  let from := Nat.min from (length t) in
  option_map (fun i => from + i) (JS.indexOf (skipn from t) p).

(** [t.lastIndexOf(p)], [None] for -1. *)
Fixpoint lastIndexOf (t p : jstring) : option nat :=
  match t with
  | [] => if JS.startsWith [] p then Some 0 else None
  | _ :: t' =>
      match lastIndexOf t' p with
      | Some i => Some (S i)
      | None => if JS.startsWith t p then Some 0 else None
      end
  end.

(** The number of leading characters that satisfy [f]. *)
Fixpoint countWhile (f : ascii -> bool) (t : jstring) : nat :=
  match t with
  | c :: t' => if f c then S (countWhile f t') else 0
  | [] => 0
  end.

(** [while (i < t.length && f(t[i])) i++] *)
Definition skipWhile (f : ascii -> bool) (t : jstring) (i : nat) : nat :=
  i + countWhile f (skipn i t).

(** [t.split(/\s+/)]: the pieces between the runs of white space, the empty
    piece before a leading run and after a trailing run included. *)
Fixpoint splitSpaces (t : jstring) : list jstring :=
  match t with
  | [] => [[]]
  | c :: t' =>
      if JS.isSpace c then
        match t' with
        | c' :: _ => if JS.isSpace c' then splitSpaces t' else [] :: splitSpaces t'
        | [] => [[]; []]
        end
      else
        match splitSpaces t' with
        | w :: ws => (c :: w) :: ws
        | [] => [[c]]
        end
  end.

(** The start indexes of [[...t.matchAll(re)]] for a global [re], from the
    state of the matcher at one position; [fuel] bounds the number of
    matches. *)
Fixpoint matchAllFrom (fuel : nat) (re : RegExp) (p : nat) (pv : option ascii)
  (t : jstring) : list nat :=
  match fuel with
  | 0 => []
  | S fuel' =>
      match searchFrom (ignoreCase re) (multiline re) (node re) p pv t with
      | None => []
      | Some (i, st) =>
          i :: (if pos st =? i then
                  (* an empty match: the search goes on one character later *)
                  match rest st with
                  | c :: t' => matchAllFrom fuel' re (S i) (Some c) t'
                  | [] => []
                  end
                else matchAllFrom fuel' re (pos st) (prev st) (rest st))
      end
  end.

Definition matchAll (re : RegExp) (t : jstring) : list nat :=
  matchAllFrom (S (length t)) re 0 None t.

(** [l[l.length - 1]] *)
Definition lastOf (l : list nat) : option nat := last (map Some l) None.

(** [Math.max] of two indexes, -1 being [None]. *)
Definition maxIndex (a b : option nat) : option nat :=
  match a, b with
  | Some x, Some y => Some (Nat.max x y)
  | Some x, None => Some x
  | None, y => y
  end.

(** ** [extractSnippetFromPhraseIndex] *)

Definition numberedSectionPattern : string := "\n\s*\d+\.\s".

Definition roleTitlePatterns : list string :=
  [ "\n(Sr\.|Senior|Junior|Trainee|Intern)?\s*(Software|Senior|Lead|Principal)?\s*(Engineer|Developer|Manager|Analyst)";
    "\n[A-Z][a-z]+\s+(Engineer|Developer|Manager|Analyst|Designer)" ]%string.

(** [sectionBreakIndex] after one more candidate index: the greater wins. *)
Definition laterBreak (sectionBreakIndex : option nat) (index : nat)
  : option nat :=
  match sectionBreakIndex with
  | None => Some index
  | Some s => if s <? index then Some index else sectionBreakIndex
  end.

(** [sectionEndIndex] after one more candidate index: the smaller wins. *)
Definition earlierEnd (sectionEndIndex : option nat) (index : nat)
  : option nat :=
  match sectionEndIndex with
  | None => Some index
  | Some s => if index <? s then Some index else sectionEndIndex
  end.

(** Where the snippet starts. *)
Definition snippetStartOf (originalText : jstring) (phraseIndex : nat) : nat :=
  let lookBackStart := phraseIndex - 500 in
  let lookBackText := substring lookBackStart phraseIndex originalText in
  let lastDoubleNewline := lastIndexOf lookBackText ["010"%char; "010"%char] in
  let numberedMatches := matchAll (rx numberedSectionPattern) lookBackText in
  let sectionBreakIndex0 :=
    match lastOf numberedMatches with
    | Some index => Some (lookBackStart + index)
    | None => None
    end in
  let sectionBreakIndex1 :=
    match lastDoubleNewline with
    | Some d => laterBreak sectionBreakIndex0 (lookBackStart + d + 2)
    | None => sectionBreakIndex0
    end in
  let sectionBreakIndex :=
    fold_left
      (fun sectionBreakIndex pattern =>
         (* [new RegExp(pattern.source, 'g')]: the flag [i] is not kept *)
         match lastOf (matchAll (rx pattern) lookBackText) with
         | Some index => laterBreak sectionBreakIndex (lookBackStart + index)
         | None => sectionBreakIndex
         end)
      roleTitlePatterns sectionBreakIndex1 in
  let fallback :=
    let lastNewline := lastIndexOf lookBackText ["010"%char] in
    let lastPeriod := lastIndexOf lookBackText (str ".") in
    match maxIndex lastNewline lastPeriod with
    | Some closestBoundary =>
        skipWhile JS.isSpace originalText (lookBackStart + closestBoundary + 1)
    | None => phraseIndex - 100
    end in
  match sectionBreakIndex with
  | Some s =>
      if s <? phraseIndex then skipWhile JS.isSpace originalText s else fallback
  | None => fallback
  end.

(** Where the snippet ends.  The bullet of the class [[•\-\*]] is more than
    one 8-bit character, so the class is written as an alternation. *)
Definition snippetEndOf (originalText : jstring) (phraseIndex : nat)
  (phrasePattern : jstring) : nat :=
  let phraseEnd := phraseIndex + length phrasePattern in
  let lookForwardStart := phraseEnd in
  let lookForwardEnd := Nat.min (length originalText) (phraseEnd + 500) in
  let lookForwardText := substring lookForwardStart lookForwardEnd originalText in
  let firstDoubleNewline := JS.indexOf lookForwardText ["010"%char; "010"%char] in
  let sectionEndIndex0 :=
    match firstDoubleNewline with
    | Some d => Some (phraseEnd + d)
    | None => None
    end in
  let sectionEndIndex :=
    fold_left
      (fun sectionEndIndex pattern =>
         match exec (rxi pattern) lookForwardText with
         | Some m => earlierEnd sectionEndIndex (phraseEnd + index m)
         | None => sectionEndIndex
         end)
      roleTitlePatterns sectionEndIndex0 in
  let fallback :=
    let firstNewline := JS.indexOf lookForwardText ["010"%char] in
    let firstPeriod := JS.indexOf lookForwardText (str ".") in
    let nextBullet := search (rx "\n\s*(?:•|-|\*)\s") lookForwardText in
    let nextNumbered := search (rx "\n\s*\d+\.\s") lookForwardText in
    let nextHeading := search (rx "\n[A-Z][A-Za-z\s]{10,}\n") lookForwardText in
    match nextBullet, nextNumbered, nextHeading, firstPeriod, firstNewline with
    | Some i, _, _, _, _ => lookForwardStart + i
    | None, Some i, _, _, _ => lookForwardStart + i
    | None, None, Some i, _, _ => lookForwardStart + i
    | None, None, None, Some i, _ =>
        let periodIndex :=
          skipWhile (fun c => JS.eqc c "."%char) lookForwardText i in
        let afterPeriod :=
          substring periodIndex
            (Nat.min (length lookForwardText) (periodIndex + 10))
            lookForwardText in
        if JS.includes afterPeriod ["010"%char]
        then lookForwardStart + periodIndex
        else Nat.min (length originalText) (lookForwardStart + 600)
    | None, None, None, None, Some i => lookForwardStart + i
    | None, None, None, None, None =>
        Nat.min (length originalText) (lookForwardStart + 600)
    end in
  match sectionEndIndex with
  | Some s => if lookForwardStart <? s then s else fallback
  | None => fallback
  end.

(** The snippet without a leading role title: what follows the first line
    break after the title, when there is one. *)
Definition withoutRoleTitle (snippet : jstring) : jstring :=
  match exec (rxi "^(Sr\.|Senior|Junior|Trainee|Intern)?\s*(Software|Senior|Lead|Principal)?\s*(Engineer|Developer|Manager|Analyst)")
             snippet with
  | Some roleTitleAtStart =>
      match indexOfFrom snippet ["010"%char]
              (length (matched roleTitleAtStart snippet)) with
      | Some titleEnd => JS.trim (substringFrom titleEnd snippet)
      | None => snippet
      end
  | None => snippet
  end.

(** The three dots put before a snippet that does not start the text and
    after one that does not end it. *)
Definition withEllipses (originalText : jstring) (snippetStart snippetEnd : nat)
  (snippet : jstring) : jstring :=
  (if 0 <? snippetStart then str "..." else []) ++ snippet ++
  (if snippetEnd <? length originalText then str "..." else []).

(** [extractSnippetFromPhraseIndex(originalText, phraseIndex, phrasePattern)].
    The result of [isTocEntry] is only written to the log. *)
Definition extractSnippetFromPhraseIndex (originalText : jstring)
  (phraseIndex : nat) (phrasePattern : jstring) : jstring :=
  let snippetStart := snippetStartOf originalText phraseIndex in
  let snippetEnd := snippetEndOf originalText phraseIndex phrasePattern in
  let snippet := JS.trim (substring snippetStart snippetEnd originalText) in
  withEllipses originalText snippetStart snippetEnd (withoutRoleTitle snippet).

(** ** [extractFocusedSnippet] *)

(** The loop that collects every index of [p] in [t] from [searchIndex] on;
    [None] when it has not ended after [fuel] turns (it never ends for the
    empty [p], which is found again and again at the end of the text). *)
Fixpoint occurrencesFrom (fuel : nat) (t p : jstring) (searchIndex : nat)
  : option (list nat) :=
  match fuel with
  | 0 => None
  | S fuel' =>
      match indexOfFrom t p searchIndex with
      | None => Some []
      | Some index =>
          match occurrencesFrom fuel' t p (index + 1) with
          | Some l => Some (index :: l)
          | None => None
          end
      end
  end.

(** One more turn than the text has characters is enough when the loop
    ends at all. *)
Definition occurrences (t p : jstring) : option (list nat) :=
  occurrencesFrom (length t + 2) t p 0.

(** The matches of the variations of the phrase, tried in order until one
    of them is found. *)
Fixpoint variationMatches (originalLower : jstring) (variations : list jstring)
  : option (list nat) :=
  match variations with
  | [] => Some []
  | variation :: variations' =>
      match occurrences originalLower (JS.toLowerCase variation) with
      | Some [] => variationMatches originalLower variations'
      | found => found
      end
  end.

Definition contextWords : list string := ["challenge"; "prize"; "award"; "won"]%string.

(** The score of a phrase match. *)
Definition phraseMatchScore (originalText : jstring) (phraseLength matchIndex : nat)
  : Z :=
  let beforeText := substring (matchIndex - 100) matchIndex originalText in
  let afterText :=
    substring (matchIndex + phraseLength)
      (Nat.min (length originalText) (matchIndex + phraseLength + 100))
      originalText in
  let score0 := Z.of_nat (length beforeText + length afterText) in
  let score1 :=
    if JS.includes beforeText (str ".") || JS.includes afterText (str ".")
    then (score0 + 200)%Z else score0 in
  let contextText := JS.toLowerCase (beforeText ++ str " " ++ afterText) in
  let score2 :=
    if existsb (fun w => JS.includes contextText (str w)) contextWords
    then (score1 + 300)%Z else score1 in
  let matchText :=
    substring (matchIndex - 20)
      (Nat.min (length originalText) (matchIndex + phraseLength + 20))
      originalText in
  if JS.eqt matchText (JS.toUpperCase matchText) && (length matchText <? 50)
  then (score2 - 100)%Z else score2.

(** The loop that selects [bestMatch]. *)
Fixpoint bestPhraseMatch (originalText : jstring) (phraseLength : nat)
  (allPhraseMatches : list nat) (bestMatch : nat) (bestScore : Z) : nat :=
  match allPhraseMatches with
  | [] => bestMatch
  | matchIndex :: rest_ =>
      let score := phraseMatchScore originalText phraseLength matchIndex in
      if (bestScore <? score)%Z
      then bestPhraseMatch originalText phraseLength rest_ matchIndex score
      else bestPhraseMatch originalText phraseLength rest_ bestMatch bestScore
  end.

(** The positions the partial matches add, in the order of the words of
    the text; [charIndex] runs along the text. *)
Fixpoint partialPositions (originalLower wordLower : jstring)
  (wordsInText : list jstring) (charIndex : nat) (positions : list nat)
  : list nat :=
  match wordsInText with
  | [] => positions
  | textWord :: wordsInText' =>
      let found := indexOfFrom originalLower textWord charIndex in
      let positions' :=
        if JS.includes textWord wordLower || JS.includes wordLower textWord
        then match found with
             | Some wordStart =>
                 if existsb (Nat.eqb wordStart) positions then positions
                 else positions ++ [wordStart]
             | None => positions
             end
        else positions in
      let charIndex' :=
        match found with
        | Some i => i + length textWord
        | None => length textWord - 1
        end in
      partialPositions originalLower wordLower wordsInText' charIndex' positions'
  end.

(** The positions of one query word: its occurrences, then the partial
    matches; [None] when the loop over the occurrences does not end. *)
Definition positionsOf (originalLower word : jstring) : option (list nat) :=
  let wordLower := JS.toLowerCase word in
  match occurrences originalLower wordLower with
  | Some found =>
      Some (partialPositions originalLower wordLower
              (splitSpaces originalLower) 0 found)
  | None => None
  end.

(** [wordPositions]: the positions of the query words that have any. *)
Fixpoint wordPositionsOf (originalLower : jstring) (queryWords : list jstring)
  : option (list (list nat)) :=
  match queryWords with
  | [] => Some []
  | word :: queryWords' =>
      match positionsOf originalLower word with
      | Some positions =>
          match wordPositionsOf originalLower queryWords' with
          | Some l =>
              Some (if 0 <? length positions then positions :: l else l)
          | None => None
          end
      | None => None
      end
  end.

Definition MAX_PHRASE_DISTANCE : nat := 100.

(** [Math.abs(a - b)] *)
Definition distance (a b : nat) : nat := (a - b) + (b - a).

(** The inner loop over the other words: [maxDistance] when every word has
    a position near [firstPos]. *)
Fixpoint nearbyDistance (firstPos : nat) (others : list (list nat))
  (maxDistance : nat) : option nat :=
  match others with
  | [] => Some maxDistance
  | positions :: others' =>
      match find (fun pos => distance pos firstPos <=? MAX_PHRASE_DISTANCE)
                 positions with
      | Some nearbyPos =>
          nearbyDistance firstPos others'
            (Nat.max maxDistance (distance nearbyPos firstPos))
      | None => None
      end
  end.

(** The loop over the positions of the first word. *)
Fixpoint bestWordMatch (firstPositions : list nat) (others : list (list nat))
  (bestMatchIndex : option nat) (bestMatchScore : nat) : option nat :=
  match firstPositions with
  | [] => bestMatchIndex
  | firstPos :: firstPositions' =>
      match nearbyDistance firstPos others 0 with
      | Some maxDistance =>
          let score := 1000 - maxDistance in
          if bestMatchScore <? score
          then bestWordMatch firstPositions' others (Some firstPos) score
          else bestWordMatch firstPositions' others bestMatchIndex bestMatchScore
      | None => bestWordMatch firstPositions' others bestMatchIndex bestMatchScore
      end
  end.

Definition SNIPPET_WINDOW : nat := 200.

(** A number that may be -1. *)
Definition toZ (o : option nat) : Z :=
  match o with Some n => Z.of_nat n | None => (-1)%Z end.

(** The snippet around [snippetStartIndex].  [queryWords[0]] is there:
    without a query word the function does not get this far. *)
Definition windowSnippet (originalText : jstring) (queryWords : list jstring)
  (snippetStartIndex : nat) : jstring :=
  let start := snippetStartIndex - SNIPPET_WINDOW in
  let end_ :=
    Nat.min (length originalText)
      (snippetStartIndex + length (hd [] queryWords) + SNIPPET_WINDOW) in
  let snippet0 := substring start end_ originalText in
  let snippet1 :=
    if 0 <? start then
      let beforeStart := substring (start - 50) start originalText in
      let lastPeriod := lastIndexOf beforeStart (str ".") in
      let lastNewline := lastIndexOf beforeStart ["010"%char] in
      let lastSpace := lastIndexOf beforeStart (str " ") in
      match maxIndex (maxIndex lastPeriod lastNewline) lastSpace with
      | Some boundary =>
          if 0 <? boundary
          then substring (start - (50 - boundary)) end_ originalText
          else snippet0
      | None => snippet0
      end
    else snippet0 in
  let snippet2 :=
    if end_ <? length originalText then
      let afterEnd :=
        substring end_ (Nat.min (length originalText) (end_ + 50)) originalText in
      let firstPeriod := toZ (JS.indexOf afterEnd (str ".")) in
      let firstNewline := toZ (JS.indexOf afterEnd ["010"%char]) in
      let firstSpace := toZ (JS.indexOf afterEnd (str " ")) in
      if (0 <? firstPeriod)%Z || (0 <? firstNewline)%Z || (0 <? firstSpace)%Z
      then
        let boundary :=
          if (0 <? firstPeriod)%Z &&
             ((firstNewline =? -1)%Z || (firstPeriod <? firstNewline)%Z) &&
             ((firstSpace =? -1)%Z || (firstPeriod <? firstSpace)%Z)
          then (firstPeriod + 1)%Z
          else if (0 <? firstNewline)%Z &&
                  ((firstSpace =? -1)%Z || (firstNewline <? firstSpace)%Z)
          then firstNewline
          else firstSpace in
        substring start (Z.to_nat (Z.of_nat end_ + boundary)) originalText
      else snippet1
    else snippet1 in
  withEllipses originalText start end_ (JS.trim snippet2).

(** [extractFocusedSnippet(originalText, queryWords)]; [None] when one of
    its search loops does not end, which is the case when the phrase or a
    query word is empty. *)
Definition extractFocusedSnippet (originalText : jstring)
  (queryWords : list jstring) : option jstring :=
  let originalLower := JS.toLowerCase originalText in
  let normalizedQueryPhrase := JS.toLowerCase (JS.join (str " ") queryWords) in
  match occurrences originalLower normalizedQueryPhrase with
  | None => None
  | Some exact =>
      let found :=
        match exact with
        | [] =>
            variationMatches originalLower
              [ JS.join (str " ") queryWords; JS.join (str "-") queryWords;
                JS.join (str "_") queryWords ]
        | _ :: _ => Some exact
        end in
      match found with
      | None => None
      | Some ((first :: _) as allPhraseMatches) =>
          let exactPhraseIndex :=
            bestPhraseMatch originalText (length normalizedQueryPhrase)
              allPhraseMatches first 0%Z in
          Some (extractSnippetFromPhraseIndex originalText exactPhraseIndex
                  normalizedQueryPhrase)
      | Some [] =>
          match wordPositionsOf originalLower queryWords with
          | None => None
          | Some wordPositions =>
              let bestMatchIndex :=
                if length wordPositions =? length queryWords then
                  match wordPositions with
                  | firstPositions :: others =>
                      bestWordMatch firstPositions others None 0
                  | [] => None
                  end
                else None in
              let snippetStartIndex :=
                match bestMatchIndex with
                | Some i => Some i
                | None =>
                    match wordPositions with
                    | (firstPos :: _) :: _ => Some firstPos
                    | _ => None
                    end
                end in
              match snippetStartIndex with
              | None => Some (JS.trim (substring 0 300 originalText))
              | Some i => Some (windowSnippet originalText queryWords i)
              end
          end
      end
  end.

End Snippet.

(** The collaborators of the handler with the snippet extractors of the
    route in the place of those of [env].  A call of [extractFocusedSnippet]
    that does not return has no result; the empty string stands for it. *)
Definition withSnippetExtractors (env : Env) : Env :=
  {| getEmbedding := getEmbedding env;
     calculateSimilarity := calculateSimilarity env;
     localeCompare := localeCompare env;
     extractFocusedSnippet :=
       fun originalText queryWords =>
         match Snippet.extractFocusedSnippet originalText queryWords with
         | Some snippet => snippet
         | None => []
         end;
     extractSnippetFromPhraseIndex := Snippet.extractSnippetFromPhraseIndex |}.

(* ===================================================================== *)
(** * Sample collaborators and stores *)
(* ===================================================================== *)

Module Samples.

Fixpoint dotProduct (a b : list Q) : Q :=
  match a, b with
  | x :: a', y :: b' => (x * y + dotProduct a' b')%Q
  | _, _ => 0%Q
  end.

(** The cosine similarity of two unit vectors is their dot product. *)
Definition unitSimilarity (a b : list Q) : option Q :=
  if negb (length a =? length b) then None else Some (dotProduct a b).

(** Comparison of two names by character codes. *)
Fixpoint compareCodes (a b : jstring) : comparison :=
  match a, b with
  | [], [] => Eq
  | [], _ :: _ => Lt
  | _ :: _, [] => Gt
  | x :: a', y :: b' =>
      match Nat.compare (JS.code x) (JS.code y) with
      | Eq => compareCodes a' b'
      | c => c
      end
  end.

(** An embedding provider that places every query on the first axis, and
    snippet extractors that return the whole chunk. *)
Definition env : Env :=
  {| getEmbedding := fun _ => Some [1%Q; 0%Q];
     calculateSimilarity := unitSimilarity;
     localeCompare := compareCodes;
     extractFocusedSnippet := fun t _ => t;
     extractSnippetFromPhraseIndex := fun t _ _ => t |}.

(** Unit vectors at cosine 0.28, 0.6, 0.8 and 0.96 of the first axis. *)
Definition at28 : list Q := [7 # 25; 24 # 25]%Q.
Definition at60 : list Q := [3 # 5; 4 # 5]%Q.
Definition at80 : list Q := [4 # 5; 3 # 5]%Q.
Definition at96 : list Q := [24 # 25; 7 # 25]%Q.

Definition vec (file : string) (i : nat) (t : string) (e : list Q)
  : DocumentVector :=
  {| chunk := {| text := str t; sourceFile := str file; chunkIndex := i;
                 startIndex := 0; endIndex := String.length t;
                 fileSize := None |};
     embedding := e |}.

(** One document whose only chunk is an overview. *)
Definition overviewStore : list DocumentVector :=
  [ vec "acme.txt" 0 "This document provides an overview of Acme." at60 ].

(** One document that defines Acme and says nothing of prices. *)
Definition introStore : list DocumentVector :=
  [ vec "intro.txt" 0
        "Acme is a data platform that helps teams analyze logs." at60 ].

(** A document named after Acme, and a guide that defines Acme in its
    second chunk of three. *)
Definition guideStore : list DocumentVector :=
  [ vec "acme.txt" 0 "Acme overview." at60;
    vec "guide.txt" 0 "User guide." at60;
    vec "guide.txt" 1 "Acme is a data platform that helps teams." at60;
    vec "guide.txt" 2 "The end." at60 ].

(** A guide whose second chunk has contrast language and whose third chunk
    has none. *)
Definition contrastStore : list DocumentVector :=
  [ vec "guide.txt" 0 "User guide." at60;
    vec "guide.txt" 1 "Celonis is fast but costly." at28;
    vec "guide.txt" 2
        "The difference between Celonis and agentic platforms." at96 ].

(** Three documents: a guide that the relevance filter drops, and two
    documents named after Acme. *)
Definition synthesisStore : list DocumentVector :=
  [ vec "guide.txt" 0 "User guide." at60;
    vec "guide.txt" 1 "Acme stores logs." at60;
    vec "guide.txt" 2 "Chapter two." at60;
    vec "guide.txt" 3 "The end." at60;
    vec "zacme_a.txt" 0 "Release notes." at60;
    vec "zacme_a.txt" 1 "Acme ships weekly." at60;
    vec "zacme_a.txt" 2 "Chapter two." at60;
    vec "zacme_a.txt" 3 "The end." at60;
    vec "zacme_b.txt" 0 "Acme handbook." at60 ].

(** A document that contrasts two products without naming Celonis. *)
Definition boltStore : list DocumentVector :=
  [ vec "notes.txt" 0 "Meeting notes." at60;
    vec "notes.txt" 1 "Acme finds problems while Bolt executes tasks." at60 ].

(** A text of 2400 characters, as a file guide.txt would hold it: the
    three sentences of [contrastStore] at the offsets 0, 800 and 1800,
    each followed by filler words. *)
Fixpoint filler (n : nat) : jstring :=
  match n with
  | 0 => []
  | S n' => str "lorem " ++ filler n'
  end.

Definition padded (n : nat) (t : string) : jstring :=
  firstn n (str t ++ filler n).

Definition guideText : jstring :=
  padded 800 "User guide. " ++
  padded 1000 "Celonis is fast but costly. " ++
  padded 600 "The difference between Celonis and agentic platforms. ".

(** The store after the upload of that file: [vectorStore.addDocument] of
    its chunks, with their embeddings. *)
Definition uploadedGuideStore : list DocumentVector :=
  map (fun ce => {| chunk := fst ce; embedding := snd ce |})
      (combine (chunkText guideText (str "guide.txt") (Some 2400))
               [at60; at28; at96; at60]).


End Samples.

Import Search.

Unset Implicit Arguments.

(* ===================================================================== *)
(** * Properties of the text normalizer *)
(* ===================================================================== *)

Module NormalizeFacts.

Import JS.


Ltac by_cases c :=
  destruct c as [[] [] [] [] [] [] [] []]; vm_compute; intuition congruence.

Lemma kept_lower c : kept c = true -> toLower c = c.
Proof. by_cases c. Qed.

Lemma kept_blank c :
  kept c = true -> (if isWord c || isSpace c then c else " "%char) = c.
Proof. by_cases c. Qed.

Lemma kept_space c : kept c = true -> isSpace c = true -> c = " "%char.
Proof. by_cases c. Qed.

Lemma kept_keptOrSpace c : kept c = true -> keptOrSpace c = true.
Proof. by_cases c. Qed.

Lemma keptOrSpace_not_space c :
  keptOrSpace c = true -> isSpace c = false -> kept c = true.
Proof. by_cases c. Qed.

Lemma blank_lower_keptOrSpace c :
  keptOrSpace (if isWord (toLower c) || isSpace (toLower c)
               then toLower c else " "%char) = true.
Proof. by_cases c. Qed.

Lemma space_is_space : isSpace " "%char = true.
Proof. reflexivity. Qed.

Lemma kept_the_space : kept " "%char = true.
Proof. reflexivity. Qed.

Lemma toLowerCase_kept s : forallb kept s = true -> toLowerCase s = s.
Proof.
  induction s as [|c s IH]; simpl; [reflexivity|].
  intros H. apply andb_prop in H as [Hc Hs].
  now rewrite (kept_lower _ Hc), (IH Hs).
Qed.

Lemma blankPunctuation_kept s :
  forallb kept s = true -> blankPunctuation s = s.
Proof.
  unfold blankPunctuation.
  induction s as [|c s IH]; simpl; [reflexivity|].
  intros H. apply andb_prop in H as [Hc Hs].
  now rewrite (kept_blank _ Hc), (IH Hs).
Qed.

Lemma collapseSpaces_kept s :
  forallb kept s = true -> single s = true -> collapseSpaces s = s.
Proof.
  induction s as [|c s IH]; [reflexivity|].
  intros Hk Hs. simpl in Hk. apply andb_prop in Hk as [Hc Hk].
  assert (Hs' : single s = true).
  { simpl in Hs. destruct s; [reflexivity|].
    apply andb_prop in Hs as [_ Hs]. exact Hs. }
  simpl. destruct (isSpace c) eqn:Hsp.
  - destruct s as [|c' s]; [now rewrite (kept_space _ Hc Hsp)|].
    simpl in Hs. rewrite Hsp in Hs.
    destruct (isSpace c') eqn:Hsp'; [discriminate|].
    now rewrite (IH Hk Hs'), (kept_space _ Hc Hsp).
  - now rewrite (IH Hk Hs').
Qed.

Lemma collapseSpaces_cons c s :
  collapseSpaces (c :: s) =
  if isSpace c then
    match s with
    | [] => [" "%char]
    | c' :: _ => if isSpace c' then collapseSpaces s
                 else " "%char :: collapseSpaces s
    end
  else c :: collapseSpaces s.
Proof. reflexivity. Qed.

Lemma collapseSpaces_clean s :
  forallb keptOrSpace s = true ->
  forallb kept (collapseSpaces s) = true /\ single (collapseSpaces s) = true.
Proof.
  induction s as [|c s IH]; [split; reflexivity|].
  intros H. simpl in H. apply andb_prop in H as [Hc Hs].
  destruct (IH Hs) as [IHk IHs].
  rewrite collapseSpaces_cons. destruct (isSpace c) eqn:Hsp.
  - destruct s as [|c' s]; [split; reflexivity|].
    destruct (isSpace c') eqn:Hsp'; [split; assumption|].
    split; [exact IHk|].
    rewrite collapseSpaces_cons, Hsp' in *.
    change (negb (isSpace " "%char && isSpace c') &&
            single (c' :: collapseSpaces s) = true).
    rewrite Hsp', andb_false_r. exact IHs.
  - split.
    + simpl. now rewrite (keptOrSpace_not_space _ Hc Hsp), IHk.
    + change (match collapseSpaces s with
              | c' :: _ => negb (isSpace c && isSpace c') &&
                           single (collapseSpaces s)
              | [] => true
              end = true).
      destruct (collapseSpaces s); [reflexivity|].
      rewrite Hsp. exact IHs.
Qed.

Lemma dropWhile_forallb f g s :
  forallb f s = true -> forallb f (dropWhile g s) = true.
Proof.
  induction s as [|c s IH]; simpl; [reflexivity|].
  intros H. destruct (g c); [|exact H].
  apply andb_prop in H as [_ H]. now apply IH.
Qed.

Lemma single_tail c s : single (c :: s) = true -> single s = true.
Proof.
  simpl. destruct s; [reflexivity|].
  intros H. now apply andb_prop in H as [_ H].
Qed.

Lemma dropWhile_single g s : single s = true -> single (dropWhile g s) = true.
Proof.
  induction s as [|c s IH]; [reflexivity|].
  intros H. simpl. destruct (g c); [|exact H].
  apply IH. now apply single_tail in H.
Qed.

Lemma trimEnd_cons c s :
  trimEnd (c :: s) =
  match trimEnd s with
  | [] => if isSpace c then [] else [c]
  | r => c :: r
  end.
Proof. reflexivity. Qed.

Lemma trimEnd_forallb f s :
  forallb f s = true -> forallb f (trimEnd s) = true.
Proof.
  induction s as [|c s IH]; [reflexivity|].
  intros H. simpl in H. apply andb_prop in H as [Hc Hs].
  rewrite trimEnd_cons. specialize (IH Hs).
  destruct (trimEnd s) as [|d r].
  - destruct (isSpace c); simpl; [reflexivity | now rewrite Hc].
  - simpl. rewrite Hc. exact IH.
Qed.

(** [trimEnd] keeps the head of what it does not erase. *)
Lemma trimEnd_head s d r :
  trimEnd s = d :: r -> exists s', s = d :: s'.
Proof.
  destruct s as [|c s]; [discriminate|].
  rewrite trimEnd_cons. destruct (trimEnd s).
  - destruct (isSpace c); [discriminate|].
    intros H. inversion H. subst. now eexists.
  - intros H. inversion H. subst. now eexists.
Qed.

Lemma trimEnd_single s : single s = true -> single (trimEnd s) = true.
Proof.
  induction s as [|c s IH]; [reflexivity|].
  intros H. rewrite trimEnd_cons.
  pose proof (single_tail _ _ H) as Hs. specialize (IH Hs).
  destruct (trimEnd s) as [|d r] eqn:E.
  - destruct (isSpace c); reflexivity.
  - destruct (trimEnd_head _ _ _ E) as [s' ->].
    simpl in H. apply andb_prop in H as [H _].
    simpl. simpl in IH. rewrite H. exact IH.
Qed.

Lemma trimEnd_idem s : trimEnd (trimEnd s) = trimEnd s.
Proof.
  induction s as [|c s IH]; [reflexivity|].
  rewrite trimEnd_cons.
  destruct (trimEnd s) as [|d r] eqn:E.
  - destruct (isSpace c) eqn:Hsp; [reflexivity|].
    simpl. now rewrite Hsp.
  - rewrite trimEnd_cons, IH. reflexivity.
Qed.


Lemma trimStart_noLeadingSpace s : noLeadingSpace (trimStart s) = true.
Proof.
  unfold trimStart. induction s as [|c s IH]; [reflexivity|].
  simpl. destruct (isSpace c) eqn:E; [exact IH|].
  simpl. now rewrite E.
Qed.

Lemma trimStart_fixed s : noLeadingSpace s = true -> trimStart s = s.
Proof.
  destruct s as [|c s]; [reflexivity|].
  unfold trimStart. simpl. now destruct (isSpace c).
Qed.

Lemma trimEnd_noLeadingSpace s :
  noLeadingSpace s = true -> noLeadingSpace (trimEnd s) = true.
Proof.
  destruct s as [|c s]; [reflexivity|].
  rewrite trimEnd_cons. intros H.
  destruct (trimEnd s); [|exact H].
  destruct (isSpace c) eqn:E; [reflexivity|].
  simpl. now rewrite E.
Qed.

Lemma trim_idem s : trim (trim s) = trim s.
Proof.
  unfold trim.
  rewrite (trimStart_fixed (trimEnd (trimStart s))).
  - apply trimEnd_idem.
  - apply trimEnd_noLeadingSpace, trimStart_noLeadingSpace.
Qed.

Lemma blank_lower_clean s :
  forallb keptOrSpace (blankPunctuation (toLowerCase s)) = true.
Proof.
  unfold blankPunctuation, toLowerCase.
  induction s as [|c s IH]; [reflexivity|].
  simpl. now rewrite blank_lower_keptOrSpace, IH.
Qed.

(** The normal form: kept characters only, single spaces, trimmed. *)
Lemma normalize_kept s :
  forallb kept (normalizeTextForMatching s) = true /\
  single (normalizeTextForMatching s) = true.
Proof.
  unfold normalizeTextForMatching, trim, trimStart.
  destruct (collapseSpaces_clean _ (blank_lower_clean s)) as [Hk Hs].
  split.
  - now apply trimEnd_forallb, dropWhile_forallb.
  - now apply trimEnd_single, dropWhile_single.
Qed.

End NormalizeFacts.

(** C8. Text normalization is idempotent: normalizing a normalized string
    (lower-cased, punctuation blanked, white space collapsed, trimmed)
    returns it unchanged. *)
Theorem normalize_idempotent (x : jstring) :
  normalizeTextForMatching (normalizeTextForMatching x) =
  normalizeTextForMatching x.
Proof.
  destruct (NormalizeFacts.normalize_kept x) as [Hk Hs].
  unfold normalizeTextForMatching at 1.
  rewrite (NormalizeFacts.toLowerCase_kept _ Hk).
  rewrite (NormalizeFacts.blankPunctuation_kept _ Hk).
  rewrite (NormalizeFacts.collapseSpaces_kept _ Hk Hs).
  unfold normalizeTextForMatching. apply NormalizeFacts.trim_idem.
Qed.

(* ===================================================================== *)
(** * Properties of the vector store *)
(* ===================================================================== *)

Module VectorStoreFacts.

Import VectorStore.

Lemma throws_iff_lengths_differ (a b : list PrimFloat.float) :
  cosineSimilarity a b = None <-> length a <> length b.
Proof.
  unfold cosineSimilarity.
  destruct (Nat.eqb_spec (length a) (length b)) as [E|E]; simpl.
  - destruct (sums a b _) as [[dotProduct normA] normB].
    split; [discriminate | contradiction].
  - split; [now intros _ | reflexivity].
Qed.

Lemma returns_on_equal_lengths (a b : list PrimFloat.float) :
  length a = length b -> exists r, cosineSimilarity a b = Some r.
Proof.
  intros E. destruct (cosineSimilarity a b) as [r|] eqn:H; [now exists r|].
  apply throws_iff_lengths_differ in H. contradiction.
Qed.

End VectorStoreFacts.

(** C9. [cosineSimilarity] throws exactly when the two vectors differ in
    length, and returns a number when they do not.  But the number is not
    0 whenever one of the two vectors has norm zero: for the vector
    (2^600) and the zero vector (0) the sum of the squares of the first is
    infinite, the denominator is infinity * 0, which is NaN and not equal
    to 0, and the result is 0 / NaN, which is NaN. *)
Theorem cosineSimilarity_nan_for_a_zero_vector :
  (forall a b : list PrimFloat.float,
     VectorStore.cosineSimilarity a b = None <-> length a <> length b) /\
  (forall a b : list PrimFloat.float,
     length a = length b -> exists r, VectorStore.cosineSimilarity a b = Some r) /\
  VectorStore.sums [0x1p+600%float] [0%float] (0, 0, 0)%float
    = (0, PrimFloat.infinity, 0)%float /\
  VectorStore.cosineSimilarity [0x1p+600%float] [0%float] = Some PrimFloat.nan.
Proof.
  split; [exact VectorStoreFacts.throws_iff_lengths_differ|].
  split; [exact VectorStoreFacts.returns_on_equal_lengths|].
  split; vm_compute; reflexivity.
Qed.

(* ===================================================================== *)
(** * Properties of the matcher *)
(* ===================================================================== *)

Module RegexFacts.

Import JS.

Lemma startsWith_spec t p :
  startsWith t p = true <-> exists post, t = p ++ post.
Proof.
  revert t. induction p as [|x p IH]; intros t; simpl.
  - split; [intros _; now exists t | reflexivity].
  - destruct t as [|y t].
    + split; [discriminate | intros [post H]; discriminate].
    + split.
      * intros H. apply andb_prop in H as [Hxy H].
        apply Ascii.eqb_eq in Hxy. subst y.
        apply IH in H as [post ->]. now exists post.
      * intros [post H]. injection H as -> ->.
        unfold eqc. rewrite Ascii.eqb_refl. apply IH. now exists post.
Qed.

Lemma includes_spec t p :
  includes t p = true <-> exists pre post, t = pre ++ p ++ post.
Proof.
  induction t as [|c t IH].
  - simpl. rewrite orb_false_r, startsWith_spec. split.
    + intros [post H]. now exists [], post.
    + intros [pre [post H]].
      destruct pre; [now exists post | discriminate].
  - simpl. rewrite orb_true_iff, startsWith_spec, IH. split.
    + intros [[post H] | [pre [post H]]].
      * now exists [], post.
      * exists (c :: pre), post. now rewrite H.
    + intros [pre [post H]]. destruct pre as [|d pre].
      * left. now exists post.
      * right. injection H as _ H. now exists pre, post.
Qed.

Lemma includes_app t pre post w :
  includes t w = true -> includes (pre ++ t ++ post) w = true.
Proof.
  rewrite !includes_spec. intros [a [b ->]].
  exists (pre ++ a), (b ++ post). now rewrite <- !app_assoc.
Qed.

Lemma includes_suffix pre t w :
  includes t w = true -> includes (pre ++ t) w = true.
Proof.
  intros H. rewrite <- (app_nil_r t). now apply includes_app.
Qed.

Lemma includes_prefix t post w :
  includes t w = true -> includes (t ++ post) w = true.
Proof. intros H. exact (includes_app t [] post w H). Qed.

Lemma toLowerCase_app a b :
  toLowerCase (a ++ b) = toLowerCase a ++ toLowerCase b.
Proof. apply map_app. Qed.


Lemma later_refl st : later st st.
Proof. now exists []. Qed.

Lemma later_trans a b c : later a b -> later b c -> later a c.
Proof.
  intros [p Hp] [p' Hp']. exists (p ++ p').
  now rewrite Hp, Hp', app_assoc.
Qed.

Lemma later_advance st c t : rest st = c :: t -> later st (advance st c t).
Proof. intros H. now exists [c]. Qed.

Lemma later_setCap n a b st : later st (setCap n a b st).
Proof. now exists []. Qed.

(** What a literal has read: as many characters, equal up to case. *)
Lemma eatLit_spec ic l :
  forall st st', eatLit ic l st = Some st' ->
  exists m, rest st = m ++ rest st' /\ toLowerCase m = toLowerCase l.
Proof.
  induction l as [|a l IH]; intros st st' H; simpl in H.
  - injection H as <-. now exists [].
  - destruct (rest st) as [|c t] eqn:E; [discriminate|].
    destruct (sameChar ic a c) eqn:Hs; [|discriminate].
    apply IH in H as [m [Hm Hl]]. simpl in Hm.
    exists (c :: m). split; [now rewrite Hm|].
    simpl. rewrite Hl. f_equal.
    unfold sameChar in Hs. destruct ic.
    + apply Ascii.eqb_eq in Hs. now symmetry.
    + apply Ascii.eqb_eq in Hs. now subst.
Qed.


Lemma times_forward f n : forward f -> forward (fun st k => times f n st k).
Proof.
  intros Hf. induction n as [|n IH]; intros st k res H; simpl in H.
  - exists st. split; [apply later_refl | exact H].
  - apply Hf in H as [st1 [L1 H]].
    apply IH in H as [st2 [L2 H]].
    exists st2. split; [eapply later_trans; eassumption | exact H].
Qed.

Lemma upto_forward g f fuel :
  forward f -> forward (fun st k => upto g f fuel st k).
Proof.
  intros Hf. induction fuel as [|fuel IH]; intros st k res H; simpl in H.
  - exists st. split; [apply later_refl | exact H].
  - assert (Hmore :
      forall r, f st (fun st' =>
                  if length (rest st') <? length (rest st)
                  then upto g f fuel st' k else None) = Some r ->
      exists st', later st st' /\ k st' = Some r).
    { intros r Hr. apply Hf in Hr as [st1 [L1 Hr]].
      destruct (length (rest st1) <? length (rest st)); [|discriminate].
      apply IH in Hr as [st2 [L2 Hr]].
      exists st2. split; [eapply later_trans; eassumption | exact Hr]. }
    destruct g.
    + destruct (f st _) eqn:E.
      * injection H as <-. now apply Hmore.
      * exists st. split; [apply later_refl | exact H].
    + destruct (k st) eqn:E.
      * injection H as <-. exists st. split; [apply later_refl | exact E].
      * now apply Hmore.
Qed.

Lemma run_forward ic ml r : forward (run ic ml r).
Proof.
  induction r as [| |l|neg s|a IHa b IHb|a IHa b IHb|g lo hi r IH|n r IH| | |];
    intros st k res H; simpl in H.
  - discriminate.
  - exists st. split; [apply later_refl | exact H].
  - destruct (eatLit ic l st) as [st'|] eqn:E; [|discriminate].
    apply eatLit_spec in E as [m [Hm _]].
    exists st'. split; [now exists m | exact H].
  - destruct (rest st) as [|c t] eqn:E; [discriminate|].
    destruct (xorb neg (inSet ic s c)); [|discriminate].
    exists (advance st c t). split; [now apply later_advance | exact H].
  - apply IHa in H as [st1 [L1 H]]. apply IHb in H as [st2 [L2 H]].
    exists st2. split; [eapply later_trans; eassumption | exact H].
  - destruct (run ic ml a st k) eqn:E.
    + injection H as <-. now apply IHa.
    + now apply IHb.
  - apply (times_forward _ lo IH) in H as [st1 [L1 H]].
    apply (upto_forward g _ _ IH) in H as [st2 [L2 H]].
    exists st2. split; [eapply later_trans; eassumption | exact H].
  - apply IH in H as [st1 [L1 H]].
    exists (setCap n (pos st) (pos st1) st1).
    split; [|exact H].
    eapply later_trans; [exact L1 | apply later_setCap].
  - destruct (atWordBoundary st); [|discriminate].
    exists st. split; [apply later_refl | exact H].
  - destruct (atBol ml st); [|discriminate].
    exists st. split; [apply later_refl | exact H].
  - destruct (atEol ml st); [|discriminate].
    exists st. split; [apply later_refl | exact H].
Qed.


Lemma later_includes st st' w :
  later st st' ->
  includes (toLowerCase (rest st')) w = true ->
  includes (toLowerCase (rest st)) w = true.
Proof.
  intros [pre ->] H. rewrite toLowerCase_app. now apply includes_suffix.
Qed.

Lemma run_requires ic ml w r :
  requires w r = true ->
  forall st k res, run ic ml r st k = Some res ->
  includes (toLowerCase (rest st)) w = true.
Proof.
  induction r as [| |l|neg s|a IHa b IHb|a IHa b IHb|g lo hi r IH|n r IH| | |];
    intros Hreq st k res H; simpl in Hreq, H; try discriminate.
  - destruct (eatLit ic l st) as [st'|] eqn:E; [|discriminate].
    apply eatLit_spec in E as [m [Hm Hl]].
    rewrite Hm, toLowerCase_app, Hl. now apply includes_prefix.
  - apply orb_prop in Hreq as [Ha | Hb].
    + eapply IHa; eassumption.
    + apply run_forward in H as [st1 [L1 H]].
      eapply later_includes; [exact L1|]. eapply IHb; eassumption.
  - apply andb_prop in Hreq as [Ha Hb].
    destruct (run ic ml a st k) eqn:E.
    + eapply IHa; eassumption.
    + eapply IHb; eassumption.
  - apply andb_prop in Hreq as [Hlo Hr].
    destruct lo as [|lo]; [discriminate|].
    simpl in H. eapply IH; eassumption.
  - eapply IH; eassumption.
Qed.

Lemma searchFrom_requires ic ml w r :
  requires w r = true ->
  forall t p pv res, searchFrom ic ml r p pv t = Some res ->
  includes (toLowerCase t) w = true.
Proof.
  intros Hreq. induction t as [|c t IH]; intros p pv res H; simpl in H.
  - destruct (run ic ml r _ Some) eqn:E; [|discriminate].
    apply (run_requires _ _ _ _ Hreq) in E. exact E.
  - destruct (run ic ml r _ Some) eqn:E.
    + apply (run_requires _ _ _ _ Hreq) in E. exact E.
    + apply IH in H. now apply (includes_suffix [toLower c]).
Qed.

(** A pattern that requires a word is found only in a text that has it. *)
Lemma exec_requires w re t :
  requires w (node re) = true ->
  includes (toLowerCase t) w = false ->
  exec re t = None.
Proof.
  intros Hreq Hno. unfold exec.
  destruct (searchFrom _ _ _ 0 None t) as [[i st]|] eqn:E; [|reflexivity].
  apply (searchFrom_requires _ _ _ _ Hreq) in E. congruence.
Qed.

Lemma test_requires w re t :
  requires w (node re) = true ->
  includes (toLowerCase t) w = false ->
  test re t = false.
Proof.
  intros Hreq Hno. unfold test. now rewrite (exec_requires _ _ _ Hreq Hno).
Qed.

End RegexFacts.

(* ===================================================================== *)
(** * Properties of the stages of the handler *)
(* ===================================================================== *)

Module HandlerFacts.

(** ** Sorting *)

Section SortFacts.
Context {A : Type} (before : A -> A -> bool).

Lemma insertSorted_In x y l :
  In y (insertSorted before x l) <-> y = x \/ In y l.
Proof.
  induction l as [|z l IH]; simpl.
  - intuition.
  - destruct (before x z); simpl; [intuition|].
    rewrite IH. intuition.
Qed.

Lemma sortBy_In y l : In y (sortBy before l) <-> In y l.
Proof.
  induction l as [|x l IH]; simpl; [reflexivity|].
  rewrite insertSorted_In, IH. intuition.
Qed.

Lemma sortBy_nil l : sortBy before l = [] -> l = [].
Proof.
  destruct l as [|x l]; [reflexivity|]. simpl.
  destruct (sortBy before l) as [|z r]; simpl; [discriminate|].
  destruct (before x z); discriminate.
Qed.

Hypothesis total : forall x y, before x y = false -> before y x = true.
Hypothesis trans : forall x y z,
  before x y = true -> before y z = true -> before x z = true.


Lemma insertSorted_headFirst x l :
  headFirst before l -> headFirst before (insertSorted before x l).
Proof.
  induction l as [|z l IH]; simpl.
  - intros _. split; [intros y []| exact I].
  - intros [Hz Hl]. destruct (before x z) eqn:E; simpl.
    + split; [|split; assumption].
      intros y [<- | Hy]; [exact E|].
      eapply trans; [exact E | now apply Hz].
    + split; [|now apply IH].
      intros y Hy. apply insertSorted_In in Hy as [-> | Hy].
      * now apply total.
      * now apply Hz.
Qed.

Lemma sortBy_headFirst l : headFirst before (sortBy before l).
Proof.
  induction l as [|x l IH]; simpl; [exact I|].
  now apply insertSorted_headFirst.
Qed.

End SortFacts.

(** The ranking puts a candidate of greatest score first. *)
Lemma rank_head best rest_ l :
  rank l = best :: rest_ ->
  In best l /\ forall c, In c l -> (finalScore c <= finalScore best)%Q.
Proof.
  intros H. split.
  - apply (sortBy_In (fun a b => Qle_bool (finalScore b) (finalScore a))).
    fold (rank l). rewrite H. now left.
  - intros c Hc.
    apply (sortBy_In (fun a b => Qle_bool (finalScore b) (finalScore a))) in Hc.
    fold (rank l) in Hc. rewrite H in Hc. destruct Hc as [<- | Hc].
    + apply Qle_refl.
    + pose proof (sortBy_headFirst
                    (fun a b => Qle_bool (finalScore b) (finalScore a))) as S.
      assert (HS : headFirst
                (fun a b => Qle_bool (finalScore b) (finalScore a)) (rank l)).
      { apply S.
        - intros x y E. apply Qle_bool_iff.
          destruct (Qle_bool (finalScore y) (finalScore x)) eqn:E'; [discriminate|].
          apply Qlt_le_weak, Qnot_le_lt. intros C.
          apply Qle_bool_iff in C. congruence.
        - intros x y z H1 H2. apply Qle_bool_iff.
          apply Qle_bool_iff in H1, H2. eapply Qle_trans; eassumption. }
      rewrite H in HS. destruct HS as [HS _].
      apply Qle_bool_iff. now apply HS.
Qed.

Lemma rank_nil l : rank l = [] -> l = [].
Proof. apply sortBy_nil. Qed.

(** ** The scoring loop *)

Lemma scoreVector_spec qi cbd v sim c :
  scoreVector qi cbd v sim = Some c ->
  vector c = v /\ semanticSimilarity c = sim /\
  hasQueryKeywords c = (0 <? foundWords qi v) /\
  admitted (0 <? foundWords qi v) sim = true.
Proof.
  unfold scoreVector.
  destruct (admitted (0 <? foundWords qi v) sim) eqn:E; simpl; [|discriminate].
  destruct (definitionTerms qi cbd v), (comparisonTerms qi cbd v).
  intros H. injection H as <-. simpl. auto.
Qed.

(** A vector that is not admitted is skipped before any bonus is computed. *)
Lemma scoreVector_skipped qi cbd v sim :
  admitted (0 <? foundWords qi v) sim = false ->
  scoreVector qi cbd v sim = None.
Proof. unfold scoreVector. now intros ->. Qed.

Lemma scoreAll_In env qi cbd e vs :
  forall cs c,
    scoreAll env qi cbd e vs = Some cs -> In c cs ->
    exists sim,
      In (vector c) vs /\
      calculateSimilarity env e (embedding (vector c)) = Some sim /\
      scoreVector qi cbd (vector c) sim = Some c.
Proof.
  induction vs as [|v vs IH]; intros cs c H Hc; simpl in H.
  - injection H as <-. destruct Hc.
  - destruct (calculateSimilarity env e (embedding v)) as [sim|] eqn:Es;
      [|discriminate].
    destruct (scoreAll env qi cbd e vs) as [cs'|] eqn:Ea; [|discriminate].
    injection H as <-.
    destruct (scoreVector qi cbd v sim) as [c'|] eqn:Ev.
    + destruct Hc as [<- | Hc].
      * destruct (scoreVector_spec _ _ _ _ _ Ev) as [Hv _].
        exists sim. rewrite Hv. auto with datatypes.
      * destruct (IH _ _ eq_refl Hc) as [s [Hin Hs]].
        exists s. auto with datatypes.
    + destruct (IH _ _ eq_refl Hc) as [s [Hin Hs]].
      exists s. auto with datatypes.
Qed.


(** ** The stages after the scoring loop *)

Lemma dedupe_In l : forall seen c, In c (dedupe l seen) -> In c l.
Proof.
  induction l as [|x l IH]; intros seen c H; simpl in H; [destruct H|].
  destruct (existsb (sameChunk x) seen).
  - right. eapply IH; eassumption.
  - destruct H as [<- | H]; [now left | right; eapply IH; eassumption].
Qed.

Lemma definitionStage_In env qi cbd vts cands l c :
  definitionStage env qi cbd vts cands = Next l -> In c l -> In c cands.
Proof.
  unfold definitionStage.
  destruct (isDefinition (definitionQuery qi)); [|now intros [= <-]].
  destruct (subject (definitionQuery qi)) as [subj|]; [|now intros [= <-]].
  destruct (tier1Candidates subj cbd cands) as [|t1 l1] eqn:E1.
  - destruct (tier2Candidates subj cbd cands) as [|t2 l2] eqn:E2.
    + destruct (bestIntroChunk env subj cbd vts); discriminate.
    + intros [= <-] Hc. rewrite <- E2 in Hc. unfold tier2Candidates in Hc.
      apply dedupe_In in Hc. now apply filter_In in Hc.
  - intros [= <-] Hc. rewrite <- E1 in Hc. unfold tier1Candidates in Hc.
    now apply filter_In in Hc.
Qed.

Lemma usageFilter_In terms intro l c :
  In c (usageFilter terms intro l) -> In c l.
Proof.
  unfold usageFilter.
  destruct (filter _ l) as [|x r] eqn:E; [auto|].
  intros H. rewrite <- E in H. now apply filter_In in H.
Qed.

Lemma usageFilters_In qi l c : In c (usageFilters qi l) -> In c l.
Proof.
  unfold usageFilters. intros H.
  destruct (isAIUsageQuery qi); [apply usageFilter_In in H|];
    (destruct (isDataUsageQuery qi); [apply usageFilter_In in H|]; exact H).
Qed.

Lemma rankedCandidates_In qi l c : In c (rankedCandidates qi l) -> In c l.
Proof.
  unfold rankedCandidates, rank. intros H.
  apply sortBy_In in H. now apply usageFilters_In in H.
Qed.

(** The usage filters leave the candidates of a definition query alone. *)
Lemma usageFilters_definition qi l :
  isDefinition (definitionQuery qi) = true -> usageFilters qi l = l.
Proof.
  intros H. unfold usageFilters, isAIUsageQuery, isDataUsageQuery.
  now rewrite H.
Qed.

Lemma topicCoverageCheck_definition qi vts best :
  isDefinition (definitionQuery qi) = true ->
  topicCoverageCheck qi vts best = None.
Proof. intros H. unfold topicCoverageCheck. now rewrite H. Qed.

(** What [score] has done when it hands a result on. *)
Lemma score_Next env store query s :
  score env store query = Next s ->
  exists e,
    getEmbedding env query = Some e /\
    info s = queryInfoOf query /\
    comparisonFilters query store = Next (allVectors s) /\
    chunksByDocument s = groupByDocument (allVectors s) /\
    vectorsToSearch s =
      vectorsToSearchOf (primaryEntity (info s)) (chunksByDocument s)
                        (allVectors s) /\
    scoreAll env (info s) (chunksByDocument s) e (vectorsToSearch s) =
      Some (candidates s).
Proof.
  unfold score.
  destruct (length (JS.trim query) =? 0); [discriminate|].
  destruct (length store =? 0); [discriminate|].
  destruct (comparisonFilters query store) as [r|all]; [discriminate|].
  simpl. destruct (getEmbedding env query) as [e|]; [|discriminate].
  simpl. destruct (scoreAll _ _ _ _ _) as [cs|] eqn:E; [|discriminate].
  simpl. intros [= <-]. exists e. simpl. repeat split; auto.
Qed.

(** ** Documents and positions *)

Lemma eqt_spec a b : JS.eqt a b = true <-> a = b.
Proof.
  revert b. induction a as [|x a IH]; intros [|y b]; simpl;
    try (split; [discriminate | intros H; discriminate]); [tauto|].
  rewrite andb_true_iff, IH. unfold JS.eqc. rewrite Ascii.eqb_eq.
  split; [intros [-> ->]; reflexivity | intros [= -> ->]; auto].
Qed.

Lemma eqt_refl a : JS.eqt a a = true.
Proof. now apply eqt_spec. Qed.

(** The group of a name after one more vector is filed. *)
Lemma getGroup_addToGroup name x g :
  getGroup name (addToGroup x g) =
  if JS.eqt (sourceFile (chunk x)) name
  then getGroup name g ++ [x] else getGroup name g.
Proof.
  induction g as [|[k vs] g IH]; simpl.
  - destruct (JS.eqt (sourceFile (chunk x)) name); reflexivity.
  - destruct (JS.eqt k (sourceFile (chunk x))) eqn:Ek; simpl.
    + apply eqt_spec in Ek. subst k.
      destruct (JS.eqt (sourceFile (chunk x)) name); reflexivity.
    + destruct (JS.eqt k name) eqn:En; [|exact IH].
      apply eqt_spec in En. subst k.
      destruct (JS.eqt (sourceFile (chunk x)) name) eqn:Ex; [|reflexivity].
      apply eqt_spec in Ex. rewrite Ex, eqt_refl in Ek. discriminate.
Qed.

Lemma getGroup_fold name v vs :
  forall g,
    In v (getGroup name g) \/ (In v vs /\ sourceFile (chunk v) = name) ->
    In v (getGroup name (fold_left (fun g v => addToGroup v g) vs g)).
Proof.
  induction vs as [|x vs IH]; intros g H; simpl.
  - destruct H as [H | [[] _]]. exact H.
  - apply IH. rewrite getGroup_addToGroup.
    destruct H as [H | [[-> | H] Hn]].
    + left. destruct (JS.eqt _ name); [apply in_or_app|]; auto.
    + left. rewrite Hn, eqt_refl. apply in_or_app. right. now left.
    + right. auto.
Qed.

(** Every vector is filed under the name of its document, so the chunk
    count that divides a chunk index is never 0. *)
Lemma member_of_its_group v vs :
  In v vs -> In v (getGroup (sourceFile (chunk v)) (groupByDocument vs)).
Proof. intros H. apply getGroup_fold. right. auto. Qed.

Lemma group_not_empty v vs :
  In v vs -> 0 < length (getGroup (sourceFile (chunk v)) (groupByDocument vs)).
Proof.
  intros H. apply member_of_its_group in H.
  destruct (getGroup _ _); [destruct H | simpl; lia].
Qed.

(** ** The confidence *)



End HandlerFacts.

(** C7. A chunk without any query keyword whose semantic similarity is
    below 0.80 is skipped by the scoring loop before its bonuses are
    computed, and no candidate of the ranked list comes from such a chunk:
    every ranked candidate carries the similarity of its chunk to the
    query, and has a query keyword or a similarity of at least 0.80. *)
Theorem admission_rule (env : Env) (store : list DocumentVector)
  (query : jstring) (s : Scored) (toRank : list Candidate) (c : Candidate) :
  candidatesToRank env store query = Next (s, toRank) ->
  In c (rankedCandidates (info s) toRank) ->
  (forall v sim,
     foundWords (info s) v = 0 -> (sim < 80 # 100)%Q ->
     scoreVector (info s) (chunksByDocument s) v sim = None) /\
  (exists e,
     getEmbedding env query = Some e /\
     calculateSimilarity env e (embedding (vector c)) =
       Some (semanticSimilarity c)) /\
  hasQueryKeywords c = (0 <? foundWords (info s) (vector c)) /\
  ~ (foundWords (info s) (vector c) = 0 /\
     (semanticSimilarity c < 80 # 100)%Q).
Proof.
  intros Hrun Hc.
  assert (Hskip : forall v sim,
            foundWords (info s) v = 0 -> (sim < 80 # 100)%Q ->
            admitted (0 <? foundWords (info s) v) sim = false).
  { intros v sim Hf Hs. rewrite Hf. unfold admitted, Qlt_bool. simpl.
    destruct (Qle_bool (q 80 100) sim) eqn:E; [|reflexivity].
    apply Qle_bool_iff in E. exfalso. apply (Qlt_not_le _ _ Hs E). }
  split.
  { intros v sim Hf Hs. apply HandlerFacts.scoreVector_skipped. now apply Hskip. }
  unfold candidatesToRank in Hrun.
  destruct (score env store query) as [r|s'] eqn:Es; [discriminate|].
  simpl in Hrun.
  destruct (definitionStage env (info s') (chunksByDocument s')
              (vectorsToSearch s') (candidates s')) as [r|l] eqn:Ed;
    [discriminate|].
  simpl in Hrun. injection Hrun as <- <-.
  apply HandlerFacts.rankedCandidates_In in Hc.
  apply (HandlerFacts.definitionStage_In _ _ _ _ _ _ _ Ed) in Hc.
  destruct (HandlerFacts.score_Next _ _ _ _ Es) as [e [He [_ [_ [_ [_ Hall]]]]]].
  destruct (HandlerFacts.scoreAll_In _ _ _ _ _ _ _ Hall Hc) as [sim [_ [Hsim Hv]]].
  destruct (HandlerFacts.scoreVector_spec _ _ _ _ _ Hv) as [_ [Hs [Hk Hadm]]].
  split; [exists e; split; [exact He | now rewrite Hs]|].
  split; [exact Hk|].
  intros [Hf Hlow]. rewrite <- Hs in Hadm.
  rewrite (Hskip _ _ Hf Hlow) in Hadm. discriminate.
Qed.


(** Evaluation of the handler on a closed input. *)
Ltac run := vm_compute; reflexivity.
Ltac runs := repeat (split; [run|]); run.

(** The theorem at the query "What is Acme?" over a store of one chunk. *)
Lemma admission_rule_witness :
  exists s toRank c,
    candidatesToRank Samples.env Samples.introStore (str "What is Acme?")
      = Next (s, toRank) /\
    In c (rankedCandidates (info s) toRank) /\
    hasQueryKeywords c = (0 <? foundWords (info s) (vector c)) /\
    ~ (foundWords (info s) (vector c) = 0 /\
       (semanticSimilarity c < 80 # 100)%Q).
Proof.
  assert (H : exists s toRank c,
             candidatesToRank Samples.env Samples.introStore
               (str "What is Acme?") = Next (s, toRank) /\
             rankedCandidates (info s) toRank = [c]).
  { do 3 eexists. runs. }
  destruct H as [s [toRank [c [E R]]]].
  assert (Hc : In c (rankedCandidates (info s) toRank))
    by (rewrite R; now left).
  exists s, toRank, c.
  split; [exact E|]. split; [exact Hc|].
  apply (admission_rule _ _ _ _ _ c E Hc).
Defined.

(** C1. The confidence of the normal ranking path can be negative: for the
    query "What is Acme?" over a store whose only chunk is the overview
    "This document provides an overview of Acme." at similarity 0.6, the
    chunk is the Tier-2 winner with final score -0.2, and the reply
    carries the confidence -0.06. *)
Theorem confidence_negative_on_overview :
  exists r,
    handler Samples.env Samples.overviewStore (str "What is Acme?") = Json r /\
    answer r = str "This document provides an overview of Acme." /\
    source r = str "acme.txt" /\
    (confidence r == - (6 # 100))%Q /\
    (confidence r < 0)%Q.
Proof.
  eexists. runs.
Qed.

(** C4. A chunk without contrast language can outrank a chunk with it: for
    the query "difference between celonis and agentic platforms", the
    chunk "Celonis is fast but costly." (contrast bonus +0.2, similarity
    0.28) scores 0.53 and the chunk "The difference between Celonis and
    agentic platforms." (no contrast language, bonus -0.4, similarity
    0.96) scores 0.86 in the same pass, and the reply quotes the second. *)
Theorem contrast_chunk_outranked :
  exists s a b r,
    score Samples.env Samples.contrastStore
      (str "difference between celonis and agentic platforms") = Next s /\
    comparisonScoringApplies (info s) = true /\
    candidates s = [a; b] /\
    text (chunk (vector a)) = str "Celonis is fast but costly." /\
    hasContrastLanguage (text (chunk (vector a))) = true /\
    (comparisonBonus a == 2 # 10)%Q /\
    hasContrastLanguage (text (chunk (vector b))) = false /\
    hasDualFraming (text (chunk (vector b))) = false /\
    hasExplicitDualEntity (text (chunk (vector b))) = false /\
    (comparisonBonus b == - (4 # 10))%Q /\
    (finalScore a == 53 # 100)%Q /\
    (finalScore b == 86 # 100)%Q /\
    (finalScore a < finalScore b)%Q /\
    handler Samples.env Samples.contrastStore
      (str "difference between celonis and agentic platforms") = Json r /\
    answer r = text (chunk (vector b)).
Proof.
  do 4 eexists. runs.
Qed.

(** C3, as stated, fails: the query "Compare what data Acme uses vs Bolt"
    is handled both as a comparison query (the comparison filters of Steps
    2.5 to 2.7 apply) and as a data-usage query (the data-usage filter
    applies). *)
Lemma intents_not_exclusive :
  let query := str "Compare what data Acme uses vs Bolt" in
  let i := intentsOf query in
  comparisonFiltersApply query = true /\
  comparisonIntent i = true /\
  dataUsageIntent i = true /\
  countTrue [definitionIntent i; comparisonIntent i;
             dataUsageIntent i; aiUsageIntent i] = 2.
Proof. cbv zeta. runs. Qed.

(** C3, amended. For every query at most one of the three classes
    definition, data-usage and AI-usage applies: a definition query is
    neither, and a data-usage query is no AI-usage query.  A definition
    query gets no comparison scoring, and a query that starts with
    "what is" or "define" as it was typed gets no comparison filter. *)
Theorem intents_priority (query : jstring) :
  let i := intentsOf query in
  countTrue [definitionIntent i; dataUsageIntent i; aiUsageIntent i] <= 1 /\
  (definitionIntent i = true ->
   comparisonScoringApplies (queryInfoOf query) = false) /\
  (isDefinitionQueryEarly query = true ->
   comparisonFiltersApply query = false).
Proof.
  unfold intentsOf, isAIUsageQuery, isDataUsageQuery, comparisonScoringApplies,
    comparisonFiltersApply, countTrue.
  cbv zeta. cbv beta iota delta [definitionIntent dataUsageIntent aiUsageIntent].
  generalize (isDefinition (definitionQuery (queryInfoOf query))) as d.
  generalize (anyTest dataUsagePatterns (Search.query (queryInfoOf query))) as x.
  generalize (anyTest aiUsagePatterns (Search.query (queryInfoOf query))) as y.
  generalize (isComparisonQueryForScoring (Search.query (queryInfoOf query))) as c.
  generalize (isDataQueryForComparison (Search.query (queryInfoOf query))) as c1.
  generalize (isAIQueryForComparison (Search.query (queryInfoOf query))) as c2.
  generalize (isComparisonQueryEarly query) as e.
  generalize (isDefinitionQueryEarly query) as de.
  intros de e c2 c1 c y x d.
  destruct d, x, y, c, c1, c2, e, de; cbn; repeat split; try lia; try discriminate; reflexivity.
Qed.

(** The theorem at the query "What is Acme?". *)
Lemma intents_priority_witness :
  definitionIntent (intentsOf (str "What is Acme?")) = true /\
  isDefinitionQueryEarly (str "What is Acme?") = true /\
  comparisonScoringApplies (queryInfoOf (str "What is Acme?")) = false /\
  comparisonFiltersApply (str "What is Acme?") = false.
Proof.
  split; [vm_compute; reflexivity|].
  split; [vm_compute; reflexivity|].
  pose proof (intents_priority (str "What is Acme?")) as [_ [H1 H2]].
  split; [apply H1 | apply H2]; vm_compute; reflexivity.
Defined.

(* ===================================================================== *)
(** * Properties of the definition stage *)
(* ===================================================================== *)

Module DefinitionFacts.

Lemma filter_none {A} (f : A -> bool) l :
  (forall x, In x l -> f x = false) -> filter f l = [].
Proof.
  induction l as [|x l IH]; intros H; simpl; [reflexivity|].
  rewrite (H x) by now left. apply IH. intros y Hy. apply H. now right.
Qed.


Lemma vectorsToSearchOf_In pe cbd all v :
  In v (vectorsToSearchOf pe cbd all) -> In v all.
Proof.
  unfold vectorsToSearchOf.
  destruct pe as [e|]; [|auto]. destruct (truthy e); [|auto].
  destruct (0 <? length (relevantDocumentNames e cbd)); [|auto].
  intros H. now apply filter_In in H.
Qed.



End DefinitionFacts.

Module PricingQuery.







Section NoPricing.
Variable t : jstring.
Hypothesis no_pricing : JS.includes (JS.toLowerCase t) (str "pricing") = false.




End NoPricing.

End PricingQuery.




Module SynthesisFacts.

Lemma find_both {A} (P Q : A -> bool) (l : list A) (f : A) :
  find P l = Some f -> Q f = true ->
  find (fun v => P v && Q v) l = Some f.
Proof.
  induction l as [|v l IH]; simpl; [discriminate|].
  destruct (P v) eqn:Ev; simpl.
  - intros [= ->] Hq. now rewrite Hq.
  - exact IH.
Qed.

Lemma find_neither {A} (P Q : A -> bool) (l : list A) :
  (forall v, In v l -> P v = true -> Q v = false) ->
  find (fun v => P v && Q v) l = None.
Proof.
  induction l as [|v l IH]; intros H; simpl; [reflexivity|].
  destruct (P v) eqn:Ev; simpl.
  - rewrite (H v (or_introl eq_refl) Ev). apply IH.
    intros x Hx. apply H. now right.
  - apply IH. intros x Hx. apply H. now right.
Qed.

(** What the selection loop ends with: the first first chunk that
    qualifies when there is one; otherwise the chunk it held, or else the
    first chunk that qualifies. *)
Lemma pickIntroChunk_find subj cbd l :
  forall best0,
    pickIntroChunk subj cbd l best0 =
    match find (fun v => qualifiesForSynthesis subj cbd v &&
                         (chunkIndex (chunk v) =? 0)) l with
    | Some first => Some first
    | None =>
        match best0 with
        | Some b => Some b
        | None => find (qualifiesForSynthesis subj cbd) l
        end
    end.
Proof.
  induction l as [|v l IH]; intros best0; simpl; [now destruct best0|].
  unfold qualifiesForSynthesis at 1 3.
  destruct (Qlt_bool (q 30 100) (tierPosition cbd (chunk v))); simpl;
    [apply IH|].
  destruct (test (wordPattern subj) (text (chunk v))); simpl; [|apply IH].
  destruct (chunkIndex (chunk v) =? 0); simpl; [reflexivity|].
  destruct (archIndicatorCount (text (chunk v)) <=? 2); simpl; [|apply IH].
  rewrite IH. destruct (find _ l); [reflexivity|]. now destruct best0.
Qed.

(** The chunk the selection loop ends with: the one it started with, or a
    chunk of the list that qualifies; a chunk other than a first chunk is
    selected only when none was held and no chunk before it qualifies. *)
Lemma pickIntroChunk_spec subj cbd l :
  forall best0 r,
    pickIntroChunk subj cbd l best0 = Some r ->
    best0 = Some r \/
    (In r l /\ qualifiesForSynthesis subj cbd r = true /\
     (chunkIndex (chunk r) <> 0 ->
      best0 = None /\
      exists pre post,
        l = pre ++ r :: post /\
        forall v, In v pre -> qualifiesForSynthesis subj cbd v = false)).
Proof.
  induction l as [|v l IH]; intros best0 r H; simpl in H; [now left|].
  assert (Hskip :
    qualifiesForSynthesis subj cbd v = false ->
    pickIntroChunk subj cbd l best0 = Some r ->
    best0 = Some r \/
    (In r (v :: l) /\ qualifiesForSynthesis subj cbd r = true /\
     (chunkIndex (chunk r) <> 0 ->
      best0 = None /\
      exists pre post,
        v :: l = pre ++ r :: post /\
        forall x, In x pre -> qualifiesForSynthesis subj cbd x = false))).
  { intros Hv Hr. destruct (IH _ _ Hr) as [-> | [Hin [Hq Hfirst]]]; [now left|].
    right. split; [now right|]. split; [exact Hq|].
    intros Hnz. destruct (Hfirst Hnz) as [-> [pre [post [-> Hpre]]]].
    split; [reflexivity|]. exists (v :: pre), post. split; [reflexivity|].
    intros x [<- | Hx]; [exact Hv | now apply Hpre]. }
  unfold qualifiesForSynthesis in Hskip at 1.
  destruct (Qlt_bool (q 30 100) (tierPosition cbd (chunk v))) eqn:Epos.
  { apply Hskip; [reflexivity | exact H]. }
  destruct (test (wordPattern subj) (text (chunk v))) eqn:Esub; simpl in H.
  2:{ apply Hskip; [reflexivity | exact H]. }
  destruct (chunkIndex (chunk v) =? 0) eqn:Ezero.
  { injection H as <-. right. split; [now left|]. split.
    - unfold qualifiesForSynthesis. now rewrite Epos, Esub, Ezero.
    - intros Hnz. apply Nat.eqb_eq in Ezero. contradiction. }
  destruct (archIndicatorCount (text (chunk v)) <=? 2) eqn:Earch.
  2:{ apply Hskip; [reflexivity | exact H]. }
  destruct (IH _ _ H) as [Hb | [Hin [Hq Hfirst]]].
  - destruct best0 as [b|]; [now left|].
    injection Hb as <-. right. split; [now left|]. split.
    + unfold qualifiesForSynthesis. now rewrite Epos, Esub, Ezero, Earch.
    + intros _. split; [reflexivity|]. exists [], l. split; [reflexivity|].
      intros x [].
  - right. split; [now right|]. split; [exact Hq|].
    intros Hnz. destruct (Hfirst Hnz) as [Hnone _].
    destruct best0; discriminate.
Qed.

End SynthesisFacts.

(** C2, as stated, fails: for "What is Acme?" the second chunk of
    guide.txt is a Tier-1 match (position 1/3, "Acme is a data platform",
    no blocked phrase), but the relevance filter keeps acme.txt only, whose
    chunk is no Tier-1 match; both tiers are empty and the reply is the
    definition synthesized from acme.txt. *)
Lemma tier1_match_outside_searched_documents :
  let cbd := groupByDocument Samples.guideStore in
  definitionQuery (queryInfoOf (str "What is Acme?")) =
    {| isDefinition := true; subject := Some (str "Acme") |} /\
  map (fun v => (sourceFile (chunk v), chunkIndex (chunk v)))
      (filter (fun v => isTier1Chunk (str "Acme") cbd (chunk v))
              Samples.guideStore) = [(str "guide.txt", 1)] /\
  exists r,
    handler Samples.env Samples.guideStore (str "What is Acme?") = Json r /\
    source r = str "acme.txt" /\
    answer r = str "Acme is a platform that helps organizations analyze and optimize their operations." /\
    (confidence r == 70 # 100)%Q.
Proof. cbv zeta. split; [run|]. split; [run|]. eexists. runs. Qed.

(** C2, amended. For every definition query, if at least one candidate, a
    chunk of a document the relevance filter keeps that passes the
    admission rule, is a Tier-1 match, then only the Tier-1 candidates are
    ranked, and the reply quotes the Tier-1 candidate of greatest final
    score. *)
Theorem tier1_restricts_ranking (env : Env) (store : list DocumentVector)
  (query : jstring) (s : Scored) (subj : jstring) :
  score env store query = Next s ->
  definitionQuery (info s) = {| isDefinition := true; subject := Some subj |} ->
  tier1Candidates subj (chunksByDocument s) (candidates s) <> [] ->
  candidatesToRank env store query =
    Next (s, tier1Candidates subj (chunksByDocument s) (candidates s)) /\
  exists best,
    In best (tier1Candidates subj (chunksByDocument s) (candidates s)) /\
    In best (candidates s) /\
    isTier1Chunk subj (chunksByDocument s) (chunk (vector best)) = true /\
    (forall c, In c (tier1Candidates subj (chunksByDocument s) (candidates s)) ->
               (finalScore c <= finalScore best)%Q) /\
    handler env store query = Json (bestMatchResponse env (info s) best).
Proof.
  intros Hs Hd Ht.
  assert (Hrun : candidatesToRank env store query =
            Next (s, tier1Candidates subj (chunksByDocument s) (candidates s))).
  { unfold candidatesToRank. rewrite Hs. unfold bind at 1.
    unfold definitionStage. rewrite Hd.
    cbv beta iota delta [isDefinition subject].
    destruct (tier1Candidates subj (chunksByDocument s) (candidates s));
      [contradiction | reflexivity]. }
  split; [exact Hrun|].
  assert (Hdef : isDefinition (definitionQuery (info s)) = true)
    by now rewrite Hd.
  destruct (rank (tier1Candidates subj (chunksByDocument s) (candidates s)))
    as [|best rest_] eqn:Er.
  { apply HandlerFacts.rank_nil in Er. contradiction. }
  destruct (HandlerFacts.rank_head _ _ _ Er) as [Hin Hmax].
  exists best. split; [exact Hin|].
  pose proof Hin as Hf. unfold tier1Candidates in Hf.
  apply filter_In in Hf as [Hc Ht1].
  split; [exact Hc|]. split; [exact Ht1|]. split; [exact Hmax|].
  unfold handler. rewrite Hrun. unfold respond, rankedCandidates.
  rewrite (HandlerFacts.usageFilters_definition _ _ Hdef), Er.
  now rewrite (HandlerFacts.topicCoverageCheck_definition _ _ _ Hdef).
Qed.

(** The theorem at the query "What is Acme?" over a store whose only chunk
    defines Acme. *)
Lemma tier1_restricts_ranking_witness :
  exists s best,
    score Samples.env Samples.introStore (str "What is Acme?") = Next s /\
    In best (tier1Candidates (str "Acme") (chunksByDocument s) (candidates s)) /\
    handler Samples.env Samples.introStore (str "What is Acme?") =
      Json (bestMatchResponse Samples.env (info s) best).
Proof.
  assert (H : exists s c,
             score Samples.env Samples.introStore (str "What is Acme?") = Next s /\
             definitionQuery (info s) =
               {| isDefinition := true; subject := Some (str "Acme") |} /\
             tier1Candidates (str "Acme") (chunksByDocument s) (candidates s)
               = [c]).
  { do 2 eexists. runs. }
  destruct H as [s [c [Hs [Hd Ht]]]].
  destruct (tier1_restricts_ranking Samples.env Samples.introStore
              (str "What is Acme?") s (str "Acme") Hs Hd)
    as [_ [best [Hin [_ [_ [_ Hh]]]]]].
  - rewrite Ht. discriminate.
  - exists s, best. auto.
Defined.

(** C6, as stated, fails: for "What is Acme?" over three documents, the
    first chunk in (document name, chunk index) order that lies in the
    first 30% of its document, names Acme and has at most two architecture
    indicators is chunk 1 of guide.txt; among the documents the relevance
    filter keeps it is chunk 1 of zacme_a.txt; the definition is
    synthesized from chunk 0 of zacme_b.txt. *)
Lemma synthesis_chunk_is_not_the_first :
  let cbd := groupByDocument Samples.synthesisStore in
  let key := fun v => (sourceFile (chunk v), chunkIndex (chunk v)) in
  option_map key
    (find (qualifiesForSynthesis (str "Acme") cbd)
          (sortBy (beforeByPosition Samples.env) Samples.synthesisStore))
    = Some (str "guide.txt", 1) /\
  exists s r,
    score Samples.env Samples.synthesisStore (str "What is Acme?") = Next s /\
    chunksByDocument s = cbd /\
    option_map key
      (find (qualifiesForSynthesis (str "Acme") cbd)
            (sortBy (beforeByPosition Samples.env) (vectorsToSearch s)))
      = Some (str "zacme_a.txt", 1) /\
    tier1Candidates (str "Acme") cbd (candidates s) = [] /\
    tier2Candidates (str "Acme") cbd (candidates s) = [] /\
    option_map key
      (bestIntroChunk Samples.env (str "Acme") cbd (vectorsToSearch s))
      = Some (str "zacme_b.txt", 0) /\
    handler Samples.env Samples.synthesisStore (str "What is Acme?") = Json r /\
    source r = str "zacme_b.txt" /\
    (confidence r == 70 # 100)%Q.
Proof. cbv zeta. split; [run|]. do 2 eexists. runs. Qed.

(** C6, amended. Whenever the definition synthesis fallback fires (a
    definition query, both tiers empty, an intro chunk selected), the
    chunk is selected among the chunks of the documents the relevance
    filter keeps, sorted by (document name, chunk index): it lies in the
    first 30% of its document, contains the subject, and is a chunk 0 or
    has at most two architecture indicators.  It is the first chunk in
    that order that satisfies these conditions whenever that first chunk
    is a chunk 0 or no chunk 0 satisfies them, and whenever the selected
    chunk is not a chunk 0.  The reply is the sentence "<subject> is a <category> that <purpose>." built from
    the text of that chunk, with confidence 0.70 and the document of the
    chunk as source; no score and no snippet enters it. *)
Theorem synthesis_fallback_reply (env : Env) (store : list DocumentVector)
  (query : jstring) (s : Scored) (subj : jstring) (best : DocumentVector) :
  score env store query = Next s ->
  definitionQuery (info s) = {| isDefinition := true; subject := Some subj |} ->
  tier1Candidates subj (chunksByDocument s) (candidates s) = [] ->
  tier2Candidates subj (chunksByDocument s) (candidates s) = [] ->
  bestIntroChunk env subj (chunksByDocument s) (vectorsToSearch s) = Some best ->
  handler env store query =
    Json {| answer :=
              subj ++ str " is a " ++ categoryPartOf (text (chunk best)) ++
              str " that " ++ purposePartOf (text (chunk best)) ++ str ".";
            source := sourceFile (chunk best);
            confidence := 70 # 100;
            explanation :=
              Some (str "Definition synthesized due to absence of explicit definition sentence") |} /\
  In best (vectorsToSearch s) /\
  qualifiesForSynthesis subj (chunksByDocument s) best = true /\
  (forall first,
     find (qualifiesForSynthesis subj (chunksByDocument s))
          (sortBy (beforeByPosition env) (vectorsToSearch s)) = Some first ->
     chunkIndex (chunk first) = 0 \/
     (forall v, In v (vectorsToSearch s) ->
                qualifiesForSynthesis subj (chunksByDocument s) v = true ->
                chunkIndex (chunk v) <> 0) ->
     best = first) /\
  (chunkIndex (chunk best) <> 0 ->
   exists pre post,
     sortBy (beforeByPosition env) (vectorsToSearch s) = pre ++ best :: post /\
     forall v, In v pre ->
               qualifiesForSynthesis subj (chunksByDocument s) v = false).
Proof.
  intros Hs Hd Ht1 Ht2 Hb.
  split.
  - unfold handler, candidatesToRank. rewrite Hs. unfold bind at 1.
    unfold definitionStage. rewrite Hd.
    cbv beta iota delta [isDefinition subject].
    rewrite Ht1, Ht2, Hb. reflexivity.
  - unfold bestIntroChunk in Hb.
    destruct (SynthesisFacts.pickIntroChunk_spec _ _ _ _ _ Hb)
      as [Hnone | [Hin [Hq Hfirst]]]; [discriminate|].
    split; [exact (proj1 (HandlerFacts.sortBy_In _ _ _) Hin)|].
    split; [exact Hq|].
    split; [|intros Hnz; destruct (Hfirst Hnz) as [_ H]; exact H].
    intros first Hf Hcase.
    rewrite SynthesisFacts.pickIntroChunk_find in Hb.
    destruct Hcase as [Hz | Hz].
    + rewrite (SynthesisFacts.find_both _
                 (fun v => chunkIndex (chunk v) =? 0) _ _ Hf) in Hb
        by (now apply Nat.eqb_eq).
      now injection Hb.
    + rewrite SynthesisFacts.find_neither in Hb.
      * rewrite Hf in Hb. now injection Hb.
      * intros v Hv Hqv. apply Nat.eqb_neq. apply Hz; [|exact Hqv].
        exact (proj1 (HandlerFacts.sortBy_In _ _ _) Hv).
Qed.

(** The theorem at the query "What is Acme?" over the guide store. *)
Lemma synthesis_fallback_reply_witness :
  exists r,
    handler Samples.env Samples.guideStore (str "What is Acme?") = Json r /\
    answer r = str "Acme is a platform that helps organizations analyze and optimize their operations." /\
    source r = str "acme.txt".
Proof.
  assert (H : exists s best,
             score Samples.env Samples.guideStore (str "What is Acme?") = Next s /\
             definitionQuery (info s) =
               {| isDefinition := true; subject := Some (str "Acme") |} /\
             tier1Candidates (str "Acme") (chunksByDocument s) (candidates s) = [] /\
             tier2Candidates (str "Acme") (chunksByDocument s) (candidates s) = [] /\
             bestIntroChunk Samples.env (str "Acme") (chunksByDocument s)
               (vectorsToSearch s) = Some best /\
             str "Acme" ++ str " is a " ++ categoryPartOf (text (chunk best)) ++
             str " that " ++ purposePartOf (text (chunk best)) ++ str "." =
             str "Acme is a platform that helps organizations analyze and optimize their operations." /\
             sourceFile (chunk best) = str "acme.txt").
  { do 2 eexists. runs. }
  destruct H as [s [best [Hs [Hd [Ht1 [Ht2 [Hb [Ha Hf]]]]]]]].
  destruct (synthesis_fallback_reply Samples.env Samples.guideStore
              (str "What is Acme?") s (str "Acme") best Hs Hd Ht1 Ht2 Hb)
    as [Hh _].
  eexists. split; [exact Hh|]. split; [exact Ha | exact Hf].
Defined.

(* ===================================================================== *)
(** * Properties of the comparison filters and bonuses *)
(* ===================================================================== *)

Module ComparisonFacts.

(** A chunk kept as fallback matches the entity pattern. *)
Lemma categorize_other ee range i v :
  categorize ee range i v = OtherValid ->
  test (entity1Pattern ee) (text (chunk v)) = true.
Proof.
  unfold categorize.
  destruct (chunkIndex (chunk v) =? 0); [discriminate|].
  destruct (isOverviewOrScope (text (chunk v)) &&
            negb match range with
                 | Some (s, e) => (s <=? i) && (i <? e)
                 | None => false
                 end); [discriminate|].
  destruct (negb (test (entity1Pattern ee) (text (chunk v))) &&
            negb match range with
                 | Some (s, e) => (s <=? i) && (i <? e)
                 | None => false
                 end); [discriminate|].
  destruct (match range with
            | Some (s, e) => (s <=? i) && (i <? e)
            | None => false
            end); [discriminate|].
  destruct (test (entity1Pattern ee) (text (chunk v))); [reflexivity|discriminate].
Qed.

Lemma categorizeFrom_In ee range l :
  forall i v c, In (v, c) (categorizeFrom ee range i l) ->
  exists j, c = categorize ee range j v.
Proof.
  induction l as [|x l IH]; intros i v c H; simpl in H; [destruct H|].
  destruct H as [[= <- <-] | H]; [now exists i | eapply IH; eassumption].
Qed.

Lemma otherChunks_entity ee all v :
  In v (otherChunks ee all) ->
  test (entity1Pattern ee) (text (chunk v)) = true.
Proof.
  unfold otherChunks. intros H.
  apply in_map_iff in H as [[v' c] [<- H]].
  apply filter_In in H as [H Hc]. simpl in Hc.
  destruct c; try discriminate.
  unfold categorizeAll in H. apply in_flat_map in H as [g [_ H]].
  unfold categorizeDocument in H.
  apply categorizeFrom_In in H as [j H].
  symmetry in H. now apply categorize_other in H.
Qed.

(** A text one of whose patterns is found has the word the patterns
    require. *)
Lemma anyTest_requires w ps t :
  forallb (fun p => requires w (node p)) ps = true ->
  anyTest ps t = true ->
  JS.includes (JS.toLowerCase t) w = true.
Proof.
  intros Hreq Hany.
  destruct (JS.includes (JS.toLowerCase t) w) eqn:E; [reflexivity|].
  exfalso. unfold anyTest in Hany.
  induction ps as [|p ps IH]; [discriminate|].
  simpl in Hreq, Hany. apply andb_prop in Hreq as [Hp Hps].
  rewrite (RegexFacts.test_requires _ _ _ Hp E) in Hany. now apply IH.
Qed.

Lemma first_five_name_both :
  forallb (fun p => requires (str "celonis") (node p))
          (firstn 5 explicitDualEntityPatterns) = true /\
  forallb (fun p => requires (str "agentic") (node p))
          (firstn 5 explicitDualEntityPatterns) = true.
Proof. split; run. Qed.

Lemma Qeq_6_4 : ~ (q 6 10 == 4 # 10)%Q.
Proof. intros H. vm_compute in H. discriminate. Qed.

Lemma Qeq_2_4 : ~ (q 2 10 == 4 # 10)%Q.
Proof. intros H. vm_compute in H. discriminate. Qed.

Lemma Qeq_m4_4 : ~ (q (-4) 10 == 4 # 10)%Q.
Proof. intros H. vm_compute in H. discriminate. Qed.

Lemma Qeq_4_6 : ~ (q 4 10 == 6 # 10)%Q.
Proof. intros H. vm_compute in H. discriminate. Qed.

Lemma Qeq_2_6 : ~ (q 2 10 == 6 # 10)%Q.
Proof. intros H. vm_compute in H. discriminate. Qed.

Lemma Qeq_m4_6 : ~ (q (-4) 10 == 6 # 10)%Q.
Proof. intros H. vm_compute in H. discriminate. Qed.

End ComparisonFacts.

(** C10, as stated, fails: for "Compare Acme vs Bolt" the chunk "Acme
    finds problems while Bolt executes tasks." earns the +0.6 explicit
    contrast bonus, and it mentions neither "celonis" nor "agentic". *)
Lemma explicit_contrast_bonus_without_entities :
  exists s c,
    score Samples.env Samples.boltStore (str "Compare Acme vs Bolt") = Next s /\
    comparisonScoringApplies (info s) = true /\
    candidates s = [c] /\
    text (chunk (vector c)) =
      str "Acme finds problems while Bolt executes tasks." /\
    (comparisonBonus c == 6 # 10)%Q /\
    JS.includes (JS.toLowerCase (text (chunk (vector c)))) (str "celonis")
      = false /\
    JS.includes (JS.toLowerCase (text (chunk (vector c)))) (str "agentic")
      = false.
Proof. do 2 eexists. runs. Qed.

(** C10, amended. The comparison chunk filter and the contrast bonuses are
    fixed in the code, whatever entities the query names.  For a
    comparison query without a capitalized entity, a chunk the filter
    keeps lies in the comparison section of its document or contains the
    word "celonis".  The +0.4 bonus is given only to chunks that mention
    both "celonis" and "agentic".  The +0.6 bonus is given exactly to the
    chunks that match one of ten fixed patterns; the first five of them
    are found only in chunks that contain "celonis" and "agentic", the
    other five are fixed phrases.  Two queries that both get comparison
    scoring give a chunk the same bonus and penalty. *)
Theorem comparison_rules_are_fixed :
  (forall query store kept v,
     comparisonFiltersApply query = true ->
     extractEntityEarly query = None ->
     comparisonFilters query store = Next kept ->
     In v kept ->
     In v (comparisonSectionChunks None store) \/
     test celonis (text (chunk v)) = true) /\
  (forall t,
     (comparisonBonusOf t == 4 # 10)%Q -> mentionsBothEntities t = true) /\
  (forall t,
     (comparisonBonusOf t == 6 # 10)%Q <-> hasExplicitDualEntity t = true) /\
  (forall t,
     anyTest (firstn 5 explicitDualEntityPatterns) t = true ->
     JS.includes (JS.toLowerCase t) (str "celonis") = true /\
     JS.includes (JS.toLowerCase t) (str "agentic") = true) /\
  (forall qi1 qi2 cbd v,
     comparisonScoringApplies qi1 = true ->
     comparisonScoringApplies qi2 = true ->
     comparisonTerms qi1 cbd v = comparisonTerms qi2 cbd v).
Proof.
  split; [|split; [|split; [|split]]].
  - intros query store kept v Hg He Hk Hv.
    unfold comparisonFilters in Hk. rewrite He, Hg in Hk.
    cbv beta iota zeta in Hk.
    destruct (0 <? length store) eqn:El.
    + cbv beta iota delta [andb] in Hk.
      destruct (comparisonSectionChunks None store) as [|x l] eqn:Es.
      * destruct (otherChunks None store) as [|y l'] eqn:Eo; [discriminate|].
        injection Hk as <-. right. rewrite <- Eo in Hv.
        exact (ComparisonFacts.otherChunks_entity None store v Hv).
      * injection Hk as <-. now left.
    + cbv beta iota delta [andb] in Hk. injection Hk as <-.
      destruct store; [destruct Hv | discriminate].
  - intros t. unfold comparisonBonusOf.
    destruct (hasExplicitDualEntity t).
    { intros H. now apply ComparisonFacts.Qeq_6_4 in H. }
    destruct ((hasContrastLanguage t || hasDualFraming t) &&
              mentionsBothEntities t) eqn:E.
    { intros _. now apply andb_prop in E as [_ E]. }
    destruct (hasContrastLanguage t || hasDualFraming t); intros H.
    + now apply ComparisonFacts.Qeq_2_4 in H.
    + now apply ComparisonFacts.Qeq_m4_4 in H.
  - intros t. unfold comparisonBonusOf.
    destruct (hasExplicitDualEntity t).
    { split; [reflexivity | intros _; apply Qeq_refl]. }
    split; [|discriminate].
    destruct ((hasContrastLanguage t || hasDualFraming t) &&
              mentionsBothEntities t).
    { intros H. now apply ComparisonFacts.Qeq_4_6 in H. }
    destruct (hasContrastLanguage t || hasDualFraming t); intros H.
    + now apply ComparisonFacts.Qeq_2_6 in H.
    + now apply ComparisonFacts.Qeq_m4_6 in H.
  - intros t H. destruct ComparisonFacts.first_five_name_both as [Hc Ha].
    split; eapply ComparisonFacts.anyTest_requires; eassumption.
  - intros qi1 qi2 cbd v H1 H2. unfold comparisonTerms. now rewrite H1, H2.
Qed.

(** The theorem at the query "difference between celonis and agentic
    platforms" over the guide with a contrast chunk. *)
Lemma comparison_rules_are_fixed_witness :
  Forall (fun v => test celonis (text (chunk v)) = true)
         (otherChunks None Samples.contrastStore) /\
  mentionsBothEntities (str "Celonis is fast but agentic tools are slow.")
    = true.
Proof.
  pose proof comparison_rules_are_fixed as [Hkeep [Hboth _]].
  split.
  - assert (Hk : exists kept,
               comparisonFilters
                 (str "difference between celonis and agentic platforms")
                 Samples.contrastStore = Next kept /\
               kept = otherChunks None Samples.contrastStore /\
               comparisonSectionChunks None Samples.contrastStore = []).
    { eexists. runs. }
    destruct Hk as [kept [Hk [Hkept Hsec]]].
    rewrite <- Hkept. apply Forall_forall. intros v Hv.
    destruct (Hkeep (str "difference between celonis and agentic platforms")
                Samples.contrastStore kept v) as [H | H];
      [run | run | exact Hk | exact Hv | | exact H].
    rewrite Hsec in H. destruct H.
  - apply Hboth. run.
Defined.

(* ===================================================================== *)
(** * Sample runs *)
(* ===================================================================== *)

Module Runs.

Example normalize_sample :
  normalizeTextForMatching (str "  What is  Acme's PRICING?? ") =
  str "what is acme s pricing".
Proof. run. Qed.

Example word_boundary_sample :
  test (rxi "\bvs\.?\b") (str "Acme VS. Bolt") = true /\
  test (rxi "\bvs\.?\b") (str "Acme canvas") = false.
Proof. runs. Qed.

Example capture_sample :
  let line := str "6.1  Difference Between" in
  option_map (fun m => group 2 m line)
             (exec (rx "^(\d+\.[\d.]*)\s+(.+)$") line) =
  Some (Some (str "Difference Between")).
Proof. run. Qed.

Example lazy_capture_sample :
  let t := str "It provides a way to organizations for x" in
  option_map (fun m => (matched m t, group 1 m t))
    (exec (rxi "provides?\s+([^.]+?)\s+(for|to)\s+(organizations?|companies?|businesses?)") t) =
  Some (str "provides a way to organizations", Some (str "a way")).
Proof. run. Qed.

Example escape_sample :
  escapeRegExp (str "C++ (x)") = str "C\+\+ \(x\)".
Proof. run. Qed.

(** The scenario of the specification: one chunk that defines Acme. *)
Example definition_scenario :
  exists r,
    handler Samples.env Samples.introStore (str "What is Acme?") = Json r /\
    answer r = str "Acme is a data platform that helps teams analyze logs." /\
    source r = str "intro.txt" /\
    (confidence r == 74 # 100)%Q.
Proof. eexists. runs. Qed.

Example empty_store_scenario :
  handler Samples.env [] (str "anything") = Json noDocumentsResponse.
Proof. run. Qed.

Example empty_query_scenario :
  handler Samples.env Samples.introStore (str "   ") = BadRequest.
Proof. run. Qed.

(** A query that is no definition query and whose topic the document does
    not cover. *)
Example topic_coverage_scenario :
  exists r,
    handler Samples.env Samples.introStore (str "Acme pricing") = Json r /\
    answer r =
      str "No information about " ++ [dquote] ++ str "pricing" ++ [dquote] ++
      str " found in the documents about Acme." /\
    (confidence r == 0)%Q.
Proof. eexists. runs. Qed.

(** The chunks of an uploaded text of 2400 characters. *)
Example chunkText_sample :
  map (fun c => (chunkIndex c, startIndex c, endIndex c))
      (chunkText Samples.guideText (str "guide.txt") None) =
  [(0, 0, 1000); (1, 800, 1800); (2, 1600, 2400); (3, 2200, 2400)].
Proof. run. Qed.

(** The ranking of [contrast_chunk_outranked] on the chunks of an uploaded
    file: chunk 1 holds "Celonis is fast but costly." and scores 0.53,
    chunk 2 holds no contrast language and scores 0.86. *)
Example contrast_chunk_outranked_after_upload :
  exists s a b,
    score Samples.env Samples.uploadedGuideStore
      (str "difference between celonis and agentic platforms") = Next s /\
    candidates s = [a; b] /\
    chunkIndex (chunk (vector a)) = 1 /\
    chunkIndex (chunk (vector b)) = 2 /\
    hasContrastLanguage (text (chunk (vector a))) = true /\
    hasContrastLanguage (text (chunk (vector b))) = false /\
    hasDualFraming (text (chunk (vector b))) = false /\
    hasExplicitDualEntity (text (chunk (vector b))) = false /\
    (finalScore a == 53 # 100)%Q /\
    (finalScore b == 86 # 100)%Q.
Proof. do 3 eexists. runs. Qed.

End Runs.

Module ChunkerFacts.

(** The chunk the loop cuts at [start]. *)
Lemma chunkLoop_step fuel t file size start index :
  start < length t ->
  chunkLoop (S fuel) t file size start index =
  {| text := JS.substring start (Nat.min (start + CHUNK_SIZE) (length t)) t;
     sourceFile := file;
     chunkIndex := index;
     startIndex := start;
     endIndex := Nat.min (start + CHUNK_SIZE) (length t);
     fileSize := size |}
  :: chunkLoop fuel t file size
       (if Nat.min (start + CHUNK_SIZE) (length t) - CHUNK_OVERLAP <=? start
        then Nat.min (start + CHUNK_SIZE) (length t)
        else Nat.min (start + CHUNK_SIZE) (length t) - CHUNK_OVERLAP)
       (S index).
Proof.
  intros H. cbn [chunkLoop].
  destruct (Nat.ltb_spec start (length t)) as [_|C]; [reflexivity | lia].
Qed.

Lemma chunkLoop_done fuel t file size start index :
  length t <= start -> chunkLoop fuel t file size start index = [].
Proof.
  intros H. destruct fuel; [reflexivity|]. cbn [chunkLoop].
  destruct (Nat.ltb_spec start (length t)) as [C|_]; [lia | reflexivity].
Qed.

Lemma substring_length a b (t : jstring) :
  a <= b -> b <= length t -> length (JS.substring a b t) = b - a.
Proof.
  intros H1 H2. unfold JS.substring.
  rewrite length_firstn, length_skipn. lia.
Qed.

(** Every chunk of the loop is a non-empty piece of the text, of at most
    [CHUNK_SIZE] characters, that starts at or after [start]. *)
Lemma chunkLoop_chunk fuel t file size :
  forall start index c,
    In c (chunkLoop fuel t file size start index) ->
    start <= startIndex c /\ startIndex c < endIndex c /\
    endIndex c <= length t /\
    endIndex c - startIndex c <= CHUNK_SIZE /\
    text c = JS.substring (startIndex c) (endIndex c) t /\
    sourceFile c = file /\ fileSize c = size /\ index <= chunkIndex c.
Proof.
  induction fuel as [|fuel IH]; intros start index c H; [destruct H|].
  destruct (Nat.lt_ge_cases start (length t)) as [L|L].
  - rewrite chunkLoop_step in H by exact L.
    destruct H as [<- | H]; cbn [startIndex endIndex text sourceFile fileSize chunkIndex].
    + unfold CHUNK_SIZE. repeat split; try lia.
    + apply IH in H. unfold CHUNK_SIZE, CHUNK_OVERLAP in *.
      destruct (Nat.leb_spec (Nat.min (start + 1000) (length t) - 200) start);
        intuition lia.
  - rewrite chunkLoop_done in H by exact L. destruct H.
Qed.

Lemma chunkLoop_indexes fuel t file size :
  forall start index,
    map chunkIndex (chunkLoop fuel t file size start index) =
    seq index (length (chunkLoop fuel t file size start index)).
Proof.
  induction fuel as [|fuel IH]; intros start index; [reflexivity|].
  destruct (Nat.lt_ge_cases start (length t)) as [L|L].
  - rewrite chunkLoop_step by exact L. cbn [map length seq chunkIndex].
    f_equal. apply IH.
  - rewrite chunkLoop_done by exact L. reflexivity.
Qed.

Lemma chunkLoop_length fuel t file size :
  forall start index,
    length (chunkLoop fuel t file size start index) <= fuel.
Proof.
  induction fuel as [|fuel IH]; intros start index; [simpl; lia|].
  destruct (Nat.lt_ge_cases start (length t)) as [L|L].
  - rewrite chunkLoop_step by exact L. cbn [length].
    specialize (IH (if Nat.min (start + CHUNK_SIZE) (length t) - CHUNK_OVERLAP <=? start
        then Nat.min (start + CHUNK_SIZE) (length t)
        else Nat.min (start + CHUNK_SIZE) (length t) - CHUNK_OVERLAP) (S index)).
    lia.
  - rewrite chunkLoop_done by exact L. simpl. lia.
Qed.

#[local] Abbreviation stride := (CHUNK_SIZE - CHUNK_OVERLAP) (only parsing).

(** With enough iterations left, the chunks cover the text from [start] on. *)
Lemma chunkLoop_covers fuel t file size :
  forall start index i,
    match fuel with
    | 0 => length t <= start
    | S f => length t <= start + CHUNK_SIZE + stride * f
    end ->
    start <= i < length t ->
    exists c, In c (chunkLoop fuel t file size start index) /\
              startIndex c <= i < endIndex c.
Proof.
  induction fuel as [|fuel IH]; intros start index i Hf Hi; [lia|].
  rewrite chunkLoop_step by lia.
  unfold CHUNK_SIZE, CHUNK_OVERLAP in *.
  destruct (Nat.lt_ge_cases i (Nat.min (start + 1000) (length t))) as [L|L].
  - eexists. split; [left; reflexivity|]. cbn [startIndex endIndex]. lia.
  - assert (E : Nat.min (start + 1000) (length t) = start + 1000) by lia.
    rewrite E in *.
    destruct (Nat.leb_spec (start + 1000 - 200) start) as [C|C]; [lia|].
    destruct (IH (start + 1000 - 200) (S index) i) as [c [Hc Hr]].
    + destruct fuel; lia.
    + lia.
    + exists c. split; [right; exact Hc | exact Hr].
Qed.

(** The chunk of index [k] starts at or before character [stride * k]. *)
Lemma chunkLoop_bound fuel t file size :
  forall start index c,
    start <= stride * index ->
    In c (chunkLoop fuel t file size start index) ->
    startIndex c <= stride * chunkIndex c /\ chunkIndex c < index + fuel.
Proof.
  induction fuel as [|fuel IH]; intros start index c Hs H; [destruct H|].
  destruct (Nat.lt_ge_cases start (length t)) as [L|L].
  - rewrite chunkLoop_step in H by exact L.
    destruct H as [<- | H]; cbn [startIndex chunkIndex]; [lia|].
    apply IH in H; [lia|].
    unfold CHUNK_SIZE, CHUNK_OVERLAP in *.
    destruct (Nat.leb_spec (Nat.min (start + 1000) (length t) - 200) start); lia.
  - rewrite chunkLoop_done in H by exact L. destruct H.
Qed.

(** Two chunks that follow each other. *)
Lemma chunkLoop_next fuel t file size :
  forall start index k c d,
    nth_error (chunkLoop fuel t file size start index) k = Some c ->
    nth_error (chunkLoop fuel t file size start index) (S k) = Some d ->
    startIndex d + CHUNK_OVERLAP = endIndex c /\
    startIndex c < startIndex d /\ endIndex c <= endIndex d.
Proof.
  induction fuel as [|fuel IH]; intros start index k c d Hc Hd;
    [destruct k; discriminate|].
  destruct (Nat.lt_ge_cases start (length t)) as [L|L].
  - rewrite chunkLoop_step in Hc, Hd by exact L.
    destruct k as [|k].
    + injection Hc as <-. cbn [startIndex endIndex].
      match type of Hd with nth_error (_ :: ?l) _ = _ =>
        change (nth_error l 0 = Some d) in Hd end.
      unfold CHUNK_SIZE, CHUNK_OVERLAP in *.
      destruct (Nat.leb_spec (Nat.min (start + 1000) (length t) - 200) start) as [C|C].
      * destruct (Nat.lt_ge_cases (Nat.min (start + 1000) (length t)) (length t)) as [L2|L2];
          [lia|].
        rewrite chunkLoop_done in Hd by exact L2. discriminate.
      * destruct fuel as [|fuel]; [discriminate|].
        rewrite chunkLoop_step in Hd by lia.
        injection Hd as <-. cbn [startIndex endIndex].
        unfold CHUNK_SIZE. lia.
    + match type of Hc with nth_error (_ :: ?l) _ = _ =>
        change (nth_error l k = Some c) in Hc end.
      match type of Hd with nth_error (_ :: ?l) _ = _ =>
        change (nth_error l (S k) = Some d) in Hd end.
      eapply IH; eassumption.
  - rewrite chunkLoop_done in Hc by exact L. destruct k; discriminate.
Qed.

(** The end of the loop: once the window reaches the end of the text, the
    loop cuts one more chunk of the last [CHUNK_OVERLAP] characters. *)
Lemma chunkLoop_tail fuel t file size :
  forall start index,
    start < length t ->
    CHUNK_OVERLAP < length t - start ->
    length t <= start + CHUNK_SIZE + stride * fuel ->
    exists pre c d,
      chunkLoop (S (S fuel)) t file size start index = pre ++ [c; d] /\
      endIndex c = length t /\
      startIndex d = length t - CHUNK_OVERLAP /\ endIndex d = length t.
Proof.
  induction fuel as [|fuel IH]; intros start index L Ho Hf.
  - unfold CHUNK_SIZE, CHUNK_OVERLAP in *.
    exists []. rewrite chunkLoop_step by exact L.
    unfold CHUNK_SIZE, CHUNK_OVERLAP.
    replace (Nat.min (start + 1000) (length t)) with (length t) by lia.
    destruct (Nat.leb_spec (length t - 200) start) as [C|C]; [lia|].
    rewrite chunkLoop_step by lia.
    unfold CHUNK_SIZE, CHUNK_OVERLAP.
    replace (Nat.min (length t - 200 + 1000) (length t)) with (length t) by lia.
    do 2 eexists. split; [reflexivity|]. cbn [startIndex endIndex]. lia.
  - destruct (Nat.le_gt_cases (length t) (start + CHUNK_SIZE)) as [E|E].
    + (* the window already reaches the end *)
      unfold CHUNK_SIZE, CHUNK_OVERLAP in *.
      exists []. rewrite chunkLoop_step by exact L.
      unfold CHUNK_SIZE, CHUNK_OVERLAP.
      replace (Nat.min (start + 1000) (length t)) with (length t) by lia.
      destruct (Nat.leb_spec (length t - 200) start) as [C|C]; [lia|].
      rewrite chunkLoop_step by lia.
      unfold CHUNK_SIZE, CHUNK_OVERLAP.
      replace (Nat.min (length t - 200 + 1000) (length t)) with (length t) by lia.
      rewrite Nat.leb_refl, chunkLoop_done by lia.
      do 2 eexists. split; [reflexivity|]. cbn [startIndex endIndex]. lia.
    + rewrite chunkLoop_step by exact L.
      unfold CHUNK_SIZE, CHUNK_OVERLAP in *.
      replace (Nat.min (start + 1000) (length t)) with (start + 1000) by lia.
      destruct (Nat.leb_spec (start + 1000 - 200) start) as [C|C]; [lia|].
      destruct (IH (start + 1000 - 200) (S index)) as [pre [c [d [Hp Hr]]]];
        try lia.
      rewrite Hp. eexists (_ :: pre), c, d. split; [reflexivity | exact Hr].
Qed.


Lemma chunkText_unfold (t file : jstring) (size : option nat) :
  chunkText t file size = chunkLoop maxChunks t file size 0 0.
Proof. reflexivity. Qed.

(** The file name and the file size of a chunk are those of the call. *)
Lemma chunkText_carries t file size c :
  In c (chunkText t file size) -> sourceFile c = file /\ fileSize c = size.
Proof.
  rewrite chunkText_unfold. intros H. apply chunkLoop_chunk in H. tauto.
Qed.

Lemma maxChunks_S : maxChunks = S (S (maxChunks - 2)).
Proof. unfold maxChunks. lia. Qed.

(** A text that is not empty has a first chunk. *)
Lemma chunkText_not_nil t file size :
  0 < length t -> chunkText t file size <> [].
Proof.
  intros H. rewrite chunkText_unfold, maxChunks_S.
  rewrite chunkLoop_step by exact H. discriminate.
Qed.

End ChunkerFacts.

(** X1. Every chunk [chunkText] returns is a non-empty piece of the text:
    its text is the characters from [startIndex] to [endIndex], at least
    one and at most 1000 of them, and it carries the file name and the file
    size the chunker was given. *)
Theorem chunkText_chunk_is_a_piece (t file : jstring) (size : option nat)
  (c : DocumentChunk) :
  In c (chunkText t file size) ->
  startIndex c < endIndex c /\ endIndex c <= length t /\
  text c = JS.substring (startIndex c) (endIndex c) t /\
  length (text c) = endIndex c - startIndex c /\
  length (text c) <= CHUNK_SIZE /\
  sourceFile c = file /\ fileSize c = size.
Proof.
  intros H. rewrite ChunkerFacts.chunkText_unfold in H. apply ChunkerFacts.chunkLoop_chunk in H.
  destruct H as (_ & H1 & H2 & H3 & H4 & H5 & H6 & _).
  assert (L : length (text c) = endIndex c - startIndex c).
  { rewrite H4. apply ChunkerFacts.substring_length; lia. }
  repeat split; try assumption; lia.
Qed.

Lemma chunkText_chunk_is_a_piece_witness :
  exists c,
    In c (chunkText (str "Acme is a tool.") (str "acme.txt") (Some 15)) /\
    text c = str "Acme is a tool." /\ sourceFile c = str "acme.txt" /\
    fileSize c = Some 15.
Proof.
  assert (H : exists c,
             chunkText (str "Acme is a tool.") (str "acme.txt") (Some 15) = [c]).
  { eexists. vm_compute. reflexivity. }
  destruct H as [c E]. exists c.
  assert (Hc : In c (chunkText (str "Acme is a tool.") (str "acme.txt") (Some 15)))
    by (rewrite E; now left).
  split; [exact Hc|].
  destruct (chunkText_chunk_is_a_piece _ _ _ c Hc) as (_ & _ & Ht & _ & _ & Hf & Hs).
  split; [|split; assumption].
  rewrite Ht. injection E as <-. reflexivity.
Defined.

(** X2. The chunks of a text are numbered 0, 1, 2, ... in the order they
    are returned, and there are never more than 10000 of them.  The chunk
    of index [k] ends at or before character [800 * k + 1000], so no chunk
    reaches beyond character 8,000,200: what a longer text holds after that
    is in no chunk. *)
Theorem chunkText_indexes_and_reach (t file : jstring) (size : option nat) :
  map chunkIndex (chunkText t file size) =
    seq 0 (length (chunkText t file size)) /\
  length (chunkText t file size) <= maxChunks /\
  forall c, In c (chunkText t file size) ->
    chunkIndex c < maxChunks /\
    endIndex c <= (CHUNK_SIZE - CHUNK_OVERLAP) * chunkIndex c + CHUNK_SIZE /\
    endIndex c <= CHUNK_SIZE + (CHUNK_SIZE - CHUNK_OVERLAP) * (maxChunks - 1).
Proof.
  rewrite !ChunkerFacts.chunkText_unfold. split; [|split].
  - apply ChunkerFacts.chunkLoop_indexes.
  - apply ChunkerFacts.chunkLoop_length.
  - intros c H.
    pose proof (ChunkerFacts.chunkLoop_chunk _ _ _ _ _ _ _ H)
      as (_ & _ & _ & H4 & _).
    apply ChunkerFacts.chunkLoop_bound in H; [|lia].
    destruct H as [H1 H2].
    unfold CHUNK_SIZE, CHUNK_OVERLAP, maxChunks in *. lia.
Qed.

(** X3. Every character of a text of at most 8,000,200 characters (1000 for
    the first chunk and 800 for each of the 9999 others) lies in one of its
    chunks. *)
Theorem chunkText_covers (t file : jstring) (size : option nat) (i : nat) :
  length t <= CHUNK_SIZE + (CHUNK_SIZE - CHUNK_OVERLAP) * (maxChunks - 1) ->
  i < length t ->
  exists c, In c (chunkText t file size) /\ startIndex c <= i < endIndex c.
Proof.
  intros Hl Hi. rewrite !ChunkerFacts.chunkText_unfold.
  rewrite ChunkerFacts.maxChunks_S in Hl |- *.
  apply ChunkerFacts.chunkLoop_covers; [|lia].
  unfold CHUNK_SIZE, CHUNK_OVERLAP in *. lia.
Qed.

Lemma chunkText_covers_witness :
  exists c,
    In c (chunkText (str "Acme is a tool.") (str "acme.txt") None) /\
    startIndex c <= 5 < endIndex c.
Proof.
  apply (chunkText_covers (str "Acme is a tool.") (str "acme.txt") None 5).
  - change (length (str "Acme is a tool.")) with 15.
    unfold CHUNK_SIZE, CHUNK_OVERLAP, maxChunks. lia.
  - change (length (str "Acme is a tool.")) with 15. lia.
Defined.

(** X4. Two chunks that follow each other overlap by exactly 200
    characters: the later one starts 200 characters before the end of the
    earlier one, and after its start. *)
Theorem chunkText_overlap (t file : jstring) (size : option nat) (k : nat)
  (c d : DocumentChunk) :
  nth_error (chunkText t file size) k = Some c ->
  nth_error (chunkText t file size) (S k) = Some d ->
  startIndex d + CHUNK_OVERLAP = endIndex c /\
  startIndex c < startIndex d /\ endIndex c <= endIndex d.
Proof. rewrite !ChunkerFacts.chunkText_unfold. apply ChunkerFacts.chunkLoop_next. Qed.

Lemma chunkText_overlap_witness :
  exists c d,
    nth_error (chunkText Samples.guideText (str "guide.txt") None) 0 = Some c /\
    nth_error (chunkText Samples.guideText (str "guide.txt") None) 1 = Some d /\
    startIndex d + CHUNK_OVERLAP = endIndex c.
Proof.
  assert (H : exists c d,
             nth_error (chunkText Samples.guideText (str "guide.txt") None) 0
               = Some c /\
             nth_error (chunkText Samples.guideText (str "guide.txt") None) 1
               = Some d).
  { do 2 eexists. split; vm_compute; reflexivity. }
  destruct H as [c [d [Hc Hd]]]. exists c, d.
  split; [exact Hc|]. split; [exact Hd|].
  exact (proj1 (chunkText_overlap _ _ _ 0 c d Hc Hd)).
Defined.

(** X5. A text of more than 200 characters (and of at most 7,999,400, so
    that two chunks are left of the limit) is chunked with a last chunk
    that is exactly its last 200 characters, after a chunk that already
    ends at the end of the text: the last chunk repeats the end of the one
    before it. *)
Theorem chunkText_last_chunk_repeats (t file : jstring) (size : option nat) :
  CHUNK_OVERLAP < length t ->
  length t <= CHUNK_SIZE + (CHUNK_SIZE - CHUNK_OVERLAP) * (maxChunks - 2) ->
  exists pre c d,
    chunkText t file size = pre ++ [c; d] /\
    endIndex c = length t /\
    startIndex d = length t - CHUNK_OVERLAP /\ endIndex d = length t /\
    text d = skipn (length t - CHUNK_OVERLAP) t.
Proof.
  intros H1 H2. rewrite !ChunkerFacts.chunkText_unfold. rewrite ChunkerFacts.maxChunks_S.
  destruct (ChunkerFacts.chunkLoop_tail (maxChunks - 2) t file size 0 0)
    as (pre & c & d & E & Hc & Hd1 & Hd2); try lia.
  exists pre, c, d. repeat split; try assumption.
  assert (Hin : In d (chunkLoop (S (S (maxChunks - 2))) t file size 0 0)).
  { rewrite E. apply in_or_app. right. right. now left. }
  apply ChunkerFacts.chunkLoop_chunk in Hin.
  destruct Hin as (_ & _ & _ & _ & Ht & _).
  rewrite Ht, Hd1, Hd2. unfold JS.substring.
  apply firstn_all2. rewrite length_skipn. lia.
Qed.

Lemma chunkText_last_chunk_repeats_witness :
  exists pre c d,
    chunkText (repeat "a"%char 250) (str "a.txt") None = pre ++ [c; d] /\
    endIndex c = 250 /\ startIndex d = 50 /\ endIndex d = 250.
Proof.
  destruct (chunkText_last_chunk_repeats (repeat "a"%char 250) (str "a.txt") None)
    as (pre & c & d & E & Hc & Hd1 & Hd2 & _).
  - rewrite repeat_length. unfold CHUNK_OVERLAP. lia.
  - rewrite repeat_length. unfold CHUNK_SIZE, CHUNK_OVERLAP, maxChunks. lia.
  - rewrite repeat_length in Hc, Hd1, Hd2. exists pre, c, d.
    repeat split; assumption.
Defined.

Module StoreFacts.

Import Store.

Lemma pushed_spec chunks :
  forall embeddings vs,
    pushed chunks embeddings = Some vs ->
    map chunk vs = chunks /\
    map embedding vs = firstn (length chunks) embeddings.
Proof.
  induction chunks as [|c chunks IH]; intros [|e es] vs H; simpl in H;
    try discriminate; try (injection H as <-; auto).
  destruct (pushed chunks es) as [vs'|] eqn:E; [|discriminate].
  injection H as <-. destruct (IH _ _ E) as [H1 H2].
  simpl. now rewrite H1, H2.
Qed.

Lemma pushed_total chunks :
  forall embeddings,
    length chunks <= length embeddings ->
    exists vs, pushed chunks embeddings = Some vs.
Proof.
  induction chunks as [|c chunks IH]; intros embeddings H.
  - exists []. reflexivity.
  - destruct embeddings as [|e es]; simpl in H; [lia|].
    destruct (IH es) as [vs E]; [lia|].
    eexists. simpl. rewrite E. reflexivity.
Qed.

Lemma pushed_None chunks :
  forall embeddings,
    length embeddings < length chunks -> pushed chunks embeddings = None.
Proof.
  induction chunks as [|c chunks IH]; intros [|e es] H; simpl in *;
    try lia; try reflexivity.
  rewrite IH by lia. reflexivity.
Qed.

Lemma removeDocument_app name a b :
  removeDocument name (a ++ b) = removeDocument name a ++ removeDocument name b.
Proof. apply filter_app. Qed.

Lemma removeDocument_all name vs :
  (forall v, In v vs -> sourceFile (chunk v) = name) ->
  removeDocument name vs = [].
Proof.
  intros H. apply DefinitionFacts.filter_none. intros v Hv.
  rewrite (H v Hv), HandlerFacts.eqt_refl. reflexivity.
Qed.

Lemma removeDocument_none name vs :
  (forall v, In v vs -> sourceFile (chunk v) <> name) ->
  removeDocument name vs = vs.
Proof.
  intros H. induction vs as [|v vs IH]; [reflexivity|].
  unfold removeDocument in *. simpl.
  destruct (JS.eqt (sourceFile (chunk v)) name) eqn:E.
  - apply HandlerFacts.eqt_spec in E. exfalso. apply (H v); auto with datatypes.
  - simpl. f_equal. apply IH. intros w Hw. apply H. now right.
Qed.

Lemma removeDocument_In name vs v :
  In v (removeDocument name vs) <->
  In v vs /\ sourceFile (chunk v) <> name.
Proof.
  unfold removeDocument. rewrite filter_In, negb_true_iff.
  split; intros [H1 H2]; (split; [exact H1|]).
  - intros C. apply HandlerFacts.eqt_spec in C. congruence.
  - destruct (JS.eqt (sourceFile (chunk v)) name) eqn:E; [|reflexivity].
    apply HandlerFacts.eqt_spec in E. contradiction.
Qed.

Lemma removeDocument_length name vs :
  length (removeDocument name vs) +
  length (filter (fun v => JS.eqt (sourceFile (chunk v)) name) vs) = length vs.
Proof.
  unfold removeDocument. induction vs as [|v vs IH]; [reflexivity|]. simpl.
  destruct (JS.eqt (sourceFile (chunk v)) name); simpl; lia.
Qed.

End StoreFacts.

(** X6. Uploading a document and deleting it again leaves the store as a
    deletion alone would have left it; when the store held nothing under
    that file name, it is back to what it was. *)
Theorem removeDocument_undoes_addDocument (chunks : list DocumentChunk)
  (embeddings : list (list Q)) (vectors after : Store.Vectors)
  (name : jstring) :
  Store.addDocument chunks embeddings vectors = Some after ->
  (forall c, In c chunks -> sourceFile c = name) ->
  Store.removeDocument name after = Store.removeDocument name vectors /\
  ((forall v, In v vectors -> sourceFile (chunk v) <> name) ->
   Store.removeDocument name after = vectors).
Proof.
  intros H Hn. unfold Store.addDocument in H.
  destruct (Store.pushed chunks embeddings) as [vs|] eqn:E; [|discriminate].
  injection H as <-. apply StoreFacts.pushed_spec in E as [Hc _].
  assert (R : Store.removeDocument name vs = []).
  { apply StoreFacts.removeDocument_all. intros v Hv. apply Hn.
    rewrite <- Hc. now apply in_map. }
  rewrite StoreFacts.removeDocument_app, R, app_nil_r.
  split; [reflexivity|]. apply StoreFacts.removeDocument_none.
Qed.

Lemma removeDocument_undoes_addDocument_witness :
  exists after,
    Store.addDocument (chunkText (str "Bolt is fast.") (str "bolt.txt") None)
      [Samples.at60] Samples.introStore = Some after /\
    Store.removeDocument (str "bolt.txt") after = Samples.introStore.
Proof.
  assert (H : exists after,
             Store.addDocument (chunkText (str "Bolt is fast.") (str "bolt.txt") None)
               [Samples.at60] Samples.introStore = Some after).
  { eexists. vm_compute. reflexivity. }
  destruct H as [after E]. exists after. split; [exact E|].
  apply (removeDocument_undoes_addDocument _ _ _ _ (str "bolt.txt") E).
  - intros c Hc. now apply ChunkerFacts.chunkText_carries in Hc.
  - vm_compute. intros v [<- | []]. vm_compute. discriminate.
Defined.

Module SimilarFacts.

Import Store.













End SimilarFacts.



Module CosineFacts.

Import VectorStore.

(** The product of two doubles does not depend on their order. *)
Lemma SFmul_comm prec emax (x y : SpecFloat.spec_float) :
  SpecFloat.SFmul prec emax x y = SpecFloat.SFmul prec emax y x.
Proof.
  destruct x as [sx|sx| |sx mx ex], y as [sy|sy| |sy my ey]; simpl;
    try reflexivity; try (now rewrite xorb_comm).
  now rewrite xorb_comm, Pos.mul_comm, Z.add_comm.
Qed.

Lemma mul_comm (x y : PrimFloat.float) : PrimFloat.mul x y = PrimFloat.mul y x.
Proof.
  apply FloatAxioms.Prim2SF_inj. rewrite !FloatAxioms.mul_spec.
  apply SFmul_comm.
Qed.

(** The sums of the loop with the two vectors exchanged. *)
Lemma sums_swap (a : list PrimFloat.float) :
  forall (b : list PrimFloat.float) (d na nb : PrimFloat.float),
    sums b a (d, nb, na) =
    let '(dotProduct, normA, normB) := sums a b (d, na, nb) in
    (dotProduct, normB, normA).
Proof.
  induction a as [|x a IH]; intros [|y b] d na nb; try reflexivity.
  change (sums (y :: b) (x :: a) (d, nb, na))
    with (sums b a (PrimFloat.add d (PrimFloat.mul y x),
                    PrimFloat.add nb (PrimFloat.mul y y),
                    PrimFloat.add na (PrimFloat.mul x x))).
  change (sums (x :: a) (y :: b) (d, na, nb))
    with (sums a b (PrimFloat.add d (PrimFloat.mul x y),
                    PrimFloat.add na (PrimFloat.mul x x),
                    PrimFloat.add nb (PrimFloat.mul y y))).
  rewrite (mul_comm y x). apply IH.
Qed.

End CosineFacts.

(** X8. On doubles [cosineSimilarity] gives the same result in either
    order of the two vectors: the same number, the same NaN or the same
    throw.  The bounds of the exact cosine do not carry over to doubles:
    the similarity of (1, 5) to itself is 1.0000000000000002, that of
    (2^-600) to itself is 0, and that of (2^600) to itself is NaN. *)
Theorem cosineSimilarity_symmetric_on_doubles :
  (forall a b : list PrimFloat.float,
     VectorStore.cosineSimilarity a b = VectorStore.cosineSimilarity b a) /\
  VectorStore.cosineSimilarity [1; 5]%float [1; 5]%float
    = Some 0x1.0000000000001p+0%float /\
  (1 <? 0x1.0000000000001p+0)%float = true /\
  VectorStore.cosineSimilarity [0x1p-600%float] [0x1p-600%float]
    = Some 0%float /\
  VectorStore.cosineSimilarity [0x1p+600%float] [0x1p+600%float]
    = Some PrimFloat.nan.
Proof.
  split; [|repeat split; vm_compute; reflexivity].
  intros a b. unfold VectorStore.cosineSimilarity.
  rewrite (Nat.eqb_sym (length b) (length a)).
  destruct (length a =? length b); [|reflexivity]. simpl.
  rewrite (CosineFacts.sums_swap a b).
  destruct (VectorStore.sums a b _) as [[dotProduct normA] normB].
  now rewrite (CosineFacts.mul_comm (PrimFloat.sqrt normB)).
Qed.

Module DocumentsFacts.

Import Documents.

Lemma eqt_false a b : a <> b -> JS.eqt a b = false.
Proof.
  intros H. destruct (JS.eqt a b) eqn:E; [|reflexivity].
  apply HandlerFacts.eqt_spec in E. contradiction.
Qed.

Lemma eqt_sym a b : JS.eqt a b = JS.eqt b a.
Proof.
  destruct (JS.eqt b a) eqn:E.
  - apply HandlerFacts.eqt_spec in E. subst. apply HandlerFacts.eqt_refl.
  - apply eqt_false. intros ->. now rewrite HandlerFacts.eqt_refl in E.
Qed.

Lemma has_get m k : has m k = match get m k with Some _ => true | None => false end.
Proof.
  unfold has, get. induction m as [|[k' s] m IH]; [reflexivity|]. simpl.
  destruct (JS.eqt k' k); [reflexivity | exact IH].
Qed.

Lemma get_set m k s k' :
  get (set m k s) k' = if JS.eqt k k' then Some s else get m k'.
Proof.
  induction m as [|[k0 s0] m IH]; simpl.
  - unfold get. simpl. destruct (JS.eqt k k'); reflexivity.
  - destruct (JS.eqt k0 k) eqn:E0.
    + apply HandlerFacts.eqt_spec in E0. subst k0.
      unfold get. simpl. destruct (JS.eqt k k'); reflexivity.
    + unfold get in *. simpl.
      destruct (JS.eqt k0 k') eqn:E1; [|exact IH].
      apply HandlerFacts.eqt_spec in E1. subst k0.
      rewrite eqt_sym, E0. reflexivity.
Qed.

Lemma keys_set m k s :
  map fst (set m k s) = if has m k then map fst m else map fst m ++ [k].
Proof.
  induction m as [|[k0 s0] m IH]; [reflexivity|]. unfold has in *. simpl.
  destruct (JS.eqt k0 k); simpl; [reflexivity|].
  rewrite IH. now destruct (existsb _ m).
Qed.

Lemma has_In m k : has m k = true <-> In k (map fst m).
Proof.
  unfold has. rewrite existsb_exists, in_map_iff. split.
  - intros (e & He & E). apply HandlerFacts.eqt_spec in E. now exists e.
  - intros (e & E & He). exists e. split; [exact He|].
    now apply HandlerFacts.eqt_spec.
Qed.

Lemma get_In m k s :
  NoDup (map fst m) -> (In (k, s) m <-> get m k = Some s).
Proof.
  unfold get. induction m as [|[k0 s0] m IH]; intros H; simpl.
  - split; [intros [] | discriminate].
  - inversion H as [|? ? Hn Hd]; subst.
    destruct (JS.eqt k0 k) eqn:E; simpl.
    + apply HandlerFacts.eqt_spec in E. subst k0. split.
      * intros [[= ->] | Hi]; [reflexivity|].
        exfalso. apply Hn. apply in_map_iff. now exists (k, s).
      * intros [= ->]. now left.
    + rewrite <- (IH Hd). split; [|now right].
      intros [[= -> ->] | Hi]; [|exact Hi].
      now rewrite HandlerFacts.eqt_refl in E.
Qed.

(** The name and the size one vector adds to the map. *)
Lemma get_record m v k :
  get (record m v) k =
  if negb (length (sourceFile (chunk v)) =? 0) && JS.eqt (sourceFile (chunk v)) k
  then if negb (has m k) || (0 <? sizeOf v) then Some (sizeOf v) else get m k
  else get m k.
Proof.
  unfold record, truthy.
  destruct (sourceFile (chunk v)) as [|c f] eqn:Ef; [reflexivity|].
  simpl negb. cbv iota.
  destruct (JS.eqt (c :: f) k) eqn:E.
  - apply HandlerFacts.eqt_spec in E. subst k. simpl andb. cbv iota.
    destruct (negb (has m (c :: f)) || (0 <? sizeOf v)); [|reflexivity].
    now rewrite get_set, HandlerFacts.eqt_refl.
  - simpl andb. cbv iota.
    destruct (negb (has m (c :: f)) || (0 <? sizeOf v)); [|reflexivity].
    now rewrite get_set, E.
Qed.

Lemma keys_record m v :
  NoDup (map fst m) -> NoDup (map fst (record m v)).
Proof.
  intros H. unfold record, truthy.
  destruct (sourceFile (chunk v)) as [|c f]; [exact H|].
  destruct (negb (has m (c :: f)) || (0 <? sizeOf v)); [|exact H].
  rewrite keys_set. destruct (has m (c :: f)) eqn:E; [exact H|].
  apply NoDup_app; [exact H | repeat constructor; intros [] |].
  intros x Hx [<- | []]. apply has_In in Hx. congruence.
Qed.

Lemma keys_fold vs : forall m,
  NoDup (map fst m) -> NoDup (map fst (fold_left record vs m)).
Proof.
  induction vs as [|v vs IH]; intros m H; simpl; [exact H|].
  apply IH. now apply keys_record.
Qed.

(** The vectors of a file, and the size the listing shows for them: the
    last size that is not 0. *)
#[local] Abbreviation ofFile k :=
  (filter (fun v => JS.eqt (sourceFile (chunk v)) k)) (only parsing).

#[local] Abbreviation shownSize k vs :=
  (last (filter (fun n => 0 <? n) (map sizeOf (ofFile k vs))) 0) (only parsing).

Lemma last_snoc {A} (l : list A) (x d : A) : last (l ++ [x]) d = x.
Proof. apply last_last. Qed.

Lemma get_fold vs k :
  k <> [] ->
  get (fold_left record vs []) k =
  match ofFile k vs with
  | [] => None
  | _ :: _ => Some (shownSize k vs)
  end.
Proof.
  intros Hk. induction vs as [|v vs IH] using rev_ind; [reflexivity|].
  rewrite fold_left_app. simpl fold_left. rewrite get_record, has_get, IH.
  rewrite !filter_app. simpl filter.
  destruct (JS.eqt (sourceFile (chunk v)) k) eqn:E.
  - apply HandlerFacts.eqt_spec in E.
    assert (Hl : (length (sourceFile (chunk v)) =? 0) = false).
    { rewrite E. destruct k; [contradiction | reflexivity]. }
    rewrite Hl. simpl andb. cbv iota.
    rewrite map_app, filter_app. simpl map. simpl filter.
    destruct (filter _ vs) as [|w ws] eqn:Ew.
    + simpl. destruct (0 <? sizeOf v) eqn:Ep; [reflexivity|].
      simpl. apply Nat.ltb_ge in Ep. f_equal. lia.
    + simpl app. cbv iota. simpl negb. simpl orb.
      destruct (0 <? sizeOf v) eqn:Ep.
      * now rewrite last_snoc.
      * now rewrite app_nil_r.
  - rewrite andb_false_r, app_nil_r. reflexivity.
Qed.

(** The empty name is never a key. *)
Lemma get_fold_empty vs : get (fold_left record vs []) [] = None.
Proof.
  induction vs as [|v vs IH] using rev_ind; [reflexivity|].
  rewrite fold_left_app. simpl fold_left. rewrite get_record.
  destruct (sourceFile (chunk v)) as [|c f]; exact IH.
Qed.

Lemma listed_not_empty vs name size :
  NoDup (map fst (fold_left record vs [])) ->
  In (name, size) (fold_left record vs []) -> name <> [].
Proof.
  intros Hd H ->. apply (get_In _ _ _ Hd) in H.
  rewrite get_fold_empty in H. discriminate.
Qed.

(** Entries of other files, after the entry of [name] is taken out. *)
#[local] Abbreviation without name :=
  (filter (fun e : jstring * nat => negb (JS.eqt (fst e) name))) (only parsing).

Lemma without_set name m k s :
  without name (set m k s) =
  if JS.eqt k name then without name m else set (without name m) k s.
Proof.
  induction m as [|[k0 s0] m IH]; simpl.
  - destruct (JS.eqt k name); reflexivity.
  - destruct (JS.eqt k0 k) eqn:E0; simpl.
    + apply HandlerFacts.eqt_spec in E0. subst k0.
      destruct (JS.eqt k name) eqn:E; simpl; [reflexivity|].
      now rewrite HandlerFacts.eqt_refl.
    + rewrite IH. destruct (JS.eqt k0 name) eqn:E1; simpl.
      * reflexivity.
      * destruct (JS.eqt k name); [reflexivity|]. simpl. now rewrite E0.
Qed.

Lemma has_without name m k :
  JS.eqt k name = false -> has (without name m) k = has m k.
Proof.
  intros H. unfold has. induction m as [|[k0 s0] m IH]; [reflexivity|]. simpl.
  destruct (JS.eqt k0 name) eqn:E; simpl; [|now rewrite IH].
  apply HandlerFacts.eqt_spec in E. subst k0.
  rewrite eqt_sym, H. exact IH.
Qed.

Lemma without_record name m v :
  without name (record m v) =
  if JS.eqt (sourceFile (chunk v)) name then without name m
  else record (without name m) v.
Proof.
  unfold record, truthy.
  destruct (sourceFile (chunk v)) as [|c f] eqn:Ef.
  - now destruct (JS.eqt [] name).
  - destruct (JS.eqt (c :: f) name) eqn:E.
    + destruct (negb (has m (c :: f)) || (0 <? sizeOf v)); [|reflexivity].
      now rewrite without_set, E.
    + rewrite (has_without name m (c :: f) E).
      destruct (negb (has m (c :: f)) || (0 <? sizeOf v)); [|reflexivity].
      now rewrite without_set, E.
Qed.

Lemma without_fold name vs : forall m,
  fold_left record (Store.removeDocument name vs) (without name m) =
  without name (fold_left record vs m).
Proof.
  unfold Store.removeDocument.
  induction vs as [|v vs IH]; intros m; [reflexivity|]. simpl.
  rewrite <- IH, without_record.
  now destruct (JS.eqt (sourceFile (chunk v)) name).
Qed.

End DocumentsFacts.

(** X9. [GET /] lists every document once: the names are distinct, a name
    is listed exactly when it is not empty and is the file name of a stored
    vector, [count] is their number and [totalChunks] the number of stored
    vectors. *)
Theorem getDocuments_lists_each_document_once (vectors : Store.Vectors) :
  let r := Documents.getDocuments vectors in
  NoDup (Documents.documents r) /\
  (forall name,
     In name (Documents.documents r) <->
     name <> [] /\ exists v, In v vectors /\ sourceFile (chunk v) = name) /\
  Documents.documents r = map fst (Documents.documentsWithSize r) /\
  Documents.count r = length (Documents.documents r) /\
  Documents.totalChunks r = length vectors.
Proof.
  unfold Documents.getDocuments. simpl.
  assert (Hd : NoDup (map fst (fold_left Documents.record vectors []))).
  { apply DocumentsFacts.keys_fold. constructor. }
  split; [exact Hd|]. split; [|now rewrite length_map].
  intros name. rewrite <- DocumentsFacts.has_In, DocumentsFacts.has_get.
  destruct name as [|c name].
  - split; [|intros [C _]; now contradiction C].
    rewrite DocumentsFacts.get_fold_empty. discriminate.
  - rewrite DocumentsFacts.get_fold by discriminate.
    destruct (filter _ vectors) as [|w ws] eqn:E.
    + split; [discriminate|]. intros (_ & v & Hv & Hn).
      assert (Hw : In v []).
      { rewrite <- E. apply filter_In. split; [exact Hv|].
        rewrite Hn. apply HandlerFacts.eqt_refl. }
      destruct Hw.
    + split; [|reflexivity]. intros _. split; [discriminate|].
      assert (Hw : In w (w :: ws)) by now left.
      rewrite <- E in Hw. apply filter_In in Hw as [Hw Hn].
      apply HandlerFacts.eqt_spec in Hn. now exists w.
Qed.

(** X10. The size [GET /] shows for a document is the last size that is
    not 0 among the [fileSize] of its stored chunks, in store order, and 0
    when none of them has one. *)
Theorem getDocuments_shows_the_last_size (vectors : Store.Vectors)
  (name : jstring) (size : nat) :
  In (name, size) (Documents.documentsWithSize (Documents.getDocuments vectors)) ->
  size =
  last (filter (fun n => 0 <? n)
          (map Documents.sizeOf
             (filter (fun v => JS.eqt (sourceFile (chunk v)) name) vectors))) 0.
Proof.
  unfold Documents.getDocuments. simpl. intros H.
  assert (Hd : NoDup (map fst (fold_left Documents.record vectors []))).
  { apply DocumentsFacts.keys_fold. constructor. }
  pose proof (DocumentsFacts.listed_not_empty _ _ _ Hd H) as Hn.
  apply (DocumentsFacts.get_In _ _ _ Hd) in H.
  rewrite DocumentsFacts.get_fold in H by exact Hn.
  destruct (filter _ vectors); [discriminate|]. now injection H.
Qed.

Lemma getDocuments_shows_the_last_size_witness :
  In (str "guide.txt", 2400)
     (Documents.documentsWithSize
        (Documents.getDocuments Samples.uploadedGuideStore)) /\
  2400 =
  last (filter (fun n => 0 <? n)
          (map Documents.sizeOf
             (filter (fun v => JS.eqt (sourceFile (chunk v)) (str "guide.txt"))
                     Samples.uploadedGuideStore))) 0.
Proof.
  assert (H : In (str "guide.txt", 2400)
                 (Documents.documentsWithSize
                    (Documents.getDocuments Samples.uploadedGuideStore))).
  { vm_compute. left. reflexivity. }
  split; [exact H|].
  exact (getDocuments_shows_the_last_size _ _ _ H).
Defined.

(** X11. [DELETE /:fileName] removes the vectors of that file and no other:
    the store keeps, in order, the vectors of the other files;
    [chunksRemoved] is the number of vectors that carried the name and
    [remaining] the number of those left.  The reply is the same success
    when no stored vector carries the name: nothing is removed then. *)
Theorem deleteDocument_removes_that_document
  (decodeURIComponent : jstring -> option jstring) (param name : jstring)
  (vectors : Store.Vectors) :
  decodeURIComponent param = Some name ->
  exists reply,
    Documents.deleteDocument decodeURIComponent param vectors =
      (Some reply, Store.removeDocument name vectors) /\
    Documents.fileName reply = name /\
    Documents.chunksRemoved reply =
      length (filter (fun v => JS.eqt (sourceFile (chunk v)) name) vectors) /\
    Documents.remaining reply + Documents.chunksRemoved reply = length vectors /\
    (forall v, In v (Store.removeDocument name vectors) <->
               In v vectors /\ sourceFile (chunk v) <> name) /\
    ((forall v, In v vectors -> sourceFile (chunk v) <> name) ->
     Store.removeDocument name vectors = vectors /\
     Documents.chunksRemoved reply = 0).
Proof.
  intros H. unfold Documents.deleteDocument. rewrite H.
  eexists. split; [reflexivity|]. simpl. unfold Store.getAllVectors.
  pose proof (StoreFacts.removeDocument_length name vectors) as L.
  split; [reflexivity|]. split; [lia|]. split; [lia|].
  split; [apply StoreFacts.removeDocument_In|].
  intros Hn. rewrite (StoreFacts.removeDocument_none name vectors Hn).
  split; [reflexivity | lia].
Qed.

Lemma deleteDocument_removes_that_document_witness :
  exists reply,
    Documents.deleteDocument Some (str "guide.txt") Samples.uploadedGuideStore =
      (Some reply, []) /\
    Documents.chunksRemoved reply = 4 /\ Documents.remaining reply = 0.
Proof.
  destruct (deleteDocument_removes_that_document Some (str "guide.txt")
              (str "guide.txt") Samples.uploadedGuideStore eq_refl)
    as (reply & E & _ & Hc & Hr & _).
  exists reply. split; [exact E|].
  assert (C : length (filter (fun v => JS.eqt (sourceFile (chunk v)) (str "guide.txt"))
                        Samples.uploadedGuideStore) = 4) by (vm_compute; reflexivity).
  assert (L : length Samples.uploadedGuideStore = 4) by (vm_compute; reflexivity).
  rewrite C in Hc. rewrite L in Hr. split; [exact Hc | lia].
Defined.

(** X12. After a document is deleted, [GET /] lists the other documents as
    before, in the same order and with the same sizes, and no longer lists
    the deleted one. *)
Theorem getDocuments_after_removeDocument (vectors : Store.Vectors)
  (name : jstring) :
  Documents.documentsWithSize
    (Documents.getDocuments (Store.removeDocument name vectors)) =
  filter (fun e => negb (JS.eqt (fst e) name))
         (Documents.documentsWithSize (Documents.getDocuments vectors)) /\
  ~ In name (Documents.documents
               (Documents.getDocuments (Store.removeDocument name vectors))).
Proof.
  assert (E : Documents.documentsWithSize
                (Documents.getDocuments (Store.removeDocument name vectors)) =
              filter (fun e => negb (JS.eqt (fst e) name))
                (Documents.documentsWithSize (Documents.getDocuments vectors))).
  { unfold Documents.getDocuments. simpl.
    exact (DocumentsFacts.without_fold name vectors []). }
  split; [exact E|].
  unfold Documents.getDocuments in *. simpl in *. rewrite E.
  intros H. apply in_map_iff in H as ([k s] & Hk & H). simpl in Hk. subst k.
  apply filter_In in H as [_ H]. simpl in H.
  now rewrite HandlerFacts.eqt_refl in H.
Qed.

Module UploadFacts.

(** What [GET /] shows once the chunks of one file are added. *)
Lemma added_chunks_are_listed (chunks : list DocumentChunk) (name : jstring)
  (size : nat) (embeddings : list (list Q)) (vectors after : Store.Vectors) :
  chunks <> [] -> name <> [] -> 0 < size ->
  (forall c, In c chunks -> sourceFile c = name /\ fileSize c = Some size) ->
  Store.addDocument chunks embeddings vectors = Some after ->
  In (name, size) (Documents.documentsWithSize (Documents.getDocuments after)) /\
  (forall other s, other <> name ->
     (In (other, s) (Documents.documentsWithSize (Documents.getDocuments after))
      <-> In (other, s)
             (Documents.documentsWithSize (Documents.getDocuments vectors)))).
Proof.
  intros Hne0 Hn Hs Hch H. unfold Store.addDocument in H.
  destruct (Store.pushed chunks embeddings) as [new|] eqn:E; [|discriminate].
  injection H as <-. apply StoreFacts.pushed_spec in E as [Hc _].
  assert (Hnew : forall v, In v new ->
            sourceFile (chunk v) = name /\ Documents.sizeOf v = size).
  { intros v Hv. apply (in_map chunk) in Hv. rewrite Hc in Hv.
    apply Hch in Hv as [Hf Hz].
    unfold Documents.sizeOf. now rewrite Hz. }
  assert (Hne : new <> []).
  { intros ->. apply Hne0. rewrite <- Hc. reflexivity. }
  clear Hc Hch Hne0.
  unfold Documents.getDocuments. simpl.
  assert (Hd : forall vs, NoDup (map fst (fold_left Documents.record vs []))).
  { intros vs. apply DocumentsFacts.keys_fold. constructor. }
  split.
  - apply (DocumentsFacts.get_In _ _ _ (Hd _)).
    rewrite DocumentsFacts.get_fold by exact Hn.
    rewrite filter_app.
    assert (Hall : filter (fun v => JS.eqt (sourceFile (chunk v)) name) new = new).
    { clear Hne. induction new as [|v new IH]; [reflexivity|]. simpl.
      rewrite (proj1 (Hnew v (or_introl eq_refl))), HandlerFacts.eqt_refl.
      f_equal. apply IH. intros w Hw. apply Hnew. now right. }
    rewrite Hall.
    destruct new as [|v new] using rev_ind; [contradiction|]. clear IHnew.
    rewrite app_assoc.
    destruct ((filter _ vectors ++ new) ++ [v]) as [|w ws] eqn:Ew;
      [now destruct (filter _ vectors ++ new)|].
    rewrite <- Ew. f_equal.
    rewrite map_app, filter_app. simpl.
    assert (Hv : In v (new ++ [v])) by (apply in_or_app; right; now left).
    rewrite (proj2 (Hnew v Hv)).
    apply Nat.ltb_lt in Hs. rewrite Hs. apply last_last.
  - intros other s Ho.
    rewrite !(DocumentsFacts.get_In _ _ _ (Hd _)).
    destruct other as [|c o].
    + now rewrite !DocumentsFacts.get_fold_empty.
    + rewrite !DocumentsFacts.get_fold by discriminate.
      rewrite filter_app.
      rewrite (DefinitionFacts.filter_none _ new), app_nil_r; [reflexivity|].
      intros v Hv. rewrite (proj1 (Hnew v Hv)).
      apply DocumentsFacts.eqt_false. congruence.
Qed.

End UploadFacts.

(** X13. A text that is chunked and added to the store under a file name
    and a file size that is not 0 is listed by [GET /] under that name with
    that size, and the entries of the other documents are as before. *)
Theorem uploaded_document_is_listed (t name : jstring) (size : nat)
  (embeddings : list (list Q)) (vectors after : Store.Vectors) :
  0 < length t -> name <> [] -> 0 < size ->
  Store.addDocument (chunkText t name (Some size)) embeddings vectors
    = Some after ->
  In (name, size) (Documents.documentsWithSize (Documents.getDocuments after)) /\
  (forall other s, other <> name ->
     (In (other, s) (Documents.documentsWithSize (Documents.getDocuments after))
      <-> In (other, s)
             (Documents.documentsWithSize (Documents.getDocuments vectors)))).
Proof.
  intros Ht Hn Hs.
  apply UploadFacts.added_chunks_are_listed; try assumption.
  - now apply ChunkerFacts.chunkText_not_nil.
  - apply ChunkerFacts.chunkText_carries.
Qed.

Lemma uploaded_document_is_listed_witness :
  exists after,
    Store.addDocument (chunkText (str "Bolt is fast.") (str "bolt.txt") (Some 13))
      [Samples.at60] Samples.introStore = Some after /\
    In (str "bolt.txt", 13)
       (Documents.documentsWithSize (Documents.getDocuments after)).
Proof.
  assert (H : exists after,
             Store.addDocument
               (chunkText (str "Bolt is fast.") (str "bolt.txt") (Some 13))
               [Samples.at60] Samples.introStore = Some after).
  { eexists. vm_compute. reflexivity. }
  destruct H as [after E]. exists after. split; [exact E|].
  refine (proj1 (uploaded_document_is_listed (str "Bolt is fast.")
                   (str "bolt.txt") 13 [Samples.at60] Samples.introStore after
                   _ _ _ E)).
  - change (length (str "Bolt is fast.")) with 13. lia.
  - discriminate.
  - lia.
Defined.

Module EmbeddingFacts.

Import OpenAI.

Section Client.
Context {E : Type} (create : nat -> list jstring -> option (list E)).

(** One turn of the loop. *)
Lemma batchLoop_step fuel j validTexts acc sent :
  BATCH_SIZE * j < length validTexts ->
  batchLoop create (S fuel) (BATCH_SIZE * j) validTexts acc sent =
  let batch := map prepare (firstn BATCH_SIZE (skipn (BATCH_SIZE * j) validTexts)) in
  match create (S j) batch with
  | Some data =>
      if length data =? length batch
      then batchLoop create fuel (BATCH_SIZE * S j) validTexts (acc ++ data)
             (sent ++ [batch])
      else {| requests := sent ++ [batch]; result := inl (BatchFailed (S j)) |}
  | None => {| requests := sent ++ [batch]; result := inl (BatchFailed (S j)) |}
  end.
Proof.
  intros H. cbn [batchLoop].
  destruct (Nat.ltb_spec (BATCH_SIZE * j) (length validTexts)) as [_|C]; [|lia].
  unfold slice.
  replace (BATCH_SIZE * j + BATCH_SIZE - BATCH_SIZE * j) with BATCH_SIZE by lia.
  replace (BATCH_SIZE * j / BATCH_SIZE + 1) with (S j)
    by (rewrite Nat.mul_comm, Nat.div_mul by discriminate; lia).
  replace (BATCH_SIZE * j + BATCH_SIZE) with (BATCH_SIZE * S j) by lia.
  cbv zeta.
  destruct (create (S j) _) as [data|]; [|reflexivity].
  now destruct (length data =? _).
Qed.

Lemma batchLoop_done fuel i validTexts acc sent :
  length validTexts <= i ->
  batchLoop create fuel i validTexts acc sent =
  {| requests := sent; result := inr acc |}.
Proof.
  intros H. destruct fuel; [reflexivity|]. cbn [batchLoop].
  destruct (Nat.ltb_spec i (length validTexts)) as [C|_]; [lia | reflexivity].
Qed.

Lemma batch_length j (validTexts : list jstring) :
  BATCH_SIZE * j < length validTexts ->
  0 < length (firstn BATCH_SIZE (skipn (BATCH_SIZE * j) validTexts)) <= BATCH_SIZE.
Proof.
  intros H. rewrite length_firstn, length_skipn. unfold BATCH_SIZE in *. lia.
Qed.

(** Every request of the loop is a batch of 1 to 100 prepared texts. *)
Lemma batchLoop_requests fuel validTexts :
  forall j acc sent req,
    In req (requests (batchLoop create fuel (BATCH_SIZE * j) validTexts acc sent)) ->
    In req sent \/
    (0 < length req <= BATCH_SIZE /\
     forall input, In input req ->
       exists t, In t validTexts /\ input = prepare t).
Proof.
  induction fuel as [|fuel IH]; intros j acc sent req H; [now left|].
  destruct (Nat.lt_ge_cases (BATCH_SIZE * j) (length validTexts)) as [L|L].
  - rewrite batchLoop_step in H by exact L. cbv zeta in H.
    assert (Hb : forall r, In r (sent ++
                  [map prepare (firstn BATCH_SIZE (skipn (BATCH_SIZE * j) validTexts))]) ->
               In r sent \/
               (0 < length r <= BATCH_SIZE /\
                forall input, In input r ->
                  exists t, In t validTexts /\ input = prepare t)).
    { intros r Hr. apply in_app_or in Hr as [Hr | [<- | []]]; [now left|].
      right. rewrite length_map. split; [now apply batch_length|].
      intros input Hi. apply in_map_iff in Hi as (t & <- & Ht).
      exists t. split; [|reflexivity].
      rewrite <- (firstn_skipn (BATCH_SIZE * j) validTexts).
      apply in_or_app. right.
      rewrite <- (firstn_skipn BATCH_SIZE (skipn _ validTexts)).
      apply in_or_app. now left. }
    destruct (create (S j) _) as [data|]; [|now apply Hb].
    destruct (length data =? _); [|now apply Hb].
    apply IH in H. destruct H as [H | H]; [now apply Hb | now right].
  - rewrite batchLoop_done in H by exact L. now left.
Qed.

(** What a successful loop has requested and received. *)
Lemma batchLoop_success fuel validTexts :
  forall j acc sent es,
    length validTexts - BATCH_SIZE * j <= fuel ->
    result (batchLoop create fuel (BATCH_SIZE * j) validTexts acc sent) = inr es ->
    exists reqs datas,
      requests (batchLoop create fuel (BATCH_SIZE * j) validTexts acc sent)
        = sent ++ reqs /\
      es = acc ++ concat datas /\
      concat reqs = map prepare (skipn (BATCH_SIZE * j) validTexts) /\
      length datas = length reqs /\
      forall k req, nth_error reqs k = Some req ->
        exists data, nth_error datas k = Some data /\
                     create (S (j + k)) req = Some data /\
                     length data = length req.
Proof.
  induction fuel as [|fuel IH]; intros j acc sent es Hf H.
  - assert (L : length validTexts <= BATCH_SIZE * j)
      by (unfold BATCH_SIZE in *; lia).
    rewrite batchLoop_done in * by exact L. simpl in H. injection H as <-.
    exists [], []. simpl. rewrite !app_nil_r, skipn_all2 by exact L.
    repeat split; auto. intros [|k] req; discriminate.
  - destruct (Nat.lt_ge_cases (BATCH_SIZE * j) (length validTexts)) as [L|L].
    + rewrite batchLoop_step in * by exact L. cbv zeta in *.
      set (batch := map prepare (firstn BATCH_SIZE (skipn (BATCH_SIZE * j) validTexts))) in *.
      destruct (create (S j) batch) as [data|] eqn:Ec; [|discriminate].
      destruct (Nat.eqb_spec (length data) (length batch)) as [El|El];
        [|discriminate].
      destruct (IH (S j) (acc ++ data) (sent ++ [batch]) es) as
        (reqs & datas & Hr & He & Hc & Hl & Hk); [unfold BATCH_SIZE in *; lia | exact H |].
      exists (batch :: reqs), (data :: datas).
      rewrite Hr, <- app_assoc. split; [reflexivity|].
      rewrite He, <- app_assoc. split; [reflexivity|].
      split; [|split].
      * simpl. rewrite Hc. unfold batch. rewrite <- map_app. f_equal.
        replace (BATCH_SIZE * S j) with (BATCH_SIZE + BATCH_SIZE * j) by lia.
        rewrite <- skipn_skipn. apply firstn_skipn.
      * simpl. now rewrite Hl.
      * intros [|k] req Hq; simpl in Hq.
        -- injection Hq as <-. exists data. rewrite Nat.add_0_r. auto.
        -- destruct (Hk k req Hq) as (d & Hd & Hcr & Hdl).
           exists d. simpl. replace (j + S k) with (S j + k) by lia. auto.
    + rewrite batchLoop_done in * by exact L. simpl in H. injection H as <-.
      exists [], []. simpl. rewrite !app_nil_r, skipn_all2 by exact L.
      repeat split; auto. intros [|k] req; discriminate.
Qed.

(** What a failed loop has requested. *)
Lemma batchLoop_failure fuel validTexts :
  forall j acc sent f,
    result (batchLoop create fuel (BATCH_SIZE * j) validTexts acc sent) = inl f ->
    exists reqs req,
      requests (batchLoop create fuel (BATCH_SIZE * j) validTexts acc sent)
        = sent ++ reqs ++ [req] /\
      f = BatchFailed (S (j + length reqs)) /\
      (create (S (j + length reqs)) req = None \/
       exists data, create (S (j + length reqs)) req = Some data /\
                    length data <> length req) /\
      forall k r, nth_error reqs k = Some r ->
        exists data, create (S (j + k)) r = Some data /\ length data = length r.
Proof.
  induction fuel as [|fuel IH]; intros j acc sent f H; [discriminate|].
  destruct (Nat.lt_ge_cases (BATCH_SIZE * j) (length validTexts)) as [L|L].
  - rewrite batchLoop_step in * by exact L. cbv zeta in *.
    set (batch := map prepare (firstn BATCH_SIZE (skipn (BATCH_SIZE * j) validTexts))) in *.
    destruct (create (S j) batch) as [data|] eqn:Ec.
    + destruct (Nat.eqb_spec (length data) (length batch)) as [El|El].
      * destruct (IH (S j) (acc ++ data) (sent ++ [batch]) f H)
          as (reqs & req & Hr & Hf & Hc & Hk).
        exists (batch :: reqs), req. rewrite Hr, <- app_assoc.
        split; [reflexivity|]. simpl length.
        replace (j + S (length reqs)) with (S j + length reqs) by lia.
        split; [exact Hf|]. split; [exact Hc|].
        intros [|k] r Hq; simpl in Hq.
        -- injection Hq as <-. exists data. rewrite Nat.add_0_r. auto.
        -- replace (j + S k) with (S j + k) by lia. now apply Hk.
      * simpl in H. injection H as <-. exists [], batch. simpl.
        rewrite Nat.add_0_r. repeat split; auto.
        -- right. now exists data.
        -- intros [|k] r; discriminate.
    + simpl in H. injection H as <-. exists [], batch. simpl.
      rewrite Nat.add_0_r. repeat split; auto.
      intros [|k] r; discriminate.
  - rewrite batchLoop_done in H by exact L. discriminate.
Qed.

End Client.

Lemma isValid_prepare t :
  isValid t = true ->
  0 < length (prepare t) <= 8 * 1000 /\
  JS.noLeadingSpace (prepare t) = true /\
  exists rest_, JS.trim t = prepare t ++ rest_.
Proof.
  unfold isValid, prepare. intros H. apply Nat.ltb_lt in H.
  assert (Hn : JS.noLeadingSpace (JS.trim t) = true).
  { apply NormalizeFacts.trimEnd_noLeadingSpace,
      NormalizeFacts.trimStart_noLeadingSpace. }
  destruct (Nat.ltb_spec (8 * 1000) (length (JS.trim t))) as [L|L].
  - unfold JS.substring. change (skipn 0 (JS.trim t)) with (JS.trim t).
    rewrite Nat.sub_0_r, length_firstn. split; [lia|]. split.
    + destruct (JS.trim t) as [|c s]; [simpl in H; lia|].
      replace (8 * 1000) with (S (8 * 1000 - 1)) by lia. exact Hn.
    + exists (skipn (8 * 1000) (JS.trim t)). symmetry. apply firstn_skipn.
  - split; [lia|]. split; [exact Hn|]. exists []. now rewrite app_nil_r.
Qed.

End EmbeddingFacts.

(** X14. Every request [getEmbeddings] sends holds between 1 and 100
    inputs, and every input is what is left of one of the given texts once
    it is trimmed and cut at 8000 characters: it is not empty and does not
    start with white space. *)
Theorem getEmbeddings_requests_are_batches {E : Type} (clientReady : bool)
  (create : nat -> list jstring -> option (list E)) (texts : list jstring)
  (req : list jstring) :
  In req (OpenAI.requests (OpenAI.getEmbeddings clientReady create texts)) ->
  0 < length req <= 100 /\
  forall input, In input req ->
    0 < length input <= 8 * 1000 /\
    JS.noLeadingSpace input = true /\
    exists t rest_, In t texts /\ JS.trim t = input ++ rest_.
Proof.
  unfold OpenAI.getEmbeddings.
  destruct (length texts =? 0); [intros []|].
  destruct (length (filter OpenAI.isValid texts) =? 0); [intros []|].
  destruct clientReady; simpl negb; cbv iota; [|intros []].
  intros H.
  change 0 with (OpenAI.BATCH_SIZE * 0) in H at 1.
  apply EmbeddingFacts.batchLoop_requests in H as [[] | [Hl Hi]].
  split; [exact Hl|]. intros input Hin.
  destruct (Hi input Hin) as (t & Ht & ->).
  apply filter_In in Ht as [Ht Hv].
  destruct (EmbeddingFacts.isValid_prepare t Hv) as (H1 & H2 & r & H3).
  split; [exact H1|]. split; [exact H2|]. now exists t, r.
Qed.

Lemma getEmbeddings_requests_are_batches_witness :
  0 < length [str "Acme"] <= 100.
Proof.
  apply (getEmbeddings_requests_are_batches true
           (fun _ inputs => Some (map (fun _ => tt) inputs))
           [str "  Acme "; str "   "] [str "Acme"]).
  vm_compute. left. reflexivity.
Defined.

(** X15. When [getEmbeddings] returns, it has sent the texts that are not
    blank, prepared, in their order, cut into consecutive requests, request
    number [k] to the batch call number [k]; every call has returned as
    many embeddings as it got inputs, and the result is all of them in
    order.  There are thus as many embeddings as texts that are not blank,
    which is fewer than texts when one of them is blank. *)
Theorem getEmbeddings_returns_one_embedding_per_valid_text {E : Type}
  (clientReady : bool) (create : nat -> list jstring -> option (list E))
  (texts : list jstring) (embeddings : list E) :
  OpenAI.result (OpenAI.getEmbeddings clientReady create texts) = inr embeddings ->
  let sent := OpenAI.requests (OpenAI.getEmbeddings clientReady create texts) in
  concat sent = map OpenAI.prepare (filter OpenAI.isValid texts) /\
  length embeddings = length (filter OpenAI.isValid texts) /\
  exists datas,
    embeddings = concat datas /\ length datas = length sent /\
    forall k req, nth_error sent k = Some req ->
      exists data, nth_error datas k = Some data /\
                   create (S k) req = Some data /\
                   length data = length req.
Proof.
  unfold OpenAI.getEmbeddings.
  destruct (length texts =? 0); [discriminate|].
  destruct (length (filter OpenAI.isValid texts) =? 0); [discriminate|].
  destruct clientReady; simpl negb; cbv iota; [|discriminate].
  set (validTexts := filter OpenAI.isValid texts).
  change 0 with (OpenAI.BATCH_SIZE * 0) at 1 2 3 4.
  intros H.
  destruct (EmbeddingFacts.batchLoop_success create (length validTexts)
              validTexts 0 [] [] embeddings) as (reqs & datas & Hr & He & Hc & Hl & Hk);
    [lia | exact H |].
  cbv zeta. rewrite Hr. simpl app in *. simpl skipn in Hc.
  split; [exact Hc|].
  assert (Hlen : length (concat datas) = length (concat reqs)).
  { clear - Hl Hk. revert datas Hl Hk.
    generalize 0 as j.
    induction reqs as [|r reqs IH]; intros j [|d datas] Hl Hk;
      try discriminate; [reflexivity|].
    simpl. rewrite !length_app.
    destruct (Hk 0 r eq_refl) as (d' & Hd & _ & Hdl). injection Hd as <-.
    rewrite Hdl. f_equal. apply (IH (S j)); [now injection Hl|].
    intros k req Hq. destruct (Hk (S k) req Hq) as (x & Hx & Hc' & Hxl).
    exists x. simpl in Hx. replace (S j + k) with (j + S k) by lia. auto. }
  split; [rewrite He, Hlen, Hc; apply length_map|].
  exists datas. split; [exact He|]. split; [exact Hl|]. exact Hk.
Qed.

Lemma getEmbeddings_returns_one_embedding_per_valid_text_witness :
  length [tt] = length (filter OpenAI.isValid [str "  Acme "; str "   "]).
Proof.
  refine (proj1 (proj2
    (getEmbeddings_returns_one_embedding_per_valid_text true
       (fun _ inputs => Some (map (fun _ => tt) inputs))
       [str "  Acme "; str "   "] [tt] _))).
  vm_compute. reflexivity.
Defined.

(** X16. When [getEmbeddings] throws, it is for one of four reasons.
    Without any text, with blank texts only, or with no API client, it has
    sent no request.  Otherwise it is the failure of the batch number [k]:
    exactly [k] requests were sent, the first [k - 1] were answered with as
    many embeddings as inputs, and the last was not answered or got another
    number of embeddings; nothing is sent after it. *)
Theorem getEmbeddings_failures {E : Type} (clientReady : bool)
  (create : nat -> list jstring -> option (list E)) (texts : list jstring)
  (f : OpenAI.Failure) :
  OpenAI.result (OpenAI.getEmbeddings clientReady create texts) = inl f ->
  let sent := OpenAI.requests (OpenAI.getEmbeddings clientReady create texts) in
  (f = OpenAI.NoTexts /\ texts = [] /\ sent = []) \/
  (f = OpenAI.AllEmpty /\ texts <> [] /\
   forallb (fun t => negb (OpenAI.isValid t)) texts = true /\ sent = []) \/
  (f = OpenAI.NoApiKey /\ clientReady = false /\
   existsb OpenAI.isValid texts = true /\ sent = []) \/
  (exists earlier req,
     f = OpenAI.BatchFailed (length sent) /\ sent = earlier ++ [req] /\
     (create (length sent) req = None \/
      exists data, create (length sent) req = Some data /\
                   length data <> length req) /\
     forall k r, nth_error earlier k = Some r ->
       exists data, create (S k) r = Some data /\ length data = length r).
Proof.
  unfold OpenAI.getEmbeddings.
  destruct texts as [|t0 texts0] eqn:Et.
  { simpl. intros [= <-]. left. auto. }
  rewrite <- Et. replace (length texts =? 0) with false by now rewrite Et.
  destruct (filter OpenAI.isValid texts) as [|v vs] eqn:Ev.
  { simpl. intros [= <-]. right. left.
    split; [reflexivity|]. split; [rewrite Et; discriminate|].
    split; [|reflexivity].
    apply forallb_forall. intros t Ht.
    destruct (OpenAI.isValid t) eqn:Hv; [|reflexivity].
    assert (C : In t []) by (rewrite <- Ev; apply filter_In; auto).
    destruct C. }
  rewrite <- Ev.
  replace (length (filter OpenAI.isValid texts) =? 0) with false
    by now rewrite Ev.
  destruct clientReady; simpl negb; cbv iota.
  - intros H. right. right. right.
    change 0 with (OpenAI.BATCH_SIZE * 0) in H at 1.
    destruct (EmbeddingFacts.batchLoop_failure create _ _ 0 [] [] f H)
      as (reqs & req & Hr & Hf & Hc & Hk).
    cbv zeta. change (OpenAI.BATCH_SIZE * 0) with 0 in Hr. rewrite Hr.
    simpl app. simpl in Hf, Hc, Hk.
    assert (Hl : length (reqs ++ [req]) = S (length reqs))
      by (rewrite length_app; simpl; lia).
    rewrite Hl. exists reqs, req. auto.
  - simpl. intros [= <-]. right. right. left.
    split; [reflexivity|]. split; [reflexivity|]. split; [|reflexivity].
    apply existsb_exists. exists v.
    assert (Hv : In v (filter OpenAI.isValid texts)) by (rewrite Ev; now left).
    apply filter_In in Hv. exact Hv.
Qed.

Lemma getEmbeddings_failures_witness :
  OpenAI.result
    (OpenAI.getEmbeddings (E := unit) true (fun _ _ => None) [str "Acme"])
  = inl (OpenAI.BatchFailed 1) /\
  exists earlier req,
    OpenAI.requests
      (OpenAI.getEmbeddings (E := unit) true (fun _ _ => None) [str "Acme"])
    = earlier ++ [req].
Proof.
  assert (H : OpenAI.result
                (OpenAI.getEmbeddings (E := unit) true (fun _ _ => None)
                   [str "Acme"]) = inl (OpenAI.BatchFailed 1))
    by (vm_compute; reflexivity).
  split; [exact H|].
  destruct (getEmbeddings_failures (E := unit) true (fun _ _ => None)
              [str "Acme"] (OpenAI.BatchFailed 1) H)
    as [(C & _) | [(C & _) | [(C & _) | (earlier & req & _ & Hs & _)]]];
    try discriminate C.
  exists earlier, req. exact Hs.
Defined.

Module ReplyFacts.

(** ** The vectors the filters keep are vectors of the store *)

Lemma addToGroup_In v g k vs x :
  In (k, vs) (addToGroup v g) -> In x vs ->
  x = v \/ exists vs', In (k, vs') g /\ In x vs'.
Proof.
  induction g as [|[k0 vs0] g IH]; simpl.
  - intros [[= <- <-] | []] [<- | []]. now left.
  - destruct (JS.eqt k0 (sourceFile (chunk v))).
    + intros [[= <- <-] | H] Hx.
      * apply in_app_or in Hx as [Hx | [<- | []]]; [|now left].
        right. exists vs0. auto.
      * right. exists vs. auto.
    + intros [[= <- <-] | H] Hx.
      * right. exists vs0. auto.
      * destruct (IH H Hx) as [-> | (vs' & H1 & H2)]; [now left|].
        right. exists vs'. auto.
Qed.

Lemma groupByDocument_In l k vs x :
  In (k, vs) (groupByDocument l) -> In x vs -> In x l.
Proof.
  unfold groupByDocument.
  assert (G : forall g,
            In (k, vs) (fold_left (fun g v => addToGroup v g) l g) -> In x vs ->
            In x l \/ exists vs', In (k, vs') g /\ In x vs').
  { induction l as [|v l IH]; intros g H Hx; simpl in H.
    - right. exists vs. auto.
    - destruct (IH _ H Hx) as [Hl | (vs' & H1 & H2)]; [left; now right|].
      destruct (addToGroup_In _ _ _ _ _ H1 H2) as [-> | Hg];
        [left; now left | now right]. }
  intros H Hx. destruct (G [] H Hx) as [Hl | (vs' & [] & _)]. exact Hl.
Qed.

Lemma strictDocumentFilter_In e l v :
  In v (strictDocumentFilter e l) -> In v l.
Proof. unfold strictDocumentFilter. intros H. now apply filter_In in H. Qed.

Lemma scanChunks_In e sorted :
  forall st acc v,
    In v (snd (scanChunks e sorted st acc)) -> In v acc \/ In v sorted.
Proof.
  induction sorted as [|c cs IH]; intros st acc v H; simpl in H; [now left|].
  apply IH in H. destruct H as [H | H]; [|right; now right].
  destruct (fst (fold_left _ _ st)); [|now left].
  apply in_app_or in H as [H | [<- | []]]; [now left | right; now left].
Qed.

Lemma scanDocuments_In e docs :
  forall found acc v,
    In v (snd (scanDocuments e docs found acc)) ->
    In v acc \/ exists k vs, In (k, vs) docs /\ In v vs.
Proof.
  induction docs as [|[k vs] docs IH]; intros found acc v H; simpl in H;
    [now left|].
  destruct (scanChunks e (sortByChunkIndex vs) (false, found) acc)
    as [found' acc'] eqn:E.
  apply IH in H. destruct H as [H | (k' & vs' & H1 & H2)].
  - assert (H' : In v (snd (scanChunks e (sortByChunkIndex vs) (false, found) acc)))
      by now rewrite E.
    apply scanChunks_In in H'. destruct H' as [H' | H']; [now left|].
    right. exists k, vs. split; [now left|].
    unfold sortByChunkIndex in H'. now apply HandlerFacts.sortBy_In in H'.
  - right. exists k', vs'. split; [now right | exact H2].
Qed.

Lemma sectionAwareRetrieval_In e l v :
  In v (sectionAwareRetrieval e l) -> In v l.
Proof.
  unfold sectionAwareRetrieval.
  destruct (scanDocuments e (groupByDocument l) false []) as [found acc] eqn:E.
  destruct (found && (0 <? length acc)); [|auto].
  intros H.
  assert (H' : In v (snd (scanDocuments e (groupByDocument l) false [])))
    by now rewrite E.
  apply scanDocuments_In in H' as [[] | (k & vs & H1 & H2)].
  eapply groupByDocument_In; eassumption.
Qed.

Lemma categorizeFrom_member ee range l :
  forall i v c, In (v, c) (categorizeFrom ee range i l) -> In v l.
Proof.
  induction l as [|x l IH]; intros i v c H; simpl in H; [destruct H|].
  destruct H as [[= <- <-] | H]; [now left | right; eapply IH; eassumption].
Qed.

Lemma categorizeAll_In ee l v c :
  In (v, c) (categorizeAll ee l) -> In v l.
Proof.
  unfold categorizeAll. intros H.
  apply in_flat_map in H as ([k vs] & Hg & H). simpl in H.
  unfold categorizeDocument in H. apply categorizeFrom_member in H.
  unfold sortByChunkIndex in H. apply HandlerFacts.sortBy_In in H.
  eapply groupByDocument_In; eassumption.
Qed.

Lemma categorized_In ee l f v :
  In v (map fst (filter f (categorizeAll ee l))) -> In v l.
Proof.
  intros H. apply in_map_iff in H as ([v' c] & <- & H).
  apply filter_In in H as [H _]. eapply categorizeAll_In. exact H.
Qed.

Lemma comparisonFilters_In query store all v :
  comparisonFilters query store = Next all -> In v all -> In v store.
Proof.
  unfold comparisonFilters.
  set (ee := extractEntityEarly query).
  set (a1 := match ee with
             | Some e => if comparisonFiltersApply query
                         then strictDocumentFilter e store else store
             | None => store end).
  set (a2 := match ee with
             | Some e => if comparisonFiltersApply query && (0 <? length a1)
                         then sectionAwareRetrieval e a1 else a1
             | None => a1 end).
  assert (H1 : forall x, In x a1 -> In x store).
  { unfold a1. destruct ee as [e|]; [|auto].
    destruct (comparisonFiltersApply query); [|auto].
    intros x. apply strictDocumentFilter_In. }
  assert (H2 : forall x, In x a2 -> In x store).
  { unfold a2. destruct ee as [e|]; [|auto].
    destruct (comparisonFiltersApply query && (0 <? length a1)); [|auto].
    intros x Hx. apply H1. eapply sectionAwareRetrieval_In. exact Hx. }
  destruct (comparisonFiltersApply query && (0 <? length a2)).
  - unfold comparisonSectionChunks, otherChunks.
    destruct (map fst (filter (fun vc => isInSection (snd vc)) (categorizeAll ee a2)))
      as [|s ss] eqn:Es.
    + destruct (map fst (filter (fun vc => isOther (snd vc)) (categorizeAll ee a2)))
        as [|o os] eqn:Eo; [discriminate|].
      intros [= <-] Hv. apply H2. rewrite <- Eo in Hv.
      eapply categorized_In. exact Hv.
    + intros [= <-] Hv. apply H2. rewrite <- Es in Hv.
      eapply categorized_In. exact Hv.
  - intros [= <-]. apply H2.
Qed.

(** ** The replies of the handler *)

(** A reply is one of five fixed replies or comes from a vector of the
    store. *)
Lemma handler_reply env store query r :
  handler env store query = Json r ->
  (store = [] /\ r = noDocumentsResponse) \/
  r = noComparisonResponse \/
  r = noRelevantResponse \/
  (exists subject best,
     In best store /\ r = synthesizedDefinition subject best) \/
  (exists cands,
     (forall c, In c cands -> In (vector c) store) /\
     r = noDefinitionResponse cands) \/
  (exists qi best missing,
     In (vector best) store /\
     r = topicFailureResponse qi (chunk (vector best)) missing) \/
  (exists qi best,
     In (vector best) store /\ r = bestMatchResponse env qi best).
Proof.
  unfold handler, candidatesToRank.
  destruct (score env store query) as [r0|s] eqn:Es.
  - (* the reply comes from Steps 1 to 6 *)
    simpl. intros ->. unfold score in Es.
    destruct (length (JS.trim query) =? 0); [discriminate|].
    destruct (length store =? 0) eqn:El.
    { injection Es as <-. left. split; [|reflexivity].
      destruct store; [reflexivity | discriminate]. }
    destruct (comparisonFilters query store) as [r1|all] eqn:Ec.
    { simpl in Es. injection Es as ->. right. left.
      unfold comparisonFilters in Ec.
      destruct (comparisonFiltersApply query && _); [|discriminate].
      destruct (comparisonSectionChunks _ _); [|discriminate].
      destruct (otherChunks _ _); [|discriminate].
      now injection Ec as <-. }
    simpl in Es. destruct (getEmbedding env query); [|discriminate].
    simpl in Es. destruct (scoreAll _ _ _ _ _); discriminate.
  - simpl.
    destruct (HandlerFacts.score_Next _ _ _ _ Es)
      as (e & He & Hi & Hc & Hg & Hv & Hs).
    assert (Hstore : forall v, In v (vectorsToSearch s) -> In v store).
    { intros v Hin. rewrite Hv in Hin.
      apply DefinitionFacts.vectorsToSearchOf_In in Hin.
      eapply comparisonFilters_In; eassumption. }
    assert (Hcand : forall c, In c (candidates s) -> In (vector c) store).
    { intros c Hin. destruct (HandlerFacts.scoreAll_In _ _ _ _ _ _ _ Hs Hin)
        as (sim & Hin' & _). now apply Hstore. }
    destruct (definitionStage env (info s) (chunksByDocument s)
                (vectorsToSearch s) (candidates s)) as [r1|toRank] eqn:Ed.
    + (* the reply of the synthesis fallback *)
      simpl. intros ->. unfold definitionStage in Ed.
      destruct (isDefinition (definitionQuery (info s))); [|discriminate].
      destruct (subject (definitionQuery (info s))) as [subj|]; [|discriminate].
      destruct (tier1Candidates _ _ _); [|discriminate].
      destruct (tier2Candidates _ _ _); [|discriminate].
      destruct (bestIntroChunk env subj (chunksByDocument s) (vectorsToSearch s))
        as [best|] eqn:Eb; injection Ed as <-.
      * right. right. right. left. exists subj, best. split; [|reflexivity].
        unfold bestIntroChunk in Eb.
        apply SynthesisFacts.pickIntroChunk_spec in Eb
          as [C | (Hin & _)]; [discriminate|].
        apply Hstore.
        exact (proj1 (HandlerFacts.sortBy_In _ _ _) Hin).
      * right. right. right. right. left. exists (candidates s). auto.
    + simpl. intros [= <-]. unfold respond.
      destruct (rankedCandidates (info s) toRank) as [|best rest_] eqn:Er.
      * right. right. now left.
      * assert (Hb : In (vector best) store).
        { apply Hcand.
          apply (HandlerFacts.definitionStage_In _ _ _ _ _ _ _ Ed).
          apply (HandlerFacts.rankedCandidates_In (info s)).
          rewrite Er. now left. }
        destruct (topicCoverageCheck (info s) (vectorsToSearch s) best)
          as [r1|] eqn:Et.
        -- right. right. right. right. right. left.
           unfold topicCoverageCheck in Et.
           destruct (negb _ && _); [|discriminate].
           destruct (0 <? _); [|discriminate].
           destruct (_ && _ && _); [|discriminate].
           injection Et as <-. do 3 eexists. split; [exact Hb | reflexivity].
        -- right. right. right. right. right. right.
           exists (info s), best. auto.
Qed.

End ReplyFacts.



(** X18. The source of a reply is empty or the file name of a stored
    vector: the handler never names a document that is not in the store. *)
Theorem reply_source_is_stored (env : Env) (store : list DocumentVector)
  (query : jstring) (r : SearchResponse) :
  handler env store query = Json r ->
  source r = [] \/
  exists v, In v store /\ sourceFile (chunk v) = source r.
Proof.
  intros H.
  destruct (ReplyFacts.handler_reply _ _ _ _ H)
    as [[_ ->] | [-> | [-> | [(s & b & Hb & ->) | [(c & Hc & ->) |
        [(qi & b & m & Hb & ->) | (qi & b & Hb & ->)]]]]]]; simpl;
    try (now left); try (right; eexists; split; [eassumption | reflexivity]).
  destruct c as [|c0 c]; [now left|].
  right. exists (vector c0). split; [apply Hc; now left | reflexivity].
Qed.

Lemma reply_source_is_stored_witness :
  exists r,
    handler Samples.env Samples.introStore (str "What is Acme?") = Json r /\
    (source r = [] \/
     exists v, In v Samples.introStore /\ sourceFile (chunk v) = source r).
Proof.
  assert (H : exists r,
             handler Samples.env Samples.introStore (str "What is Acme?") = Json r).
  { eexists. vm_compute. reflexivity. }
  destruct H as [r E]. exists r. split; [exact E|].
  exact (reply_source_is_stored _ _ _ _ E).
Defined.

(** X19. Once a document is deleted from the store, no reply of the search
    handler names it as its source. *)
Theorem deleted_document_is_never_the_source (env : Env)
  (store : list DocumentVector) (name query : jstring) (r : SearchResponse) :
  name <> [] ->
  handler env (Store.removeDocument name store) query = Json r ->
  source r <> name.
Proof.
  intros Hn H.
  assert (Hs : forall v, In v (Store.removeDocument name store) ->
                         sourceFile (chunk v) <> name).
  { intros v Hv. now apply StoreFacts.removeDocument_In in Hv. }
  destruct (ReplyFacts.handler_reply _ _ _ _ H)
    as [[_ ->] | [-> | [-> | [(s & b & Hb & ->) | [(c & Hc & ->) |
        [(qi & b & m & Hb & ->) | (qi & b & Hb & ->)]]]]]]; simpl;
    try congruence; try (now apply Hs).
  destruct c as [|c0 c]; [congruence|]. apply Hs, Hc. now left.
Qed.

Lemma deleted_document_is_never_the_source_witness :
  exists r,
    handler Samples.env
      (Store.removeDocument (str "guide.txt") Samples.uploadedGuideStore)
      (str "What is Acme?") = Json r /\
    source r <> str "guide.txt".
Proof.
  assert (H : exists r,
             handler Samples.env
               (Store.removeDocument (str "guide.txt") Samples.uploadedGuideStore)
               (str "What is Acme?") = Json r).
  { eexists. vm_compute. reflexivity. }
  destruct H as [r E]. exists r. split; [exact E|].
  apply (deleted_document_is_never_the_source Samples.env
           Samples.uploadedGuideStore (str "guide.txt") (str "What is Acme?") r);
    [discriminate | exact E].
Defined.

(** X20. The handler answers with the status 400 exactly when the query is
    blank, whatever the store holds and whatever the collaborators do. *)
Theorem bad_request_iff_blank_query (env : Env) (store : list DocumentVector)
  (query : jstring) :
  handler env store query = BadRequest <-> JS.trim query = [].
Proof.
  unfold handler, candidatesToRank, score. split.
  - destruct (JS.trim query) as [|c t]; [reflexivity|]. simpl length.
    simpl Nat.eqb. cbv iota.
    destruct (length store =? 0); [discriminate|].
    destruct (comparisonFilters query store) as [r1|all] eqn:Ec.
    { simpl. intros ->. unfold comparisonFilters in Ec.
      destruct (comparisonFiltersApply query && _); [|discriminate].
      destruct (comparisonSectionChunks _ _); [|discriminate].
      destruct (otherChunks _ _); discriminate. }
    simpl. destruct (getEmbedding env query); [|discriminate].
    simpl. destruct (scoreAll _ _ _ _ _) as [cs|]; [|discriminate].
    simpl. unfold definitionStage. simpl.
    destruct (isDefinition _); [|discriminate].
    destruct (subject _); [|discriminate].
    destruct (tier1Candidates _ _ _); [|discriminate].
    destruct (tier2Candidates _ _ _); [|discriminate].
    destruct (bestIntroChunk _ _ _ _); discriminate.
  - intros ->. reflexivity.
Qed.

(** X21. [DELETE /clear] empties the store and reports how many vectors it
    held; after it [GET /] lists no document, and every search with a query
    that is not blank is answered with the notice that no documents have
    been uploaded, before the embedding provider is asked. *)
Theorem cleared_store_has_no_documents (env : Env) (vectors : Store.Vectors)
  (query : jstring) :
  JS.trim query <> [] ->
  let (reply, after) := Documents.clearDocuments vectors in
  after = [] /\
  Documents.cleared reply = length vectors /\
  Documents.clearedRemaining reply = 0 /\
  Documents.documents (Documents.getDocuments after) = [] /\
  Documents.count (Documents.getDocuments after) = 0 /\
  handler env after query = Json noDocumentsResponse.
Proof.
  intros H. simpl. repeat split.
  unfold handler, candidatesToRank, score.
  destruct (JS.trim query); [contradiction | reflexivity].
Qed.

Lemma cleared_store_has_no_documents_witness :
  handler Samples.env (snd (Documents.clearDocuments Samples.introStore))
    (str "What is Acme?") = Json noDocumentsResponse.
Proof.
  pose proof (cleared_store_has_no_documents Samples.env Samples.introStore
                (str "What is Acme?")) as H.
  destruct (Documents.clearDocuments Samples.introStore) as [reply after].
  apply H. vm_compute. discriminate.
Defined.

(** X22. When the embedding provider fails for a query that is not blank
    and the store is not empty, the handler answers with the status 500,
    unless the comparison filters have already answered that no comparison
    was found. *)
Theorem provider_failure_is_a_server_error (env : Env)
  (store : list DocumentVector) (query : jstring) :
  getEmbedding env query = None ->
  JS.trim query <> [] -> store <> [] ->
  handler env store query = ServerError \/
  (comparisonFiltersApply query = true /\
   handler env store query = Json noComparisonResponse).
Proof.
  intros He Hq Hs. unfold handler, candidatesToRank, score.
  destruct (JS.trim query); [contradiction|]. simpl length. simpl Nat.eqb.
  cbv iota.
  destruct store as [|v store]; [contradiction|]. simpl length. simpl Nat.eqb.
  cbv iota.
  destruct (comparisonFilters query (v :: store)) as [r1|all] eqn:Ec.
  - right. simpl. unfold comparisonFilters in Ec.
    destruct (comparisonFiltersApply query) eqn:Ea; [|discriminate].
    split; [reflexivity|].
    destruct (true && _); [|discriminate].
    destruct (comparisonSectionChunks _ _); [|discriminate].
    destruct (otherChunks _ _); [|discriminate].
    now injection Ec as <-.
  - left. simpl. rewrite He. reflexivity.
Qed.

Lemma provider_failure_is_a_server_error_witness :
  handler {| getEmbedding := fun _ => None;
             calculateSimilarity := Samples.unitSimilarity;
             localeCompare := Samples.compareCodes;
             extractFocusedSnippet := fun t _ => t;
             extractSnippetFromPhraseIndex := fun t _ _ => t |}
          Samples.introStore (str "What is Acme?") = ServerError.
Proof.
  destruct (provider_failure_is_a_server_error
              {| getEmbedding := fun _ => None;
                 calculateSimilarity := Samples.unitSimilarity;
                 localeCompare := Samples.compareCodes;
                 extractFocusedSnippet := fun t _ => t;
                 extractSnippetFromPhraseIndex := fun t _ _ => t |}
              Samples.introStore (str "What is Acme?")) as [H | [C _]].
  - reflexivity.
  - vm_compute. discriminate.
  - vm_compute. discriminate.
  - exact H.
  - vm_compute in C. discriminate.
Defined.

Module EscapeFacts.

Ltac by_char c := destruct c as [[] [] [] [] [] [] [] []].

Lemma escapeRegExp_cons c t :
  escapeRegExp (c :: t) =
  (if isSpecial c then ["\"%char; c] else [c]) ++ escapeRegExp t.
Proof. reflexivity. Qed.

(** No quantifier follows where an escaped text starts. *)
Lemma pQuant_escaped t rest_ :
  (forall r, pQuant r rest_ = Some (r, rest_)) ->
  forall r, pQuant r (escapeRegExp t ++ rest_) = Some (r, escapeRegExp t ++ rest_).
Proof.
  intros H r. destruct t as [|c t]; [apply H|].
  rewrite escapeRegExp_cons.
  generalize (escapeRegExp t ++ rest_) as s. intros s.
  rewrite <- app_assoc.
  by_char c; reflexivity.
Qed.

(** An escaped character is read as that character. *)
Lemma pTerm_escaped f c s n :
  pTerm (S f) ((if isSpecial c then ["\"%char; c] else [c]) ++ s) n =
  withQuant n (RLit [c]) s.
Proof. by_char c; reflexivity. Qed.

Lemma pSeq_escaped t :
  forall f0 rest_ n b s2 n2,
    pSeq (S f0) rest_ n = Some (b, s2, n2) ->
    (forall r, pQuant r rest_ = Some (r, rest_)) ->
    pSeq (length t + S f0) (escapeRegExp t ++ rest_) n =
    Some (fold_right (fun c acc => mkSeq (RLit [c]) acc) b t, s2, n2).
Proof.
  induction t as [|c t IH]; intros f0 rest_ n b s2 n2 H Hq; [exact H|].
  rewrite escapeRegExp_cons, <- app_assoc.
  change (length (c :: t) + S f0) with (S (length t + S f0)).
  assert (Hhead : forall s,
            pSeq (S (length t + S f0))
                 ((if isSpecial c then ["\"%char; c] else [c]) ++ s) n =
            match pTerm (length t + S f0)
                    ((if isSpecial c then ["\"%char; c] else [c]) ++ s) n with
            | Some (a, s', n') =>
                match pSeq (length t + S f0) s' n' with
                | Some (b, s2, n2) => Some (mkSeq a b, s2, n2)
                | None => None
                end
            | None => None
            end).
  { intros s. by_char c; reflexivity. }
  rewrite Hhead. replace (length t + S f0) with (S (length t + f0)) at 1 by lia.
  rewrite pTerm_escaped. unfold withQuant.
  rewrite (pQuant_escaped t rest_ Hq).
  rewrite (IH f0 rest_ n b s2 n2 H Hq). reflexivity.
Qed.

Lemma literal_chain t :
  fold_right (fun c acc => mkSeq (RLit [c]) acc) REmpty t =
  match t with [] => REmpty | _ => RLit t end.
Proof.
  induction t as [|c t IH]; [reflexivity|].
  change (fold_right (fun c acc => mkSeq (RLit [c]) acc) REmpty (c :: t))
    with (mkSeq (RLit [c])
            (fold_right (fun c acc => mkSeq (RLit [c]) acc) REmpty t)).
  rewrite IH. now destruct t.
Qed.

Lemma literal_chain_boundary c t :
  fold_right (fun c acc => mkSeq (RLit [c]) acc) RWordB (c :: t) =
  RSeq (RLit (c :: t)) RWordB.
Proof.
  revert c. induction t as [|d t IH]; intros c; [reflexivity|].
  change (fold_right _ RWordB (c :: d :: t))
    with (mkSeq (RLit [c]) (fold_right (fun c acc => mkSeq (RLit [c]) acc)
                                       RWordB (d :: t))).
  now rewrite IH.
Qed.

Lemma escapeRegExp_length t : length t <= length (escapeRegExp t).
Proof.
  induction t as [|c t IH]; [simpl; lia|].
  rewrite escapeRegExp_cons, length_app.
  destruct (isSpecial c); simpl; lia.
Qed.

Lemma parse_escaped t :
  parse (escapeRegExp t) = Some (match t with [] => REmpty | _ => RLit t end).
Proof.
  unfold parse.
  pose proof (escapeRegExp_length t) as L.
  replace (2 * length (escapeRegExp t) + 2)
    with (S (length t + S (2 * length (escapeRegExp t) - length t))) by lia.
  cbn [pDisj].
  rewrite <- (app_nil_r (escapeRegExp t)) at 2.
  rewrite (pSeq_escaped t _ [] 0 REmpty [] 0); [|reflexivity | reflexivity].
  now rewrite literal_chain.
Qed.

Lemma pSeq_boundary f s n :
  pSeq (S (S f)) ("\"%char :: "b"%char :: s) n =
  match pSeq (S f) s n with
  | Some (b, s2, n2) => Some (mkSeq RWordB b, s2, n2)
  | None => None
  end.
Proof. reflexivity. Qed.

Lemma pDisj_whole f s r n :
  pSeq f s 0 = Some (r, [], n) -> pDisj (S f) s 0 = Some (r, [], n).
Proof. intros H. cbn [pDisj]. now rewrite H. Qed.

Lemma parse_wordPattern c t :
  parse (str "\b" ++ escapeRegExp (c :: t) ++ str "\b") =
  Some (RSeq RWordB (RSeq (RLit (c :: t)) RWordB)).
Proof.
  unfold parse.
  pose proof (escapeRegExp_length (c :: t)) as L.
  assert (El : length (str "\b" ++ escapeRegExp (c :: t) ++ str "\b")
               = length (escapeRegExp (c :: t)) + 4).
  { rewrite !length_app. simpl. lia. }
  rewrite El.
  replace (2 * (length (escapeRegExp (c :: t)) + 4) + 2)
    with (S (S (length (c :: t) +
                S (S (2 * length (escapeRegExp (c :: t)) + 6 - length (c :: t))))))
    by lia.
  change (str "\b" ++ escapeRegExp (c :: t) ++ str "\b")
    with ("\"%char :: "b"%char :: escapeRegExp (c :: t) ++ str "\b").
  rewrite (pDisj_whole _ _ (RSeq RWordB (RSeq (RLit (c :: t)) RWordB)) 0);
    [reflexivity|].
  change (S (length (c :: t) +
             S (S (2 * length (escapeRegExp (c :: t)) + 6 - length (c :: t)))))
    with (S (S (length t +
                S (S (2 * length (escapeRegExp (c :: t)) + 6 - length (c :: t)))))).
  rewrite pSeq_boundary.
  change (S (length t +
             S (S (2 * length (escapeRegExp (c :: t)) + 6 - length (c :: t)))))
    with (length (c :: t) +
          S (S (2 * length (escapeRegExp (c :: t)) + 6 - length (c :: t)))).
  rewrite (pSeq_escaped (c :: t) _ (str "\b") 0 RWordB [] 0);
    [|reflexivity | reflexivity].
  now rewrite literal_chain_boundary.
Qed.

End EscapeFacts.

(** X23. Escaping makes every string a literal pattern: whatever
    characters a string holds, its escaped form is a well-formed pattern
    that stands for the string itself, and the word pattern built from a
    string that is not empty is that literal between two word boundaries. *)
Theorem escaped_pattern_is_the_literal (t : jstring) (c : ascii) :
  parse (escapeRegExp t) = Some (match t with [] => REmpty | _ => RLit t end) /\
  node (wordPattern (c :: t)) = RSeq RWordB (RSeq (RLit (c :: t)) RWordB).
Proof.
  split; [apply EscapeFacts.parse_escaped|].
  unfold wordPattern, RegExpNew. cbn [node].
  now rewrite EscapeFacts.parse_wordPattern.
Qed.

Module WordFacts.

Lemma last_cons {A} (x : A) l d : last (x :: l) d = last l x.
Proof.
  revert x d. induction l as [|y l IH]; intros x d; [reflexivity|].
  change (last (x :: y :: l) d) with (last (y :: l) d).
  now rewrite (IH y d), (IH y x).
Qed.

Lemma last_middle {A} (a : list A) x b d : last (a ++ x :: b) d = last b x.
Proof.
  revert d. induction a as [|y a IH]; intros d; [apply last_cons|].
  change ((y :: a) ++ x :: b) with (y :: (a ++ x :: b)).
  now rewrite last_cons, IH.
Qed.

Lemma mstate_eq a b :
  pos a = pos b -> prev a = prev b -> rest a = rest b -> caps a = caps b ->
  a = b.
Proof. destruct a, b. simpl. intros -> -> -> ->. reflexivity. Qed.

(** What reading a literal without regard to case does to the state. *)
Lemma eatLit_iff l :
  forall st st',
    eatLit true l st = Some st' <->
    exists m,
      rest st = m ++ rest st' /\
      JS.toLowerCase m = JS.toLowerCase l /\
      prev st' = last (map Some m) (prev st) /\
      pos st' = pos st + length m /\ caps st' = caps st.
Proof.
  induction l as [|a l IH]; intros st st'; simpl.
  - split.
    + intros [= <-]. exists []. simpl. auto.
    + intros (m & Hr & Hl & Hp & Hq & Hc).
      destruct m; [|discriminate]. simpl in *.
      f_equal. apply mstate_eq; auto. lia.
  - destruct (rest st) as [|c t] eqn:E.
    + split; [discriminate|].
      intros (m & Hr & Hl & _). destruct m; simpl in *; discriminate.
    + unfold sameChar. destruct (JS.eqc (JS.toLower a) (JS.toLower c)) eqn:Hs.
      * apply Ascii.eqb_eq in Hs. rewrite IH. split.
        -- intros (m & Hr & Hl & Hp & Hq & Hc). simpl in *.
           exists (c :: m). simpl. rewrite Hr, Hl, Hs.
           repeat split; auto; [|lia].
           rewrite Hp. symmetry. apply (last_cons (Some c)).
        -- intros (m & Hr & Hl & Hp & Hq & Hc).
           destruct m as [|c' m]; [discriminate|]. simpl in *.
           injection Hr as <- ->. injection Hl as _ Hl.
           exists m. simpl. repeat split; auto; [|lia].
           rewrite Hp. apply (last_cons (Some c)).
      * split; [discriminate|].
        intros (m & Hr & Hl & _).
        destruct m as [|c' m]; [discriminate|]. simpl in *.
        injection Hr as <- _. injection Hl as Hl _.
        unfold JS.eqc in Hs. rewrite Hl, Ascii.eqb_refl in Hs. discriminate.
Qed.

(** The search finds a match exactly when the pattern matches at some
    position of the text. *)
Lemma searchFrom_iff ic ml r t :
  forall p pv,
    searchFrom ic ml r p pv t <> None <->
    exists pre suf,
      t = pre ++ suf /\
      run ic ml r {| pos := p + length pre; prev := last (map Some pre) pv;
                     rest := suf; caps := [] |} Some <> None.
Proof.
  induction t as [|c t IH]; intros p pv; simpl.
  - split.
    + intros H. exists [], []. simpl. rewrite Nat.add_0_r.
      split; [reflexivity|]. now destruct (run ic ml r _ Some).
    + intros (pre & suf & E & H).
      destruct pre; [|discriminate]. destruct suf; [|discriminate].
      simpl in H. rewrite Nat.add_0_r in H.
      now destruct (run ic ml r _ Some).
  - destruct (run ic ml r {| pos := p; prev := pv; rest := c :: t; caps := [] |}
                Some) eqn:E.
    + split; [|discriminate]. intros _. exists [], (c :: t). simpl.
      rewrite Nat.add_0_r, E. split; [reflexivity | discriminate].
    + rewrite IH. split.
      * intros (pre & suf & -> & H). exists (c :: pre), suf. simpl length.
        split; [reflexivity|].
        replace (p + S (length pre)) with (S p + length pre) by lia.
        change (map Some (c :: pre)) with (Some c :: map Some pre).
        now rewrite last_cons.
      * intros (pre & suf & Ht & H). destruct pre as [|c' pre].
        -- simpl in Ht, H. subst suf. rewrite Nat.add_0_r, E in H.
           now contradiction H.
        -- injection Ht as <- ->. exists pre, suf. split; [reflexivity|].
           simpl length in H.
           replace (p + S (length pre)) with (S p + length pre) in H by lia.
           change (map Some (c :: pre)) with (Some c :: map Some pre) in H.
           now rewrite last_cons in H.
Qed.

Lemma test_iff re t :
  test re t = true <->
  exists pre suf,
    t = pre ++ suf /\
    run (ignoreCase re) (multiline re) (node re)
      {| pos := length pre; prev := last (map Some pre) None;
         rest := suf; caps := [] |} Some <> None.
Proof.
  unfold test, exec.
  pose proof (searchFrom_iff (ignoreCase re) (multiline re) (node re) t 0 None)
    as H. simpl in H. rewrite <- H.
  destruct (searchFrom _ _ _ 0 None t) as [[i st]|]; split;
    try discriminate; try reflexivity.
  intros C. now contradiction C.
Qed.

End WordFacts.

(** X24. The word pattern of a string [e] that is not empty matches a text
    exactly when the text holds [e], its letters compared without regard to
    case, with a word boundary before it and after it: of the character
    before and the first character of the occurrence, one is a word
    character and the other is not (or is missing), and the same holds for
    its last character and the character after. *)
Theorem wordPattern_matches_whole_words (c : ascii) (e t : jstring) :
  test (wordPattern (c :: e)) t = true <->
  exists pre m post,
    t = pre ++ m ++ post /\
    JS.toLowerCase m = JS.toLowerCase (c :: e) /\
    xorb (isWordOpt (last (map Some pre) None))
         (isWordOpt (hd_error (m ++ post))) = true /\
    xorb (isWordOpt (last (map Some (pre ++ m)) None))
         (isWordOpt (hd_error post)) = true.
Proof.
  rewrite WordFacts.test_iff.
  assert (En : node (wordPattern (c :: e))
               = RSeq RWordB (RSeq (RLit (c :: e)) RWordB)).
  { unfold wordPattern, RegExpNew. cbn [node].
    now rewrite EscapeFacts.parse_wordPattern. }
  rewrite En. change (ignoreCase (wordPattern (c :: e))) with true.
  change (multiline (wordPattern (c :: e))) with false.
  assert (Run : forall st,
            run true false (RSeq RWordB (RSeq (RLit (c :: e)) RWordB)) st Some =
            if atWordBoundary st then
              match eatLit true (c :: e) st with
              | Some st' => if atWordBoundary st' then Some st' else None
              | None => None
              end
            else None).
  { intros st. reflexivity. }
  split.
  - intros (pre & suf & -> & H). rewrite Run in H.
    destruct (atWordBoundary _) eqn:B1; [|now contradiction H].
    destruct (eatLit true (c :: e) _) as [st'|] eqn:El; [|now contradiction H].
    destruct (atWordBoundary st') eqn:B2; [|now contradiction H].
    apply WordFacts.eatLit_iff in El as (m & Hr & Hl & Hp & _).
    simpl in Hr, Hp. exists pre, m, (rest st').
    split; [now rewrite Hr|]. split; [exact Hl|].
    unfold atWordBoundary in B1, B2. simpl in B1.
    split; [now rewrite <- Hr|].
    rewrite Hp in B2.
    destruct m as [|c' m]; [discriminate|].
    rewrite map_app.
    change (map Some (c' :: m)) with (Some c' :: map Some m) in *.
    rewrite WordFacts.last_middle. now rewrite WordFacts.last_cons in B2.
  - intros (pre & m & post & -> & Hl & B1 & B2).
    exists pre, (m ++ post). split; [reflexivity|]. rewrite Run.
    unfold atWordBoundary at 1. simpl. rewrite B1.
    set (st := {| pos := length pre; prev := last (map Some pre) None;
                  rest := m ++ post; caps := [] |}).
    set (st' := {| pos := length pre + length m;
                   prev := last (map Some m) (last (map Some pre) None);
                   rest := post; caps := [] |}).
    assert (El : eatLit true (c :: e) st = Some st').
    { apply WordFacts.eatLit_iff. exists m. simpl. auto. }
    change (match eatLit true (c :: e) st with
            | Some st' => if atWordBoundary st' then Some st' else None
            | None => None end <> None).
    rewrite El. unfold atWordBoundary, st'. simpl.
    destruct m as [|c' m]; [discriminate|].
    rewrite map_app in B2.
    change (map Some (c' :: m)) with (Some c' :: map Some m) in *.
    rewrite WordFacts.last_middle in B2.
    rewrite WordFacts.last_cons, B2. discriminate.
Qed.

Module RankFacts.



End RankFacts.



Module WordsFacts.

Import JS.

Lemma join_cons (sep w : jstring) ws :
  join sep (w :: ws) =
  match ws with [] => w | _ :: _ => w ++ sep ++ join sep ws end.
Proof. reflexivity. Qed.

Lemma splitOn_cons sep c t :
  splitOn sep (c :: t) =
  if eqc c sep then [] :: splitOn sep t
  else match splitOn sep t with
       | [] => [[c]]
       | w :: ws => (c :: w) :: ws
       end.
Proof. reflexivity. Qed.

Lemma splitOn_not_nil sep t : splitOn sep t <> [].
Proof.
  destruct t as [|c t]; [discriminate|]. rewrite splitOn_cons.
  destruct (eqc c sep); [discriminate|].
  destruct (splitOn sep t); discriminate.
Qed.

(** Joining the pieces of a split gives the text back. *)
Lemma join_splitOn sep t : join [sep] (splitOn sep t) = t.
Proof.
  induction t as [|c t IH]; [reflexivity|]. rewrite splitOn_cons.
  destruct (eqc c sep) eqn:E.
  - apply Ascii.eqb_eq in E. subst c. rewrite join_cons.
    pose proof (splitOn_not_nil sep t) as Hn.
    destruct (splitOn sep t); [contradiction|]. now rewrite IH.
  - pose proof (splitOn_not_nil sep t) as Hn.
    destruct (splitOn sep t) as [|w ws]; [contradiction|].
    rewrite join_cons in *. destruct ws; simpl; now rewrite <- IH.
Qed.

(** The characters of a piece are characters of the text, and none is the
    separator. *)
Lemma splitOn_chars sep t :
  forall w c, In w (splitOn sep t) -> In c w -> In c t /\ c <> sep.
Proof.
  induction t as [|a t IH]; intros w c Hw Hc.
  - destruct Hw as [<- | []]. destruct Hc.
  - rewrite splitOn_cons in Hw. destruct (eqc a sep) eqn:E.
    + destruct Hw as [<- | Hw]; [destruct Hc|].
      destruct (IH w c Hw Hc). split; [now right | assumption].
    + pose proof (splitOn_not_nil sep t) as Hn.
      destruct (splitOn sep t) as [|w0 ws]; [contradiction|].
      destruct Hw as [<- | Hw].
      * destruct Hc as [<- | Hc].
        -- split; [now left|]. intros ->. unfold eqc in E.
           now rewrite Ascii.eqb_refl in E.
        -- destruct (IH w0 c (or_introl eq_refl) Hc). split; [now right | assumption].
      * destruct (IH w c (or_intror Hw) Hc). split; [now right | assumption].
Qed.

(** In a text of kept characters, single spaces and no space at the end,
    only the first piece can be empty, and it is when the text starts with
    a space. *)
Lemma splitOn_pieces t :
  t <> [] -> forallb kept t = true -> single t = true -> trimEnd t = t ->
  forallb (fun w => 0 <? length w) (tl (splitOn " "%char t)) = true /\
  (noLeadingSpace t = true ->
   forallb (fun w => 0 <? length w) (splitOn " "%char t) = true).
Proof.
  induction t as [|c t IH]; intros Hn Hk Hs Ht; [contradiction|].
  simpl in Hk. apply andb_prop in Hk as [Hc Hk].
  pose proof (NormalizeFacts.single_tail _ _ Hs) as Hs'.
  rewrite NormalizeFacts.trimEnd_cons in Ht.
  rewrite splitOn_cons.
  destruct t as [|c' t].
  - simpl in Ht. destruct (isSpace c) eqn:Hsp; [discriminate|].
    assert (E : eqc c " "%char = false).
    { destruct (eqc c " "%char) eqn:E; [|reflexivity].
      apply Ascii.eqb_eq in E. subst c. discriminate. }
    rewrite E. simpl. auto.
  - assert (Ht' : trimEnd (c' :: t) = c' :: t).
    { destruct (trimEnd (c' :: t)) as [|d r] eqn:E.
      - destruct (isSpace c); discriminate.
      - injection Ht as Hd Hr. now rewrite Hd, Hr. }
    destruct (IH ltac:(discriminate) Hk Hs' Ht') as [IH1 IH2].
    destruct (eqc c " "%char) eqn:E.
    + apply Ascii.eqb_eq in E. subst c.
      assert (Hl : noLeadingSpace (c' :: t) = true).
      { simpl in Hs. apply andb_prop in Hs as [Hs _].
        simpl. now destruct (isSpace c'). }
      split; [exact (IH2 Hl) | discriminate].
    + pose proof (splitOn_not_nil " "%char (c' :: t)) as Hne.
      destruct (splitOn " "%char (c' :: t)) as [|w ws]; [contradiction|].
      simpl in IH1. split; [exact IH1|]. intros _. simpl. exact IH1.
Qed.

Lemma filter_all {A} (f : A -> bool) l : forallb f l = true -> filter f l = l.
Proof.
  induction l as [|x l IH]; [reflexivity|]. simpl.
  intros H. apply andb_prop in H as [Hx Hl]. now rewrite Hx, IH.
Qed.

End WordsFacts.

(** X26. A normalized text is made of lower-case letters, digits,
    underscores and spaces, with no two spaces in a row and none at either
    end.  Its words, the pieces between the spaces, are therefore never
    empty, hold no space, and joined by single spaces they give the
    normalized text back: the phrase the handler looks for in a chunk is
    the normalized query itself. *)
Theorem normalized_text_and_its_words (t : jstring) :
  let n := normalizeTextForMatching t in
  forallb JS.kept n = true /\ JS.single n = true /\ JS.trim n = n /\
  JS.join (str " ") (queryWordsOf n) = n /\
  forall w, In w (queryWordsOf n) ->
    w <> [] /\
    forallb (fun c => JS.isWord c && negb (JS.isUpper c)) w = true.
Proof.
  intros n. destruct (NormalizeFacts.normalize_kept t) as [Hk Hs].
  fold n in Hk, Hs.
  assert (Ht : JS.trim n = n).
  { unfold n, normalizeTextForMatching. apply NormalizeFacts.trim_idem. }
  assert (Hl : JS.noLeadingSpace n = true).
  { rewrite <- Ht. unfold JS.trim.
    apply NormalizeFacts.trimEnd_noLeadingSpace,
      NormalizeFacts.trimStart_noLeadingSpace. }
  assert (He : JS.trimEnd n = n).
  { rewrite <- Ht at 1. unfold JS.trim.
    rewrite NormalizeFacts.trimEnd_idem. exact Ht. }
  split; [exact Hk|]. split; [exact Hs|]. split; [exact Ht|].
  unfold queryWordsOf. split.
  - destruct n as [|c n'] eqn:En; [reflexivity|]. rewrite <- En in *.
    destruct (WordsFacts.splitOn_pieces n) as [_ H]; auto;
      [rewrite En; discriminate|].
    rewrite (WordsFacts.filter_all _ _ (H Hl)).
    apply (WordsFacts.join_splitOn " "%char).
  - intros w Hw. apply filter_In in Hw as [Hw Hlen]. split.
    + destruct w; [discriminate | discriminate].
    + apply forallb_forall. intros c Hc.
      destruct (WordsFacts.splitOn_chars _ _ _ _ Hw Hc) as [Hin Hsp].
      assert (Hkc : JS.kept c = true).
      { rewrite forallb_forall in Hk. now apply Hk. }
      unfold JS.kept in Hkc. apply orb_prop in Hkc as [Hkc | Hkc]; [exact Hkc|].
      apply Ascii.eqb_eq in Hkc. contradiction.
Qed.

Module SnippetFacts.

Import Snippet.

(** ** Pieces of a text *)

Lemma piece_refl (t : jstring) : exists u v, t = u ++ t ++ v.
Proof. exists [], []. now rewrite app_nil_r. Qed.

Lemma piece_trans (a b c : jstring) :
  (exists u v, b = u ++ a ++ v) -> (exists u v, c = u ++ b ++ v) ->
  exists u v, c = u ++ a ++ v.
Proof.
  intros (u1 & v1 & ->) (u2 & v2 & ->).
  exists (u2 ++ u1), (v1 ++ v2). now rewrite <- !app_assoc.
Qed.

Lemma piece_skipn n (t : jstring) : exists u v, t = u ++ skipn n t ++ v.
Proof.
  exists (firstn n t), []. now rewrite app_nil_r, firstn_skipn.
Qed.

Lemma piece_firstn n (t : jstring) : exists u v, t = u ++ firstn n t ++ v.
Proof. exists [], (skipn n t). simpl. now rewrite firstn_skipn. Qed.

Lemma piece_JS_substring a b (t : jstring) :
  exists u v, t = u ++ JS.substring a b t ++ v.
Proof.
  unfold JS.substring.
  eapply piece_trans; [apply piece_firstn | apply piece_skipn].
Qed.

Lemma piece_substring a b (t : jstring) :
  exists u v, t = u ++ substring a b t ++ v.
Proof. unfold substring. apply piece_JS_substring. Qed.

Lemma piece_dropWhile f (t : jstring) :
  exists u v, t = u ++ JS.dropWhile f t ++ v.
Proof.
  induction t as [|c t IH]; [apply piece_refl|]. simpl.
  destruct (f c); [|apply piece_refl].
  destruct IH as (u & v & E). exists (c :: u), v. simpl. now rewrite <- E.
Qed.

Lemma trimEnd_prefix (t : jstring) : exists v, t = JS.trimEnd t ++ v.
Proof.
  induction t as [|c t [v E]]; [now exists []|].
  rewrite NormalizeFacts.trimEnd_cons.
  destruct (JS.trimEnd t) as [|d r].
  - destruct (JS.isSpace c).
    + now exists (c :: t).
    + exists t. reflexivity.
  - exists v. simpl. simpl in E. now rewrite <- E.
Qed.

Lemma piece_trimEnd (t : jstring) : exists u v, t = u ++ JS.trimEnd t ++ v.
Proof. destruct (trimEnd_prefix t) as [v E]. now exists [], v. Qed.

Lemma piece_trim (t : jstring) : exists u v, t = u ++ JS.trim t ++ v.
Proof.
  unfold JS.trim, JS.trimStart.
  eapply piece_trans; [apply piece_trimEnd | apply piece_dropWhile].
Qed.

(** ** Quotes *)

#[local] Abbreviation quoted snippet text :=
  (exists before core after : jstring,
     snippet = before ++ core ++ after /\
     (before = [] \/ before = str "...") /\
     (after = [] \/ after = str "...") /\
     JS.trim core = core /\
     exists u v : jstring, text = u ++ core ++ v) (only parsing).

Lemma withEllipses_quoted (text core : jstring) a b :
  JS.trim core = core -> (exists u v, text = u ++ core ++ v) ->
  quoted (withEllipses text a b core) text.
Proof.
  intros Ht Hp. unfold withEllipses.
  exists (if 0 <? a then str "..." else []), core,
         (if b <? length text then str "..." else []).
  split; [reflexivity|].
  split; [destruct (0 <? a); auto|].
  split; [destruct (b <? length text); auto|].
  split; assumption.
Qed.

Lemma trimmed_quoted (text piece : jstring) :
  (exists u v, text = u ++ piece ++ v) -> quoted (JS.trim piece) text.
Proof.
  intros Hp. exists [], (JS.trim piece), [].
  split; [simpl; now rewrite app_nil_r|].
  split; [now left|]. split; [now left|].
  split; [apply NormalizeFacts.trim_idem|].
  eapply piece_trans; [apply piece_trim | exact Hp].
Qed.

Lemma withoutRoleTitle_piece (s : jstring) :
  JS.trim s = s ->
  JS.trim (withoutRoleTitle s) = withoutRoleTitle s /\
  exists u v, s = u ++ withoutRoleTitle s ++ v.
Proof.
  intros Ht. unfold withoutRoleTitle.
  destruct (exec _ s) as [m|]; [|split; [exact Ht | apply piece_refl]].
  destruct (indexOfFrom s _ _) as [titleEnd|];
    [|split; [exact Ht | apply piece_refl]].
  split; [apply NormalizeFacts.trim_idem|].
  unfold substringFrom.
  eapply piece_trans; [apply piece_trim | apply piece_skipn].
Qed.

(** The snippet around a phrase is a quote of the text. *)
Lemma phrase_quoted (originalText : jstring) (phraseIndex : nat)
  (phrasePattern : jstring) :
  quoted (extractSnippetFromPhraseIndex originalText phraseIndex phrasePattern)
         originalText.
Proof.
  unfold extractSnippetFromPhraseIndex.
  set (a := snippetStartOf originalText phraseIndex).
  set (b := snippetEndOf originalText phraseIndex phrasePattern).
  destruct (withoutRoleTitle_piece (JS.trim (substring a b originalText)))
    as [Ht Hp]; [apply NormalizeFacts.trim_idem|].
  apply withEllipses_quoted; [exact Ht|].
  eapply piece_trans; [exact Hp|].
  eapply piece_trans; [apply piece_trim | apply piece_substring].
Qed.

(** The snippet around a position is a quote of the text. *)
Lemma window_quoted (originalText : jstring) (queryWords : list jstring)
  (snippetStartIndex : nat) :
  quoted (windowSnippet originalText queryWords snippetStartIndex) originalText.
Proof.
  unfold windowSnippet.
  set (start := snippetStartIndex - SNIPPET_WINDOW).
  set (end_ := Nat.min _ _).
  match goal with
  | |- context [withEllipses _ _ _ (JS.trim ?x)] => set (snippet2 := x)
  end.
  assert (Hp : exists u v, originalText = u ++ snippet2 ++ v).
  { subst snippet2.
    repeat match goal with
    | |- context [if ?c then _ else _] => destruct c
    | |- context [match ?c with Some _ => _ | None => _ end] => destruct c
    end; apply piece_substring. }
  apply withEllipses_quoted; [apply NormalizeFacts.trim_idem|].
  eapply piece_trans; [apply piece_trim | exact Hp].
Qed.

(** What [extractFocusedSnippet] returns is a quote of the text. *)
Lemma focused_quoted (originalText : jstring) (queryWords : list jstring)
  (snippet : jstring) :
  extractFocusedSnippet originalText queryWords = Some snippet ->
  quoted snippet originalText.
Proof.
  unfold extractFocusedSnippet.
  destruct (occurrences _ _) as [exact|]; [|discriminate].
  match goal with
  | |- context [match ?f with Some _ => _ | None => _ end = Some _ -> _] =>
      destruct f as [[|first found]|]
  end; [| |discriminate].
  - destruct (wordPositionsOf _ _) as [wordPositions|]; [|discriminate].
    match goal with
    | |- match ?i with Some _ => _ | None => _ end = Some _ -> _ =>
        destruct i
    end; intros [= <-].
    + apply window_quoted.
    + apply trimmed_quoted, piece_substring.
  - intros [= <-]. apply phrase_quoted.
Qed.

(** ** The search loops *)

Lemma startsWith_length (t p : jstring) :
  JS.startsWith t p = true -> length p <= length t.
Proof.
  revert t. induction p as [|x p IH]; intros t; simpl; [lia|].
  destruct t as [|y t]; [discriminate|].
  intros H. apply andb_prop in H as [_ H]. apply IH in H. simpl. lia.
Qed.

Lemma indexOf_bound (t p : jstring) i :
  JS.indexOf t p = Some i -> i + length p <= length t.
Proof.
  revert i. induction t as [|c t IH]; intros i; simpl.
  - destruct (JS.startsWith [] p) eqn:E; [|discriminate].
    intros [= <-]. apply startsWith_length in E. simpl in *. lia.
  - destruct (JS.startsWith (c :: t) p) eqn:E.
    + intros [= <-]. apply startsWith_length in E. simpl in *. lia.
    + destruct (JS.indexOf t p) as [j|]; [|discriminate].
      intros [= <-]. specialize (IH j eq_refl). lia.
Qed.

Lemma indexOfFrom_bound (t p : jstring) from i :
  indexOfFrom t p from = Some i ->
  Nat.min from (length t) <= i /\ i + length p <= length t.
Proof.
  unfold indexOfFrom.
  destruct (JS.indexOf _ p) as [j|] eqn:E; [|discriminate].
  intros [= <-]. apply indexOf_bound in E. rewrite length_skipn in E. lia.
Qed.

(** The loop over the occurrences of a pattern that is not empty ends. *)
Lemma occurrencesFrom_total (t p : jstring) :
  p <> [] ->
  forall fuel from, length t - from < fuel ->
    exists l, occurrencesFrom fuel t p from = Some l.
Proof.
  intros Hp. induction fuel as [|fuel IH]; intros from Hf; [lia|].
  simpl. destruct (indexOfFrom t p from) as [i|] eqn:E; [|now exists []].
  apply indexOfFrom_bound in E as [Hlo Hhi].
  assert (0 < length p) by (destruct p; [congruence | simpl; lia]).
  destruct (IH (i + 1)) as [l ->]; [lia|]. now exists (i :: l).
Qed.

Lemma occurrences_total (t p : jstring) :
  p <> [] -> exists l, occurrences t p = Some l.
Proof. intros Hp. apply occurrencesFrom_total; [exact Hp | lia]. Qed.

(** The loop over the occurrences of the empty pattern has not ended after
    any number of turns. *)
Lemma occurrencesFrom_empty (t : jstring) fuel from :
  occurrencesFrom fuel t [] from = None.
Proof.
  revert from. induction fuel as [|fuel IH]; intros from; [reflexivity|].
  simpl. unfold indexOfFrom.
  assert (E : forall u, JS.indexOf u [] = Some 0) by (now destruct u).
  rewrite E. simpl. now rewrite IH.
Qed.

Lemma toLowerCase_not_nil (t : jstring) : t <> [] -> JS.toLowerCase t <> [].
Proof. destruct t; [congruence | discriminate]. Qed.

Lemma join_not_nil sep (w : jstring) ws : w <> [] -> JS.join sep (w :: ws) <> [].
Proof.
  intros Hw. destruct w as [|c w]; [congruence|].
  destruct ws; discriminate.
Qed.

Lemma variationMatches_total (t : jstring) (variations : list jstring) :
  (forall v, In v variations -> v <> []) ->
  exists l, variationMatches t variations = Some l.
Proof.
  induction variations as [|v vs IH]; intros H; [now exists []|].
  simpl.
  destruct (occurrences_total t (JS.toLowerCase v)) as [l ->].
  { apply toLowerCase_not_nil, H. now left. }
  destruct l as [|i l]; [|now exists (i :: l)].
  apply IH. intros v' Hv'. apply H. now right.
Qed.

Lemma wordPositionsOf_total (t : jstring) (queryWords : list jstring) :
  (forall w, In w queryWords -> w <> []) ->
  exists l, wordPositionsOf t queryWords = Some l.
Proof.
  induction queryWords as [|w ws IH]; intros H; [now exists []|].
  simpl. unfold positionsOf.
  destruct (occurrences_total t (JS.toLowerCase w)) as [l ->].
  { apply toLowerCase_not_nil, H. now left. }
  destruct IH as [l' ->]; [intros w' Hw'; apply H; now right|].
  eexists. reflexivity.
Qed.

(** [extractFocusedSnippet] returns when there is a query word and no
    query word is empty. *)
Lemma focused_returns (originalText : jstring) (queryWords : list jstring) :
  queryWords <> [] -> (forall w, In w queryWords -> w <> []) ->
  exists snippet, extractFocusedSnippet originalText queryWords = Some snippet.
Proof.
  intros Hne Hw. destruct queryWords as [|w ws]; [congruence|].
  assert (Hw0 : w <> []) by (apply Hw; now left).
  unfold extractFocusedSnippet.
  destruct (occurrences_total (JS.toLowerCase originalText)
              (JS.toLowerCase (JS.join (str " ") (w :: ws)))) as [exact ->].
  { apply toLowerCase_not_nil, join_not_nil, Hw0. }
  destruct exact as [|i exact]; [|eexists; reflexivity].
  destruct (variationMatches_total (JS.toLowerCase originalText)
              [ JS.join (str " ") (w :: ws); JS.join (str "-") (w :: ws);
                JS.join (str "_") (w :: ws) ]) as [found ->].
  { intros v [<- | [<- | [<- | []]]]; apply join_not_nil, Hw0. }
  destruct found as [|i found]; [|eexists; reflexivity].
  destruct (wordPositionsOf_total (JS.toLowerCase originalText) (w :: ws) Hw)
    as [wordPositions ->].
  match goal with
  | |- exists s, match ?i with Some _ => _ | None => _ end = Some s =>
      destruct i
  end; eexists; reflexivity.
Qed.

End SnippetFacts.

(** X27. [extractSnippetFromPhraseIndex] quotes the text: whatever the
    index and the phrase, its result is a piece of the text with no white
    space at either end, with three dots before it, after it, on both sides
    or on neither. *)
Theorem extractSnippetFromPhraseIndex_quotes_the_text
  (originalText : jstring) (phraseIndex : nat) (phrasePattern : jstring) :
  exists before core after : jstring,
    Snippet.extractSnippetFromPhraseIndex originalText phraseIndex phrasePattern
      = before ++ core ++ after /\
    (before = [] \/ before = str "...") /\
    (after = [] \/ after = str "...") /\
    JS.trim core = core /\
    exists u v : jstring, originalText = u ++ core ++ v.
Proof. apply SnippetFacts.phrase_quoted. Qed.

(** X28. With at least one query word and no empty query word,
    [extractFocusedSnippet] returns, and what it returns quotes the text: a
    piece of the text with no white space at either end, with three dots
    before it, after it, on both sides or on neither. *)
Theorem extractFocusedSnippet_returns_a_quote
  (originalText : jstring) (queryWords : list jstring) :
  queryWords <> [] -> (forall w, In w queryWords -> w <> []) ->
  exists snippet before core after : jstring,
    Snippet.extractFocusedSnippet originalText queryWords = Some snippet /\
    snippet = before ++ core ++ after /\
    (before = [] \/ before = str "...") /\
    (after = [] \/ after = str "...") /\
    JS.trim core = core /\
    exists u v : jstring, originalText = u ++ core ++ v.
Proof.
  intros Hne Hw.
  destruct (SnippetFacts.focused_returns originalText queryWords Hne Hw)
    as [snippet E].
  destruct (SnippetFacts.focused_quoted _ _ _ E)
    as (before & core & after & H).
  exists snippet, before, core, after. split; [exact E | exact H].
Qed.

Lemma extractFocusedSnippet_returns_a_quote_witness :
  exists snippet before core after : jstring,
    Snippet.extractFocusedSnippet
      (str "Acme is a tool. It helps teams.") [str "helps"; str "teams"]
      = Some snippet /\
    snippet = before ++ core ++ after /\
    (before = [] \/ before = str "...") /\
    (after = [] \/ after = str "...") /\
    JS.trim core = core /\
    exists u v : jstring,
      str "Acme is a tool. It helps teams." = u ++ core ++ v.
Proof.
  apply (extractFocusedSnippet_returns_a_quote
           (str "Acme is a tool. It helps teams.") [str "helps"; str "teams"]).
  - discriminate.
  - intros w [<- | [<- | []]]; discriminate.
Defined.

(** X29. Without a query word, or with the empty string as its only query
    word, [extractFocusedSnippet] never returns: the phrase it looks for is
    empty, and the loop that collects the occurrences of an empty phrase
    has not ended after any number of turns, whatever the text. *)
Theorem extractFocusedSnippet_without_words_never_returns
  (originalText : jstring) :
  (forall fuel searchIndex,
     Snippet.occurrencesFrom fuel (JS.toLowerCase originalText)
       (JS.toLowerCase (JS.join (str " ") [])) searchIndex = None) /\
  Snippet.extractFocusedSnippet originalText [] = None /\
  Snippet.extractFocusedSnippet originalText [[]] = None.
Proof.
  split; [intros; apply SnippetFacts.occurrencesFrom_empty|].
  unfold Snippet.extractFocusedSnippet, Snippet.occurrences. simpl JS.join.
  change (JS.toLowerCase []) with (@nil ascii).
  rewrite SnippetFacts.occurrencesFrom_empty. now split.
Qed.

(** X30. Step 10 of the handler with the snippet extractors of the route:
    the words of a query are never empty and [extractFocusedSnippet] is
    called only when there is one, so the call returns; and the answer
    computed for the best chunk quotes that chunk: a piece of its text with
    no white space at either end, with three dots before it, after it, on
    both sides or on neither. *)
Theorem handler_snippet_quotes_the_best_chunk (env : Env) (query : jstring)
  (bestChunk : DocumentChunk) :
  let qi := queryInfoOf query in
  ((length (queryWords qi) = 1 \/
    JS.indexOf (normalizeTextForMatching (text bestChunk))
      (JS.join (str " ") (queryWords qi)) = None) ->
   exists snippet,
     Snippet.extractFocusedSnippet (text bestChunk) (queryWords qi)
       = Some snippet /\
     snippetOf (withSnippetExtractors env) qi bestChunk = snippet) /\
  exists before core after : jstring,
    snippetOf (withSnippetExtractors env) qi bestChunk
      = before ++ core ++ after /\
    (before = [] \/ before = str "...") /\
    (after = [] \/ after = str "...") /\
    JS.trim core = core /\
    exists u v : jstring, text bestChunk = u ++ core ++ v.
Proof.
  intros qi.
  assert (Hw : forall w, In w (queryWords qi) -> w <> []).
  { intros w Hin. unfold qi, queryInfoOf in Hin. simpl in Hin.
    unfold queryWordsOf in Hin. apply filter_In in Hin as [_ Hl].
    destruct w; [discriminate | discriminate]. }
  assert (Hcall :
    length (queryWords qi) = 1 \/
    JS.indexOf (normalizeTextForMatching (text bestChunk))
      (JS.join (str " ") (queryWords qi)) = None ->
    exists snippet,
      Snippet.extractFocusedSnippet (text bestChunk) (queryWords qi)
        = Some snippet).
  { intros Hc. apply SnippetFacts.focused_returns; [|exact Hw].
    intros E. rewrite E in Hc. destruct Hc as [Hc | Hc]; [discriminate|].
    simpl in Hc. destruct (normalizeTextForMatching (text bestChunk));
      discriminate. }
  assert (Hsnip :
    forall snippet,
      Snippet.extractFocusedSnippet (text bestChunk) (queryWords qi)
        = Some snippet ->
      (length (queryWords qi) = 1 \/
       JS.indexOf (normalizeTextForMatching (text bestChunk))
         (JS.join (str " ") (queryWords qi)) = None) ->
      snippetOf (withSnippetExtractors env) qi bestChunk = snippet).
  { intros snippet E Hc. unfold snippetOf, withSnippetExtractors.
    cbn [extractFocusedSnippet].
    destruct (length (queryWords qi) =? 1) eqn:E1; [now rewrite E|].
    destruct Hc as [Hc | Hc]; [rewrite Hc in E1; discriminate|].
    rewrite Hc. now rewrite E. }
  split.
  - intros Hc. destruct (Hcall Hc) as [snippet E].
    exists snippet. split; [exact E | now apply Hsnip].
  - destruct (length (queryWords qi) =? 1) eqn:E1.
    + apply Nat.eqb_eq in E1.
      destruct (Hcall (or_introl E1)) as [snippet E].
      rewrite (Hsnip snippet E (or_introl E1)).
      exact (SnippetFacts.focused_quoted _ _ _ E).
    + destruct (JS.indexOf (normalizeTextForMatching (text bestChunk))
                  (JS.join (str " ") (queryWords qi))) as [i|] eqn:Ei.
      * unfold snippetOf. rewrite E1, Ei.
        unfold withSnippetExtractors. cbn [extractSnippetFromPhraseIndex].
        apply SnippetFacts.phrase_quoted.
      * destruct (Hcall (or_intror eq_refl)) as [snippet E].
        rewrite (Hsnip snippet E (or_intror eq_refl)).
        exact (SnippetFacts.focused_quoted _ _ _ E).
Qed.
